(** * semcad prompt builder: message composer and generation pipeline

    A shallow embedding of [src/main.ts] (class [GeminiImageManipulator]):
    the message list with its drag-and-drop reordering, the two content
    serializers, the output list, the two generation flows and the
    template loader, followed by the properties of the specification
    that were checked against them.

    Conventions of the embedding.
    - A JavaScript string is the list of its UTF-16 code units.
    - The two id counters are JavaScript numbers that start at 1 and grow
      by one per action; every integer up to 2^53 is exact in that
      representation, and the counters are modelled as binary naturals.
      Where a counter is computed from stored ids ([counterAfter]) or a
      statement starts from an arbitrary state, the bound is written out
      ([TWO_53], [exactCounters]).
    - The browser and the network are not part of the program: reading a
      blob, fetching a data URL, the template registry and the generative
      API are the fields of a [World] the program runs in.
    - A handler runs from its start to its end: what the user does while
      an asynchronous handler waits is not interleaved with it, except
      where the life of an output is followed ([Step], [history]): there
      the creation of an output and each update of it are steps of
      their own, and any handler may run between them. The
      [reachable] states are those of a session that starts from the
      constructor's state with nothing to restore; [loadState], which
      restores what an earlier session saved, is modelled on its own
      ([start]), over the [Store] that the log of a session leaves.
    - The [systemMessage] of a state is what reading the value of the
      text area gives: a text that the program assigns to it comes back
      with CR LF and CR turned into LF. The kind of the key input is
      set by the page, which is not among the sources: a key the
      program assigns to it is taken to come back as it is.
    - The template registry is an object literal: besides the templates
      registered in it, a lookup finds the members every object
      inherits.
    - The render sink, the key-value store, [alert] and the requests sent
      to the API are recorded, in order, in the [effects] log of the
      state. *)

From Stdlib Require Import List NArith ZArith Arith Bool String Ascii Lia Permutation.
From Stdlib Require Import DecimalN.
Import ListNotations.

Set Implicit Arguments.

(* ------------------------------------------------------------------ *)
(** ** JavaScript strings *)

Module JsString.

Definition jsstring := list N.

Definition lit (s : string) : jsstring :=
  map N_of_ascii (list_ascii_of_string s).

Definition eq_dec : forall a b : jsstring, {a = b} + {a <> b} :=
  list_eq_dec N.eq_dec.

Definition eqb (a b : jsstring) : bool :=
  if eq_dec a b then true else false.

(** A string is truthy when it is not empty. *)
Definition truthy (s : jsstring) : bool :=
  match s with [] => false | _ :: _ => true end.

(** [a || b] on strings. *)
Definition orElse (a b : jsstring) : jsstring :=
  if truthy a then a else b.

(** WhiteSpace and LineTerminator code points of ECMAScript, the ones
    [String.prototype.trim] strips. *)
Definition isWhiteSpace (c : N) : bool :=
  match c with
  | 9 | 10 | 11 | 12 | 13 | 32 | 160 | 5760
  | 8232 | 8233 | 8239 | 8287 | 12288 | 65279 => true
  | _ => (8192 <=? c) && (c <=? 8202)
  end%N.

Fixpoint dropWhile (p : N -> bool) (s : jsstring) : jsstring :=
  match s with
  | [] => []
  | c :: s' => if p c then dropWhile p s' else s
  end.

Definition trimStart (s : jsstring) : jsstring := dropWhile isWhiteSpace s.
Definition trimEnd (s : jsstring) : jsstring :=
  rev (dropWhile isWhiteSpace (rev s)).
Definition trim (s : jsstring) : jsstring := trimEnd (trimStart s).

Fixpoint startsWith (s prefix : jsstring) : bool :=
  match prefix, s with
  | [], _ => true
  | _ :: _, [] => false
  | p :: prefix', c :: s' => (c =? p)%N && startsWith s' prefix'
  end.

(** The value of a text area whose raw value is [s]: every CR LF pair
    and every other CR is a LF. *)
Fixpoint normalizeNewlines (s : jsstring) : jsstring :=
  match s with
  | [] => []
  | 13%N :: 10%N :: s' => 10%N :: normalizeNewlines s'
  | 13%N :: s' => 10%N :: normalizeNewlines s'
  | c :: s' => c :: normalizeNewlines s'
  end.

(** [s.split(sep)] for a one-unit separator: never empty. *)
Fixpoint split (sep : N) (s : jsstring) : list jsstring :=
  match s with
  | [] => [[]]
  | c :: s' =>
      if (c =? sep)%N then [] :: split sep s'
      else match split sep s' with
           | [] => [[c]]
           | w :: ws => (c :: w) :: ws
           end
  end.

(** A value that may be [undefined], as a template literal prints it. *)
Definition interpolate (v : option jsstring) : jsstring :=
  match v with Some s => s | None => lit "undefined" end.

(** [String(n)] for a non-negative integer: its decimal digits. *)
Fixpoint digits (d : Decimal.uint) : jsstring :=
  match d with
  | Decimal.Nil => []
  | Decimal.D0 d => 48%N :: digits d
  | Decimal.D1 d => 49%N :: digits d
  | Decimal.D2 d => 50%N :: digits d
  | Decimal.D3 d => 51%N :: digits d
  | Decimal.D4 d => 52%N :: digits d
  | Decimal.D5 d => 53%N :: digits d
  | Decimal.D6 d => 54%N :: digits d
  | Decimal.D7 d => 55%N :: digits d
  | Decimal.D8 d => 56%N :: digits d
  | Decimal.D9 d => 57%N :: digits d
  end.

Definition ofNumber (n : N) : jsstring := digits (N.to_uint n).

End JsString.

Import JsString.

Definition LF : N := 10.
Definition COMMA : N := 44.
Definition SPACE : N := 32.

(* ------------------------------------------------------------------ *)
(** ** Data model *)

(** A [Blob] (a [File] is one): its bytes and its declared type. *)
Record Blob := mkBlob {
  blob_bytes : list N;
  blob_type : jsstring
}.

(** [{ blob, mimeType, dataUrl }] *)
Record Image := mkImage {
  blob : Blob;
  mimeType : jsstring;
  dataUrl : jsstring
}.

(** An element of [this.messages]. *)
Record MessageItem := mkMessage {
  msg_id : jsstring;
  msg_text : jsstring;
  msg_image : option Image
}.

(** An element of [this.outputs]. *)
Record OutputItem := mkOutput {
  out_id : jsstring;
  out_imageUrl : option jsstring;
  out_text : jsstring;
  out_loading : bool
}.

(** What [saveMessages] writes: the image without its [dataUrl]. *)
Record StoredMessage := mkStored {
  st_id : jsstring;
  st_text : jsstring;
  st_image : option (Blob * jsstring)
}.

(** [types.ts] *)
Inductive Role := system | user | model.

Record TemplateMessage := mkTemplateMessage {
  role : Role;
  tm_text : jsstring;
  tm_image : option jsstring  (* [image.dataUrl] *)
}.

Record Template := mkTemplate { tmpl_messages : list TemplateMessage }.

(** Parts of a request. [data] is what [blobToBase64] resolved to, which
    is [undefined] when the data URL it read holds no comma. *)
Inductive Part :=
| TextPart (text : jsstring)
| InlineDataPart (data : option jsstring) (mime : jsstring).

Record Config := mkConfig {
  responseModalities : list jsstring;
  systemInstruction : option jsstring
}.

Record Content := mkContent {
  content_role : jsstring;
  parts : list Part
}.

Record Request := mkRequest {
  req_model : jsstring;
  config : Config;
  contents : list Content
}.

(** A part of a streamed chunk: [inlineData] and [text] are both
    optional, and so are the two fields of [inlineData]. *)
Record ResponsePart := mkResponsePart {
  inlineData : option (option jsstring * option jsstring); (* mimeType, data *)
  part_text : option jsstring
}.

(** A chunk: [candidates?.[0]?.content?.parts || []] and [chunk.text]. *)
Record Chunk := mkChunk {
  chunk_parts : list ResponsePart;
  chunk_text : option jsstring
}.

(** A thrown value, seen through its [message] property. *)
Definition JsError := option jsstring.

(** What a streaming call does: the chunks it yields, then either the
    end of the stream ([None]) or a failure. A call that is rejected
    before it yields anything is a stream without chunks that fails. *)
Record Stream := mkStream {
  chunks : list Chunk;
  failure : option JsError
}.

(** Calls to the external collaborators, in the order they happen. *)
Inductive Effect :=
| Alert (message : jsstring)
| RenderMessages (shown : list MessageItem)
| RenderOutputs (shown : list OutputItem)
| SaveMessages (stored : list StoredMessage)
| SaveOutputs (stored : list OutputItem)
| SaveSystemMessage (message : jsstring)
| SaveApiKey (key : jsstring)
| Submit (request : Request).

(** The fields of the class instance, the values of the two inputs it
    reads, and the log of effects. *)
Record State := mkState {
  messages : list MessageItem;
  nextId : N;
  outputs : list OutputItem;
  nextOutputId : N;
  draggedId : option jsstring;
  apiKeyInput : jsstring;
  systemMessage : jsstring;
  effects : list Effect
}.

Definition set_messages (l : list MessageItem) (s : State) : State :=
  mkState l (nextId s) (outputs s) (nextOutputId s) (draggedId s)
          (apiKeyInput s) (systemMessage s) (effects s).
Definition set_nextId (n : N) (s : State) : State :=
  mkState (messages s) n (outputs s) (nextOutputId s) (draggedId s)
          (apiKeyInput s) (systemMessage s) (effects s).
Definition set_outputs (l : list OutputItem) (s : State) : State :=
  mkState (messages s) (nextId s) l (nextOutputId s) (draggedId s)
          (apiKeyInput s) (systemMessage s) (effects s).
Definition set_nextOutputId (n : N) (s : State) : State :=
  mkState (messages s) (nextId s) (outputs s) n (draggedId s)
          (apiKeyInput s) (systemMessage s) (effects s).
Definition set_draggedId (d : option jsstring) (s : State) : State :=
  mkState (messages s) (nextId s) (outputs s) (nextOutputId s) d
          (apiKeyInput s) (systemMessage s) (effects s).
Definition set_apiKeyInput (v : jsstring) (s : State) : State :=
  mkState (messages s) (nextId s) (outputs s) (nextOutputId s) (draggedId s)
          v (systemMessage s) (effects s).
Definition set_systemMessage (v : jsstring) (s : State) : State :=
  mkState (messages s) (nextId s) (outputs s) (nextOutputId s) (draggedId s)
          (apiKeyInput s) v (effects s).
Definition emit (e : Effect) (s : State) : State :=
  mkState (messages s) (nextId s) (outputs s) (nextOutputId s) (draggedId s)
          (apiKeyInput s) (systemMessage s) (effects s ++ [e]).

(** The state the constructor sets up. *)
Definition initial (apiKey systemMsg : jsstring) : State :=
  mkState [] 1 [] 1 None apiKey systemMsg [].

(* ------------------------------------------------------------------ *)
(** ** Arrays *)

Section Arrays.
Context {A : Type}.

(** [l.findIndex(p)], with [None] for -1. *)
Fixpoint findIndex (p : A -> bool) (l : list A) : option nat :=
  match l with
  | [] => None
  | x :: l' =>
      if p x then Some 0
      else match findIndex p l' with
           | Some i => Some (S i)
           | None => None
           end
  end.

(** The array after [l.splice(i, 1)] and the elements it removed. *)
Definition spliceOut (i : nat) (l : list A) : list A * list A :=
  (firstn 1 (skipn i l), firstn i l ++ skipn (S i) l).

(** The array after [l.splice(i, 0, x)]. *)
Definition spliceIn (i : nat) (x : A) (l : list A) : list A :=
  firstn i l ++ x :: skipn i l.

(** Assignment to fields of the object [l.find(p)] returned: the
    first element that satisfies [p] is changed where it stands. *)
Fixpoint mutateFound (p : A -> bool) (f : A -> A) (l : list A) : list A :=
  match l with
  | [] => []
  | x :: l' => if p x then f x :: l' else x :: mutateFound p f l'
  end.
End Arrays.

(* ------------------------------------------------------------------ *)
(** ** Computations that touch the state and may throw *)

Inductive Result (A : Type) :=
| Ok (a : A)
| Throw (e : JsError).
Arguments Ok {A} a.
Arguments Throw {A} e.

Definition M (A : Type) := State -> State * Result A.

Definition ret {A} (a : A) : M A := fun s => (s, Ok a).
Definition throw {A} (e : JsError) : M A := fun s => (s, Throw e).
Definition bind {A B} (c : M A) (k : A -> M B) : M B :=
  fun s => match c s with
           | (s', Ok a) => k a s'
           | (s', Throw e) => (s', Throw e)
           end.
Definition await {A} (r : Result A) : M A := fun s => (s, r).
Definition get : M State := fun s => (s, Ok s).
Definition modify (f : State -> State) : M unit := fun s => (f s, Ok tt).

(** [try { c } catch (error) { handler(error) }] where the handler does
    not throw. *)
Definition tryCatch (c : M unit) (handler : JsError -> State -> State)
  : State -> State :=
  fun s => match c s with
           | (s', Ok _) => s'
           | (s', Throw e) => handler e s'
           end.

Declare Scope js_scope.
Delimit Scope js_scope with js.
Notation "x <- c ;; k" := (bind c (fun x => k))
  (at level 61, c at next level, right associativity) : js_scope.
Notation "c ;; k" := (bind c (fun _ => k))
  (at level 61, right associativity) : js_scope.
Open Scope js_scope.

(** [for (const x of l) body], with the loop-carried locals in [acc]. *)
Fixpoint forOf {A X} (body : A -> X -> M A) (acc : A) (l : list X) : M A :=
  match l with
  | [] => ret acc
  | x :: l' => acc' <- body acc x ;; forOf body acc' l'
  end.

(** [for await (const chunk of response) body]: the chunks in order,
    then the end of the stream or its failure. *)
Definition forAwait {A} (body : A -> Chunk -> M A) (acc : A) (r : Stream)
  : M A :=
  acc' <- forOf body acc (chunks r) ;;
  match failure r with
  | None => ret acc'
  | Some e => throw e
  end.

(* ------------------------------------------------------------------ *)
(** ** The program *)

Definition PLACEHOLDER_IMAGE : jsstring := lit "https://placehold.co/800".
Definition MODEL : jsstring := lit "gemini-2.5-flash-image-preview".
Definition TEXT_MODEL : jsstring := lit "gemini-2.5-flash".

(** The names of the members of [Object.prototype], which every object
    literal inherits. *)
Definition OBJECT_PROTOTYPE_KEYS : list jsstring :=
  [ lit "constructor"; lit "hasOwnProperty"; lit "isPrototypeOf";
    lit "propertyIsEnumerable"; lit "toLocaleString"; lit "toString";
    lit "valueOf"; lit "__proto__"; lit "__defineGetter__";
    lit "__defineSetter__"; lit "__lookupGetter__"; lit "__lookupSetter__" ].

(** What the browser and the network do. *)
Record World := mkWorld {
  (** [FileReader.readAsDataURL]: the data URL of a blob, or the error
      event the reader reports. *)
  readAsDataURL : Blob -> Result jsstring;
  (** [fetch(url)] followed by [response.blob()]. *)
  fetchBlob : jsstring -> Result Blob;
  (** [asyncTemplates]: the templates that can be loaded, by name. *)
  asyncTemplates : jsstring -> option Template;
  (** [ai.models.generateContentStream]. *)
  generateContentStream : Request -> Stream
}.

Section Program.

Variable w : World.

(** *** Utility functions *)

Definition blobToDataUrl (b : Blob) : Result jsstring := readAsDataURL w b.

(** [dataUrl.split(",")[1]] *)
Definition blobToBase64 (b : Blob) : Result (option jsstring) :=
  match readAsDataURL w b with
  | Ok dataUrl => Ok (nth_error (split COMMA dataUrl) 1)
  | Throw e => Throw e
  end.

(** *** Persistence and rendering *)

Definition stored (msg : MessageItem) : StoredMessage :=
  mkStored (msg_id msg) (msg_text msg)
    (match msg_image msg with
     | Some img => Some (blob img, mimeType img)
     | None => None
     end).

Definition saveMessages (s : State) : State :=
  emit (SaveMessages (map stored (messages s))) s.

Definition saveOutputs (s : State) : State :=
  emit (SaveOutputs (filter (fun output => negb (out_loading output))
                            (outputs s))) s.

Definition saveSystemMessage (message : jsstring) (s : State) : State :=
  emit (SaveSystemMessage message) s.

Definition saveApiKey (key : jsstring) (s : State) : State :=
  emit (SaveApiKey key) s.

Definition renderMessages (s : State) : State :=
  emit (RenderMessages (messages s)) s.

Definition renderOutputs (s : State) : State :=
  emit (RenderOutputs (outputs s)) s.

Definition alert (message : jsstring) (s : State) : State :=
  emit (Alert message) s.

(** *** Message management *)

Definition hasId (id : jsstring) (msg : MessageItem) : bool :=
  eqb (msg_id msg) id.

Definition addItem (s : State) : State :=
  let id := ofNumber (nextId s) in
  let s := set_nextId (nextId s + 1) s in
  let s := set_messages (messages s ++ [mkMessage id [] None]) s in
  saveMessages (renderMessages s).

Definition deleteMessage (id : jsstring) (s : State) : State :=
  let s := set_messages
             (filter (fun msg => negb (hasId id msg)) (messages s)) s in
  saveMessages (renderMessages s).

Definition deleteAllMessages (s : State) : State :=
  saveMessages (renderMessages (set_messages [] s)).

Definition updateMessageText (id text : jsstring) (s : State) : State :=
  match find (hasId id) (messages s) with
  | Some _ =>
      let setText msg := mkMessage (msg_id msg) text (msg_image msg) in
      saveMessages (set_messages (mutateFound (hasId id) setText (messages s)) s)
  | None => s
  end.

Definition updateMessageImage (id : jsstring) (file : Blob) : M unit :=
  if negb (startsWith (blob_type file) (lit "image/")) then ret tt
  else
    s <- get ;;
    match find (hasId id) (messages s) with
    | Some _ =>
        dataUrl <- await (blobToDataUrl file) ;;
        let setImage msg :=
          mkMessage (msg_id msg) (msg_text msg)
                    (Some (mkImage file (blob_type file) dataUrl)) in
        modify (fun s => set_messages
                           (mutateFound (hasId id) setImage (messages s)) s) ;;
        modify renderMessages ;;
        modify saveMessages
    | None => ret tt
    end.

(** *** Output management *)

Definition hasOutputId (id : jsstring) (o : OutputItem) : bool :=
  eqb (out_id o) id.

(** Returns the id of the output it created. *)
Definition addOutput (showImage : bool) (s : State) : State * jsstring :=
  let id := ofNumber (nextOutputId s) in
  let s := set_nextOutputId (nextOutputId s + 1) s in
  let output :=
    mkOutput id (if showImage then Some PLACEHOLDER_IMAGE else None)
             (lit "Generating...") true in
  let s := set_outputs (output :: outputs s) s in
  (renderOutputs s, id).

Definition updateOutput (id : jsstring) (imageUrl : option jsstring)
           (text : jsstring) (s : State) : State :=
  match find (hasOutputId id) (outputs s) with
  | Some _ =>
      let assign o := mkOutput (out_id o) imageUrl text false in
      let s := set_outputs (mutateFound (hasOutputId id) assign (outputs s)) s in
      saveOutputs (renderOutputs s)
  | None => s
  end.

Definition deleteOutput (id : jsstring) (s : State) : State :=
  let s := set_outputs
             (filter (fun o => negb (hasOutputId id o)) (outputs s)) s in
  saveOutputs (renderOutputs s).

Definition deleteAllOutputs (s : State) : State :=
  saveOutputs (renderOutputs (set_outputs [] s)).

(** *** Drag and drop *)

Definition handleDragStart (id : jsstring) (s : State) : State :=
  set_draggedId (Some id) s.

Definition handleDragEnd (s : State) : State :=
  set_draggedId None s.

(** [dragged === id], where [dragged] may be [null]. *)
Definition isDragged (dragged : option jsstring) (id : jsstring) : bool :=
  match dragged with
  | Some d => eqb d id
  | None => false
  end.

(** [isTop] is [e.clientY < midpoint]: the drop falls on the upper half
    of the target, and the dragged item goes before it. *)
Definition handleDrop (isTop : bool) (targetId : jsstring) (s : State)
  : State :=
  if isDragged (draggedId s) targetId then s
  else
    match findIndex (fun msg => isDragged (draggedId s) (msg_id msg))
                    (messages s),
          findIndex (hasId targetId) (messages s) with
    | Some draggedIndex, Some targetIndex =>
        match spliceOut draggedIndex (messages s) with
        | (draggedMessage :: _, remaining) =>
            let insertIndex :=
              if draggedIndex <? targetIndex
              then (if isTop then targetIndex - 1 else targetIndex)
              else (if isTop then targetIndex else targetIndex + 1) in
            let s := set_messages
                       (spliceIn insertIndex draggedMessage remaining) s in
            saveMessages (renderMessages s)
        | ([], _) => s
        end
    | _, _ => s
    end.

(** The [reorder] operation of the specification: a drag that starts
    on one item and is dropped on another. *)
Definition reorder (dragged target : jsstring) (insertBefore : bool)
           (s : State) : State :=
  handleDragEnd (handleDrop insertBefore target (handleDragStart dragged s)).


(** *** Template loader *)

Definition isSystem (m : TemplateMessage) : bool :=
  match role m with system => true | _ => false end.

(** The image of an entry: its data URL fetched and turned into a
    blob. *)
Definition fetchImage (msg : TemplateMessage) : Result (option Image) :=
  match tm_image msg with
  | Some url =>
      match fetchBlob w url with
      | Ok blob => Ok (Some (mkImage blob (blob_type blob) url))
      | Throw e => Throw e
      end
  | None => Ok None
  end.

(** The body of the loop over the entries that are not system
    entries. *)
Definition loadEntry (_ : unit) (msg : TemplateMessage) : M unit :=
  s <- get ;;
  let id := ofNumber (nextId s) in
  modify (fun s => set_nextId (nextId s + 1) s) ;;
  image <- await (fetchImage msg) ;;
  modify (fun s => set_messages
                     (messages s ++ [mkMessage id (tm_text msg) image]) s).

(** [asyncTemplates[templateName]]: the module registered under the
    name; or, for a name that is not registered, the member of
    [Object.prototype] of that name, which has no [template]; or
    [undefined]. *)
Inductive Lookup :=
| Registered (template : Template)
| Inherited
| Undefined.

Definition lookup (templateName : jsstring) : Lookup :=
  match asyncTemplates w templateName with
  | Some template => Registered template
  | None =>
      if existsb (eqb templateName) OBJECT_PROTOTYPE_KEYS then Inherited
      else Undefined
  end.

Definition loadTemplate (templateName : jsstring) : State -> State :=
  tryCatch
    (match lookup templateName with
     | Undefined =>
         (* [templateModule.template] throws *)
         throw (Some (lit "Cannot read properties of undefined (reading 'template')"))
     | Inherited =>
         (* [template] is undefined: [template.messages] throws, after
            the list was cleared *)
         modify (set_messages []) ;;
         modify (set_nextId 1) ;;
         throw (Some (lit "Cannot read properties of undefined (reading 'messages')"))
     | Registered template =>
         modify (set_messages []) ;;
         modify (set_nextId 1) ;;
         match find isSystem (tmpl_messages template) with
         | Some systemMsg =>
             modify (set_systemMessage (normalizeNewlines (tm_text systemMsg))) ;;
             modify (saveSystemMessage (tm_text systemMsg))
         | None => ret tt
         end ;;
         forOf loadEntry tt
               (filter (fun m => negb (isSystem m)) (tmpl_messages template)) ;;
         modify renderMessages ;;
         modify saveMessages
     end)
    (fun error => alert (lit "Failed to load template.")).

(** *** Content serializer *)

(** The body of the loop over [this.messages], the same in both
    generation functions but for the separator written before the
    marker. *)
Definition pushMessageParts (separator : jsstring) (parts : list Part)
           (message : MessageItem) : M (list Part) :=
  match msg_image message with
  | None =>
      if negb (truthy (trim (msg_text message))) then ret parts (* continue *)
      else if truthy (trim (msg_text message))
      then ret (parts ++ [TextPart (trim (msg_text message))])
      else ret parts
  | Some image =>
      let textContent := trim (msg_text message) in
      let textWithPrompt :=
        if truthy textContent
        then textContent ++ separator ++ lit "See image:"
        else lit "See image:" in
      let parts := parts ++ [TextPart textWithPrompt] in
      base64Data <- await (blobToBase64 (blob image)) ;;
      ret (parts ++ [InlineDataPart base64Data (mimeType image)])
  end.

(** *** Generation flows *)

(** The locals [generatedImageUrls] and [textContent] after one more
    part of a chunk. *)
Definition collectPart (acc : list jsstring * jsstring) (part : ResponsePart)
  : list jsstring * jsstring :=
  let (generatedImageUrls, textContent) := acc in
  match inlineData part with
  | Some (imgMimeType, data) =>
      let imageUrl := lit "data:" ++ interpolate imgMimeType
                      ++ lit ";base64," ++ interpolate data in
      (generatedImageUrls ++ [imageUrl], textContent)
  | None =>
      match part_text part with
      | Some text =>
          if truthy text then (generatedImageUrls, textContent ++ text)
          else acc
      | None => acc
      end
  end.

Definition collectChunk (acc : list jsstring * jsstring) (chunk : Chunk)
  : M (list jsstring * jsstring) :=
  ret (fold_left collectPart (chunk_parts chunk) acc).

Definition imageRequest (parts : list Part) : Request :=
  mkRequest MODEL (mkConfig [lit "IMAGE"] None)
            [mkContent (lit "user") parts].

(** "Build parts array from messages" in [generateImageContent]. *)
Definition buildImageParts (systemMsg : jsstring) : M (list Part) :=
  let parts := if truthy systemMsg then [TextPart (trim systemMsg)] else [] in
  s <- get ;;
  forOf (pushMessageParts [LF]) parts (messages s).

Definition generateImageContent (systemMsg outputId : jsstring) : M unit :=
  parts <- buildImageParts systemMsg ;;
  let request := imageRequest parts in
  modify (emit (Submit request)) ;;
  acc <- forAwait collectChunk ([], []) (generateContentStream w request) ;;
  let (generatedImageUrls, textContent) := acc in
  match generatedImageUrls with
  | finalImageUrl :: _ =>
      modify (updateOutput outputId (Some finalImageUrl)
                (orElse textContent (lit "Image successfully generated.")))
  | [] =>
      modify (updateOutput outputId (Some PLACEHOLDER_IMAGE)
                (orElse textContent
                   (lit "Generation complete, but no image was returned.")))
  end.

Definition textRequest (systemMsg : jsstring) (parts : list Part) : Request :=
  mkRequest TEXT_MODEL
            (mkConfig [lit "TEXT"]
                      (if truthy systemMsg then Some systemMsg else None))
            [mkContent (lit "user") parts].

(** One turn of the loop over the chunks of a text stream. *)
Definition streamText (outputId : jsstring) (textContent : jsstring)
           (chunk : Chunk) : M jsstring :=
  let chunkText := match chunk_text chunk with
                   | Some t => orElse t []
                   | None => []
                   end in
  let textContent := textContent ++ chunkText in
  modify (updateOutput outputId None textContent) ;;
  ret textContent.

(** "Build parts array from messages" in [generateTextContent]. *)
Definition buildTextParts : M (list Part) :=
  s <- get ;;
  forOf (pushMessageParts [SPACE]) [] (messages s).

Definition generateTextContent (systemMsg outputId : jsstring) : M unit :=
  parts <- buildTextParts ;;
  let request := textRequest systemMsg parts in
  modify (emit (Submit request)) ;;
  textContent <- forAwait (streamText outputId) []
                          (generateContentStream w request) ;;
  let textContent :=
    if truthy textContent then textContent
    else lit "Text generation complete, but no text was returned." in
  modify (updateOutput outputId None textContent).

Definition errorText (error : JsError) : jsstring :=
  lit "Error: " ++
  orElse (match error with Some message => message | None => [] end)
         (lit "An unknown error occurred.").

Definition handleGenerateImage (s : State) : State :=
  let apiKey := trim (apiKeyInput s) in
  let systemMsg := trim (systemMessage s) in
  if negb (truthy apiKey) then alert (lit "Please provide an API Key.") s
  else if negb (truthy systemMsg) && (List.length (messages s) =? 0)
  then alert (lit "Please provide either a system message or at least one message item.") s
  else
    let (s, outputId) := addOutput true s in
    tryCatch (generateImageContent systemMsg outputId)
             (fun error =>
                updateOutput outputId (Some PLACEHOLDER_IMAGE) (errorText error))
             s.

Definition handleGenerateText (s : State) : State :=
  let apiKey := trim (apiKeyInput s) in
  let systemMsg := trim (systemMessage s) in
  if negb (truthy apiKey) then alert (lit "Please provide an API Key.") s
  else if negb (truthy systemMsg) && (List.length (messages s) =? 0)
  then alert (lit "Please provide either a system message or at least one message item.") s
  else
    let (s, outputId) := addOutput false s in
    tryCatch (generateTextContent systemMsg outputId)
             (fun error => updateOutput outputId None (errorText error))
             s.

(** *** Input listeners *)

Definition inputApiKey (value : jsstring) (s : State) : State :=
  saveApiKey (trim value) (set_apiKeyInput value s).

Definition inputSystemMessage (value : jsstring) (s : State) : State :=
  saveSystemMessage (trim value) (set_systemMessage value s).

(** *** Sessions *)

(** What the user can do, one event handler each. *)
Inductive Action :=
| AddItem
| DeleteMessage (id : jsstring)
| DeleteAllMessages
| UpdateMessageText (id text : jsstring)
| UpdateMessageImage (id : jsstring) (file : Blob)
| DragStart (id : jsstring)
| Drop (isTop : bool) (targetId : jsstring)
| DragEnd
| GenerateImage
| GenerateText
| DeleteOutput (id : jsstring)
| DeleteAllOutputs
| InputApiKey (value : jsstring)
| InputSystemMessage (value : jsstring)
| LoadTemplate (templateName : jsstring).

Definition perform (a : Action) (s : State) : State :=
  match a with
  | AddItem => addItem s
  | DeleteMessage id => deleteMessage id s
  | DeleteAllMessages => deleteAllMessages s
  | UpdateMessageText id text => updateMessageText id text s
  | UpdateMessageImage id file => fst (updateMessageImage id file s)
  | DragStart id => handleDragStart id s
  | Drop isTop targetId => handleDrop isTop targetId s
  | DragEnd => handleDragEnd s
  | GenerateImage => handleGenerateImage s
  | GenerateText => handleGenerateText s
  | DeleteOutput id => deleteOutput id s
  | DeleteAllOutputs => deleteAllOutputs s
  | InputApiKey value => inputApiKey value s
  | InputSystemMessage value => inputSystemMessage value s
  | LoadTemplate templateName => loadTemplate templateName s
  end.

(** The states a session goes through: the constructor's state, with
    whatever the two inputs hold, then one handler after the other. *)
Inductive reachable : State -> Prop :=
| reachable_initial apiKey systemMsg :
    reachable (initial apiKey systemMsg)
| reachable_perform a s :
    reachable s -> reachable (perform a s).

End Program.

(* ------------------------------------------------------------------ *)
(** ** Notions the statements are written with *)

Definition ids (s : State) : list jsstring := map msg_id (messages s).

(** The effects a handler added to the log of [s] on its way to [s']. *)
Definition since (s s' : State) : list Effect :=
  skipn (List.length (effects s)) (effects s').

Definition isSubmit (e : Effect) : bool :=
  match e with Submit _ => true | _ => false end.

Definition isAlert (e : Effect) : bool :=
  match e with Alert _ => true | _ => false end.

(** The credential and the system instruction a generation handler
    works with, and the condition under which it goes on. *)
Definition credential (s : State) : jsstring := trim (apiKeyInput s).
Definition systemText (s : State) : jsstring := trim (systemMessage s).

Definition canGenerate (s : State) : Prop :=
  credential s <> [] /\ (systemText s <> [] \/ messages s <> []).

(** The output a generation handler creates in [s]. *)
Definition newOutputId (s : State) : jsstring := ofNumber (nextOutputId s).

Definition created (showImage : bool) (s : State) : OutputItem :=
  mkOutput (newOutputId s)
           (if showImage then Some PLACEHOLDER_IMAGE else None)
           (lit "Generating...") true.

(** The successive contents of the output list, as the render sink saw
    them. *)
Fixpoint rendered (log : list Effect) : list (list OutputItem) :=
  match log with
  | [] => []
  | RenderOutputs shown :: log' => shown :: rendered log'
  | _ :: log' => rendered log'
  end.

(** The [loading] flag of the output [id], when the list has it. *)
Definition loadingOf (id : jsstring) (l : list OutputItem) : option bool :=
  option_map out_loading (find (hasOutputId id) l).

Definition textOf (id : jsstring) (l : list OutputItem) : option jsstring :=
  option_map out_text (find (hasOutputId id) l).

(** How many times [loading] goes from true to false along a history of
    flags. *)
Fixpoint clearings (history : list (option bool)) : nat :=
  match history with
  | before :: (after :: _) as rest =>
      (match before, after with
       | Some true, Some false => 1
       | _, _ => 0
       end) + clearings rest
  | _ => 0
  end.

(** Every image blob of the list can be read. *)
Definition allReadable (w : World) (l : list MessageItem) : bool :=
  forallb (fun msg => match msg_image msg with
                      | Some img => match readAsDataURL w (blob img) with
                                    | Ok _ => true
                                    | Throw _ => false
                                    end
                      | None => true
                      end) l.

(** The parts one item contributes to a request, by the rules of the
    serializer: nothing for an item without text and image, the trimmed
    text alone for an item without image, the marker text and the image
    data for an item with an image. It is the loop body of the two
    generation functions when the blob is read without error. *)
Definition partsOfItem (w : World) (separator : jsstring) (msg : MessageItem)
  : list Part :=
  match msg_image msg with
  | Some img =>
      [ TextPart (if truthy (trim (msg_text msg))
                  then trim (msg_text msg) ++ separator ++ lit "See image:"
                  else lit "See image:");
        InlineDataPart (match blobToBase64 w (blob img) with
                        | Ok data => data
                        | Throw _ => None
                        end)
                       (mimeType img) ]
  | None =>
      if truthy (trim (msg_text msg)) then [TextPart (trim (msg_text msg))]
      else []
  end.

(** A sequence of calls of [updateOutput] on one output. *)
Definition applyUpdates (id : jsstring)
           (updates : list (option jsstring * jsstring)) (s : State) : State :=
  fold_left (fun st u => updateOutput id (fst u) (snd u) st) updates s.

(** The images a stream produced, in order: one data URL per
    inline-binary part. *)
Definition producedImages (l : list Chunk) : list jsstring :=
  flat_map (fun part => match inlineData part with
                        | Some (imgMimeType, data) =>
                            [lit "data:" ++ interpolate imgMimeType
                             ++ lit ";base64," ++ interpolate data]
                        | None => []
                        end)
           (flat_map chunk_parts l).

(** The text a stream of parts carried: the texts of its text parts,
    concatenated. *)
Definition accumulatedText (l : list Chunk) : jsstring :=
  List.concat (map (fun part => match inlineData part, part_text part with
                           | None, Some text => text
                           | _, _ => []
                           end)
              (flat_map chunk_parts l)).

(** The text delta of a chunk of a text stream, and the running string
    after the first [k] chunks. *)
Definition delta (chunk : Chunk) : jsstring :=
  match chunk_text chunk with Some text => text | None => [] end.

Definition running (l : list Chunk) (k : nat) : jsstring :=
  List.concat (map delta (firstn k l)).

(** The updates a text stream asks for while it is read: after each
    chunk, no image and the running string. *)
Definition textUpdates (l : list Chunk) : list (option jsstring * jsstring) :=
  map (fun k => (None, running l k)) (seq 1 (List.length l)).

(** The operations of the message list model. *)
Inductive ListOp :=
| Add
| Delete (id : jsstring)
| Reorder (dragged target : jsstring) (insertBefore : bool).

Definition apply (op : ListOp) (s : State) : State :=
  match op with
  | Add => addItem s
  | Delete id => deleteMessage id s
  | Reorder dragged target insertBefore => reorder dragged target insertBefore s
  end.

(** The states a sequence of operations goes through, the first one
    included: the state at position [i] is the one operation [i] starts
    from. *)
Fixpoint run (ops : list ListOp) (s : State) : list State :=
  s :: match ops with
       | [] => []
       | op :: ops' => run ops' (apply op s)
       end.

(** The ids of the list are distinct and were all issued by the
    counter. *)
Definition wellFormedIds (s : State) : Prop :=
  NoDup (ids s) /\
  forall id, In id (ids s) -> exists n, (n < nextId s)%N /\ id = ofNumber n.

(** The ids of the output list were all issued by its counter. *)
Definition issuedOutputIds (s : State) : Prop :=
  forall id, In id (map out_id (outputs s)) ->
             exists n, (n < nextOutputId s)%N /\ id = ofNumber n.

(** Doubles hold every integer up to 2^53: a counter that is at most
    2^53 got there by exact increments, and is the natural it is here. *)
Definition TWO_53 : N := 9007199254740992.

Definition exactCounters (s : State) : Prop :=
  (nextId s <= TWO_53)%N /\ (nextOutputId s <= TWO_53)%N.

(** One step of a session in which a generation may wait: a handler
    that runs to its end, the start of a generation (the output it
    creates), or one of the updates that a generation in progress
    applies to its output. *)
Inductive Step :=
| Handled (a : Action)
| Begun (showImage : bool)
| Updated (id : jsstring) (imageUrl : option jsstring) (text : jsstring).

Definition occur (w : World) (e : Step) (s : State) : State :=
  match e with
  | Handled a => perform w a s
  | Begun showImage => fst (addOutput showImage s)
  | Updated id imageUrl text => updateOutput id imageUrl text s
  end.

(** The states a sequence of steps goes through, the first one
    included. *)
Fixpoint states (w : World) (trace : list Step) (s : State) : list State :=
  s :: match trace with
       | [] => []
       | e :: trace' => states w trace' (occur w e s)
       end.

(** The [loading] flag of the output [id] along those states. *)
Definition history (w : World) (id : jsstring) (trace : list Step) (s : State)
  : list (option bool) :=
  map (fun st => loadingOf id (outputs st)) (states w trace s).

(** The step does not delete the output [id]. *)
Definition keeps (id : jsstring) (e : Step) : Prop :=
  match e with
  | Handled (DeleteOutput id') => id' <> id
  | Handled DeleteAllOutputs => False
  | _ => True
  end.

(** The step is an update of the output [id]. *)
Definition updates (id : jsstring) (e : Step) : Prop :=
  match e with
  | Updated id' _ _ => id' = id
  | _ => False
  end.

(** The output [id] is not loading and will not be created again. *)
Definition retired (id : jsstring) (s : State) : Prop :=
  loadingOf id (outputs s) <> Some true /\
  forall n, id = ofNumber n -> (n < nextOutputId s)%N.

(** The statement that every output is cleared exactly once by the
    updates of the generation that created it, and is not loading in
    the end, whatever the user does while the generation waits. *)
Definition everyOutputClearedExactlyOnce : Prop :=
  forall (w : World) (s : State) (showImage : bool) (meanwhile : list Action)
         (flow : list (option jsstring * jsstring)),
    reachable w s ->
    flow <> [] ->
    clearings
      (history w (newOutputId s)
         (Begun showImage
          :: map Handled meanwhile
          ++ map (fun u => Updated (newOutputId s) (fst u) (snd u)) flow)
         s)
    = 1 /\
    last (history w (newOutputId s)
            (Begun showImage
             :: map Handled meanwhile
             ++ map (fun u => Updated (newOutputId s) (fst u) (snd u)) flow)
            s)
         None
    = Some false.

(** The statement that a generation handler either fails fast or goes
    on to create an output and submit a request. *)
Definition failsFast (handler : State -> State) (s : State) : Prop :=
  outputs (handler s) = outputs s /\
  filter isSubmit (since s (handler s)) = [] /\
  filter isAlert (since s (handler s)) <> [].

Definition createsAndSubmits (handler : State -> State) (s : State) : Prop :=
  (exists o, outputs (handler s) = o :: outputs s) /\
  filter isSubmit (since s (handler s)) <> [].

Definition validationDecidesSubmission : Prop :=
  forall (w : World) (s : State),
    (credential s = [] \/ (systemText s = [] /\ messages s = []) ->
     failsFast (handleGenerateImage w) s /\
     failsFast (handleGenerateText w) s) /\
    (canGenerate s ->
     createsAndSubmits (handleGenerateImage w) s /\
     createsAndSubmits (handleGenerateText w) s).

(** The statement that a template load which fails on its second entry
    leaves the message list empty. *)
Definition failedLoadLeavesListEmpty : Prop :=
  forall (w : World) templateName template first second rest url e s,
    asyncTemplates w templateName = Some template ->
    filter (fun m => negb (isSystem m)) (tmpl_messages template)
      = first :: second :: rest ->
    tm_image second = Some url ->
    fetchBlob w url = Throw e ->
    messages (loadTemplate w templateName s) = [] /\
    In (Alert (lit "Failed to load template."))
       (since s (loadTemplate w templateName s)).

(* ------------------------------------------------------------------ *)
(** ** Sample inputs *)

Module Sample.

Definition pngUrl : jsstring := lit "data:image/png;base64,QUJD".
Definition brokenUrl : jsstring := lit "data:image/png;base64,%".
Definition png : Blob := mkBlob [65; 66; 67]%N (lit "image/png").
Definition picture : Image := mkImage png (lit "image/png") pngUrl.

Definition template : Template :=
  mkTemplate [ mkTemplateMessage system (lit "Be brief.") None;
               mkTemplateMessage user (lit "first") None;
               mkTemplateMessage user (lit "second") (Some brokenUrl) ].

Definition textChunk (t : string) : Chunk := mkChunk [] (Some (lit t)).

Definition imageChunk : Chunk :=
  mkChunk [ mkResponsePart None (Some (lit "Done."));
            mkResponsePart (Some (Some (lit "image/png"), Some (lit "QUJD")))
                           None ]
          None.

(** Blobs read well, [brokenUrl] cannot be fetched, the text model
    streams "He" then "llo" and the image model one image. *)
Definition world : World :=
  mkWorld
    (fun _ => Ok pngUrl)
    (fun url => if eqb url brokenUrl
                then Throw (Some (lit "Failed to fetch"))
                else Ok png)
    (fun name => if eqb name (lit "sample") then Some template else None)
    (fun request =>
       if eqb (req_model request) TEXT_MODEL
       then mkStream [textChunk "He"; textChunk "llo"] None
       else mkStream [imageChunk] None).

Definition item (id text : string) : MessageItem :=
  mkMessage (lit id) (lit text) None.

Definition A := item "A" "a".
Definition B := item "B" "b".
Definition C := item "C" "c".
Definition D := item "D" "d".

(** A session with a key and a system instruction typed in. *)
Definition ready : State := initial (lit "key") (lit "Be brief.").

(** The same with one item, text "hi" and an image. *)
Definition withPicture : State :=
  set_messages [mkMessage (lit "1") (lit "hi") (Some picture)]
               (set_nextId 2 ready).

End Sample.

(* ------------------------------------------------------------------ *)
(** ** The rest of the program: persistence and input handlers *)

(** What [parseInt(s)] computes, [None] standing for NaN: white space at
    the start is skipped, then a sign, then "0x" or "0X" (which makes the
    radix 16), then the longest run of digits of the radix. *)
Definition digitOf (radix c : N) : option N :=
  match (if (48 <=? c) && (c <=? 57) then Some (c - 48)
         else if (97 <=? c) && (c <=? 122) then Some (c - 87)
         else if (65 <=? c) && (c <=? 90) then Some (c - 55)
         else None)%N with
  | Some d => if (d <? radix)%N then Some d else None
  | None => None
  end.

Fixpoint leadingDigits (radix : N) (s : jsstring) : list N :=
  match s with
  | [] => []
  | c :: s' =>
      match digitOf radix c with
      | Some d => d :: leadingDigits radix s'
      | None => []
      end
  end.

Definition numberOf (radix : N) (ds : list N) : N :=
  fold_left (fun acc d => acc * radix + d)%N ds 0%N.

Definition parseInt (s : jsstring) : option Z :=
  let s := trimStart s in
  let (negative, s) :=
    match s with
    | 45%N :: r => (true, r)
    | 43%N :: r => (false, r)
    | _ => (false, s)
    end in
  let (radix, s) :=
    match s with
    | 48%N :: 120%N :: r => (16%N, r)
    | 48%N :: 88%N :: r => (16%N, r)
    | _ => (10%N, s)
    end in
  match leadingDigits radix s with
  | [] => None
  | ds => Some (if negative then (- Z.of_N (numberOf radix ds))%Z
                else Z.of_N (numberOf radix ds))
  end.

(** [Math.max(...values, 0)]: NaN as soon as one value is. *)
Definition maxWithZero (values : list (option Z)) : option Z :=
  fold_right (fun v acc => match v, acc with
                           | Some x, Some m => Some (Z.max x m)
                           | _, _ => None
                           end)
             (Some 0%Z) values.

(** [Math.max(...ids.map(parseInt), 0) + 1], the counter [loadState]
    computes from the ids it restored. The numbers are doubles: while
    the largest id is below 2^53 they are exact and the sum is the
    natural it is here; from 2^53 on the sum is rounded (2^53 + 1 is
    2^53 again), and the digits of longer ids are not even read
    exactly, so that the model holds no counter for it. *)
Inductive Counter :=
| Exact (n : N)
| NotANumber
| Rounded.

Definition counterAfter (l : list jsstring) : Counter :=
  match maxWithZero (map parseInt l) with
  | Some m =>
      if (m <? Z.of_N TWO_53)%Z then Exact (Z.to_N (m + 1)) else Rounded
  | None => NotANumber
  end.

(** [s.indexOf(sub) !== -1] *)
Fixpoint includes (s sub : jsstring) : bool :=
  startsWith s sub ||
  match s with
  | [] => false
  | _ :: s' => includes s' sub
  end.

(** What the four [get] calls of [loadState] do: each resolves to the
    stored value, to [undefined] when the key was never set, or is
    rejected. *)
Record Store := mkStore {
  get_apiKey : Result (option jsstring);
  get_systemMessage : Result (option jsstring);
  get_messages : Result (option (list StoredMessage));
  get_outputs : Result (option (list OutputItem))
}.

Definition emptyStore : Store := mkStore (Ok None) (Ok None) (Ok None) (Ok None).

(** The store after one more effect of the log: a [set] replaces the
    value of its key. *)
Definition write (st : Store) (e : Effect) : Store :=
  match e with
  | SaveApiKey key =>
      mkStore (Ok (Some key)) (get_systemMessage st) (get_messages st)
              (get_outputs st)
  | SaveSystemMessage message =>
      mkStore (get_apiKey st) (Ok (Some message)) (get_messages st)
              (get_outputs st)
  | SaveMessages stored =>
      mkStore (get_apiKey st) (get_systemMessage st) (Ok (Some stored))
              (get_outputs st)
  | SaveOutputs stored =>
      mkStore (get_apiKey st) (get_systemMessage st) (get_messages st)
              (Ok (Some stored))
  | _ => st
  end.

(** The store a session leaves behind, when it started on [st]. *)
Definition storeAfter (st : Store) (s : State) : Store :=
  fold_left write (effects s) st.

(** An item of [clipboardData.items]. *)
Record ClipboardItem := mkClipboardItem {
  item_type : jsstring;
  getAsFile : option Blob
}.

(** Where [loadState] stands: it goes on, it has caught an exception, or
    it has set a counter that no [State] holds: NaN, or a sum that was
    rounded. *)
Inductive Restoring :=
| Going (s : State)
| Caught (s : State)
| CounterNaN
| CounterRounded.

Definition andThen (r : Restoring) (k : State -> Restoring) : Restoring :=
  match r with
  | Going s => k s
  | Caught s => Caught s
  | CounterNaN => CounterNaN
  | CounterRounded => CounterRounded
  end.

Section Restore.

Variable w : World.

(** The callback [loadState] maps over the stored messages. *)
Definition restoreMessage (msg : StoredMessage) : Result MessageItem :=
  match st_image msg with
  | Some (blob, mimeType) =>
      match blobToDataUrl w blob with
      | Ok dataUrl =>
          Ok (mkMessage (st_id msg) (st_text msg)
                        (Some (mkImage blob mimeType dataUrl)))
      | Throw e => Throw e
      end
  | None => Ok (mkMessage (st_id msg) (st_text msg) None)
  end.

(** [Promise.all] over the mapped messages: every message restored, or a
    rejection. (Which rejection comes first does not matter: [loadState]
    only logs it.) *)
Fixpoint restoreAll (l : list StoredMessage) : Result (list MessageItem) :=
  match l with
  | [] => Ok []
  | msg :: l' =>
      match restoreMessage msg with
      | Ok m =>
          match restoreAll l' with
          | Ok ms => Ok (m :: ms)
          | Throw e => Throw e
          end
      | Throw e => Throw e
      end
  end.

Definition loadApiKey (store : Store) (s : State) : Restoring :=
  match get_apiKey store with
  | Ok (Some apiKey) =>
      Going (if truthy apiKey then set_apiKeyInput apiKey s else s)
  | Ok None => Going s
  | Throw _ => Caught s
  end.

Definition loadSystemMessage (store : Store) (s : State) : Restoring :=
  match get_systemMessage store with
  | Ok (Some systemMsg) =>
      Going (if truthy systemMsg
             then set_systemMessage (normalizeNewlines systemMsg) s
             else s)
  | Ok None => Going s
  | Throw _ => Caught s
  end.

Definition loadMessages (store : Store) (s : State) : Restoring :=
  match get_messages store with
  | Ok (Some messages) =>
      match restoreAll messages with
      | Ok restored =>
          match counterAfter (map msg_id restored) with
          | Exact n => Going (set_nextId n (set_messages restored s))
          | NotANumber => CounterNaN
          | Rounded => CounterRounded
          end
      | Throw _ => Caught s
      end
  | Ok None => Going s
  | Throw _ => Caught s
  end.

Definition loadOutputs (store : Store) (s : State) : Restoring :=
  match get_outputs store with
  | Ok (Some outputs) =>
      let kept := filter (fun output => negb (out_loading output)) outputs in
      match counterAfter (map out_id kept) with
      | Exact n => Going (set_nextOutputId n (set_outputs kept s))
      | NotANumber => CounterNaN
      | Rounded => CounterRounded
      end
  | Ok None => Going s
  | Throw _ => Caught s
  end.

(** [loadState], from the state the constructor set up. [None] when a
    counter comes out as NaN or rounded. *)
Definition loadState (store : Store) (s : State) : option State :=
  match andThen (andThen (andThen (loadApiKey store s)
                                  (loadSystemMessage store))
                         (loadMessages store))
                (loadOutputs store) with
  | Going s' => Some s'
  | Caught s' => Some s'
  | CounterNaN => None
  | CounterRounded => None
  end.

(** The constructor: [loadState], then the first rendering. *)
Definition start (store : Store) (apiKey systemMsg : jsstring) : option State :=
  match loadState store (initial apiKey systemMsg) with
  | Some s => Some (renderOutputs (renderMessages s))
  | None => None
  end.

(** The loop of the paste listener of an item's text area: the first
    clipboard item whose type contains "image" is the one handled. *)
Fixpoint handlePaste (id : jsstring) (items : list ClipboardItem) : M unit :=
  match items with
  | [] => ret tt
  | item :: items' =>
      if includes (item_type item) (lit "image")
      then match getAsFile item with
           | Some file => updateMessageImage w id file
           | None => ret tt
           end (* break *)
      else handlePaste id items'
  end.

(** Whether the listener calls [e.preventDefault()]. *)
Fixpoint pastePrevented (items : list ClipboardItem) : bool :=
  match items with
  | [] => false
  | item :: items' =>
      if includes (item_type item) (lit "image") then true
      else pastePrevented items'
  end.

(** The change listener of an upload input: [files[0]]. *)
Definition handleUpload (id : jsstring) (files : list Blob) : M unit :=
  match files with
  | file :: _ => updateMessageImage w id file
  | [] => ret tt
  end.

(** The change listener of the template select. *)
Definition handleTemplateChange (value : jsstring) (s : State) : State :=
  if truthy value then loadTemplate w value s else s.

End Restore.

(** Every output of the list is done loading. *)
Definition settled (l : list OutputItem) : Prop :=
  Forall (fun o => out_loading o = false) l.

(** Nothing that is saved under "outputs" is loading. *)
Definition savesSettledOutputs (e : Effect) : Prop :=
  match e with
  | SaveOutputs stored => settled stored
  | _ => True
  end.

(** The numbers go down, from below [bound]. *)
Fixpoint decreasing (bound : N) (ns : list N) : Prop :=
  match ns with
  | [] => True
  | n :: ns' => (n < bound)%N /\ decreasing n ns'
  end.

(** The outputs stand newest first: their ids are numbers the counter
    issued, each smaller than the one before it. *)
Definition newestFirst (s : State) : Prop :=
  exists ns, map out_id (outputs s) = map ofNumber ns /\
             decreasing (nextOutputId s) ns.

(** The items a template load makes of entries that can all be
    decoded, when the counter stands at [next]. *)
Definition decodedImage (w : World) (msg : TemplateMessage) : option Image :=
  match fetchImage w msg with
  | Ok image => image
  | Throw _ => None
  end.

Fixpoint loadedItems (w : World) (next : N) (l : list TemplateMessage)
  : list MessageItem :=
  match l with
  | [] => []
  | msg :: l' =>
      mkMessage (ofNumber next) (tm_text msg) (decodedImage w msg)
      :: loadedItems w (next + 1) l'
  end.

(** [Math.max(...ns, 0)] *)
Definition largest (ns : list N) : N := fold_right N.max 0%N ns.

(** What is saved can be restored: the ids saved under "messages" are
    distinct numbers below 2^53, and what is saved under "outputs" is
    done loading and stands newest first, with ids below 2^53. *)
Definition restorable (e : Effect) : Prop :=
  match e with
  | SaveMessages stored =>
      NoDup (map st_id stored) /\
      forall id, In id (map st_id stored) ->
                 exists n, id = ofNumber n /\ (n < TWO_53)%N
  | SaveOutputs stored =>
      settled stored /\
      exists ns bound, map out_id stored = map ofNumber ns /\
                       decreasing bound ns /\ (bound <= TWO_53)%N
  | _ => True
  end.

(** The same of a store. *)
Definition restorableStore (st : Store) : Prop :=
  (exists apiKey, get_apiKey st = Ok apiKey) /\
  (exists systemMsg, get_systemMessage st = Ok systemMsg) /\
  (get_messages st = Ok None \/
   exists stored, get_messages st = Ok (Some stored) /\
                  restorable (SaveMessages stored)) /\
  (get_outputs st = Ok None \/
   exists stored, get_outputs st = Ok (Some stored) /\
                  restorable (SaveOutputs stored)).

(** A session that goes on from [s]: one handler after the other. *)
Definition session (w : World) (actions : list Action) (s : State) : State :=
  fold_left (fun st a => perform w a st) actions s.

(** The counters stay within 2^53 all along the session. *)
Fixpoint staysExact (w : World) (actions : list Action) (s : State) : Prop :=
  exactCounters s /\
  match actions with
  | [] => True
  | a :: actions' => staysExact w actions' (perform w a s)
  end.

(** The image of an item is what reading its blob gives. *)
Definition imageInSync (w : World) (msg : MessageItem) : Prop :=
  match msg_image msg with
  | Some img => readAsDataURL w (blob img) = Ok (dataUrl img)
  | None => True
  end.

(** More sample inputs. *)
Module Sample2.

Definition E : MessageItem := mkMessage (lit "5") (lit "   ") None.

Definition jpg : Blob := mkBlob [1; 2; 3]%N (lit "image/jpeg").
Definition notes : Blob := mkBlob [104; 105]%N (lit "text/plain").

(** A world in which no blob can be read and the streams fail after
    one chunk. *)
Definition broken : World :=
  mkWorld
    (fun _ => Throw None)
    (fun _ => Throw (Some (lit "Failed to fetch")))
    (fun _ => None)
    (fun _ => mkStream [Sample.textChunk "He"] (Some (Some (lit "quota")))).

(** A template whose entries can all be decoded. *)
Definition template : Template :=
  mkTemplate [ mkTemplateMessage user (lit "first") None;
               mkTemplateMessage system (lit "Be brief.") None;
               mkTemplateMessage model (lit "second") (Some Sample.pngUrl);
               mkTemplateMessage system (lit "Be long.") None ].

Definition world : World :=
  mkWorld
    (fun _ => Ok Sample.pngUrl)
    (fun _ => Ok Sample.png)
    (fun name => if eqb name (lit "good") then Some template else None)
    (fun _ => mkStream [] None).

(** What an earlier session left in the store: two items, the ids "1"
    and "3", the first with an image, and one output. *)
Definition store : Store :=
  mkStore (Ok (Some (lit "key"))) (Ok (Some []))
          (Ok (Some [mkStored (lit "1") (lit "hi")
                              (Some (Sample.png, lit "image/png"));
                     mkStored (lit "3") [] None]))
          (Ok (Some [mkOutput (lit "2") None (lit "Hello") false])).

End Sample2.

(* ------------------------------------------------------------------ *)
(** ** Strings *)

Lemma dropWhile_idem p s : dropWhile p (dropWhile p s) = dropWhile p s.
Proof.
  induction s as [|c s IH]; simpl; [reflexivity|].
  destruct (p c) eqn:E; [exact IH|]. simpl. rewrite E. reflexivity.
Qed.

Lemma dropWhile_app_keep p s c t :
  p c = false -> dropWhile p (s ++ c :: t) = dropWhile p s ++ c :: t.
Proof.
  intros Hc. induction s as [|d s IH]; simpl.
  - rewrite Hc. reflexivity.
  - destruct (p d); [exact IH | reflexivity].
Qed.

Lemma trimEnd_idem s : trimEnd (trimEnd s) = trimEnd s.
Proof.
  unfold trimEnd. rewrite rev_involutive, dropWhile_idem. reflexivity.
Qed.

(** Trimming the end keeps a first unit that is not white space. *)
Lemma trimEnd_cons c s :
  isWhiteSpace c = false -> exists s', trimEnd (c :: s) = c :: s'.
Proof.
  intros Hc. unfold trimEnd. simpl rev.
  rewrite dropWhile_app_keep by exact Hc.
  rewrite rev_app_distr. simpl. eauto.
Qed.

Lemma trimStart_head s :
  trimStart s = [] \/ exists c s', trimStart s = c :: s' /\ isWhiteSpace c = false.
Proof.
  unfold trimStart. induction s as [|c s IH]; simpl; [now left|].
  destruct (isWhiteSpace c) eqn:E; [exact IH|]. right. eauto.
Qed.

Lemma trim_idem s : trim (trim s) = trim s.
Proof.
  unfold trim at 2 3.
  destruct (trimStart_head s) as [E | (c & s' & E & Hc)]; rewrite E.
  - reflexivity.
  - destruct (@trimEnd_cons c s' Hc) as [t Ht].
    unfold trim. rewrite Ht. unfold trimStart at 1. simpl. rewrite Hc.
    rewrite <- Ht. apply trimEnd_idem.
Qed.

Lemma digits_inj d d' : digits d = digits d' -> d = d'.
Proof.
  revert d'. induction d; destruct d'; simpl; intros H;
    try discriminate; try reflexivity;
    injection H as H; f_equal; auto.
Qed.

Lemma ofNumber_inj n m : ofNumber n = ofNumber m -> n = m.
Proof.
  intros H. apply Unsigned.to_uint_inj, digits_inj, H.
Qed.

Lemma eqb_eq a b : eqb a b = true <-> a = b.
Proof. unfold eqb. destruct (eq_dec a b); split; congruence. Qed.

Lemma eqb_neq a b : eqb a b = false <-> a <> b.
Proof. unfold eqb. destruct (eq_dec a b); split; congruence. Qed.

Lemma eqb_refl a : eqb a a = true.
Proof. apply eqb_eq. reflexivity. Qed.

Lemma dropWhile_In p s c : In c (dropWhile p s) -> In c s.
Proof.
  induction s as [|d s IH]; simpl; [auto|].
  destruct (p d); [right; auto | auto].
Qed.

Lemma trim_In s c : In c (trim s) -> In c s.
Proof.
  unfold trim, trimEnd, trimStart. intros H.
  apply in_rev, dropWhile_In, in_rev, dropWhile_In in H. exact H.
Qed.

(** A string without CR is the same after the line breaks are
    normalized. *)
Lemma normalizeNewlines_without_CR s :
  ~ In 13%N s -> normalizeNewlines s = s.
Proof.
  induction s as [|c s IH]; intros Hcr; [reflexivity|].
  assert (c <> 13%N) as Hc by (intros ->; apply Hcr; left; reflexivity).
  assert (normalizeNewlines s = s) as Hs
      by (apply IH; intros Hin; apply Hcr; right; exact Hin).
  assert (normalizeNewlines (c :: s) = c :: normalizeNewlines s) as ->.
  { destruct c as [|p]; [reflexivity|].
    do 4 (destruct p as [p|p|]; try reflexivity). congruence. }
  rewrite Hs. reflexivity.
Qed.

(* ------------------------------------------------------------------ *)
(** ** Arrays *)

Section ArrayFacts.
Context {A : Type}.
Variable p : A -> bool.

Lemma findIndex_app (a b : list A) :
  findIndex p (a ++ b) =
  match findIndex p a with
  | Some i => Some i
  | None => option_map (Nat.add (List.length a)) (findIndex p b)
  end.
Proof.
  induction a as [|x a IH]; simpl.
  - destruct (findIndex p b); reflexivity.
  - destruct (p x); [reflexivity|]. rewrite IH.
    destruct (findIndex p a); [reflexivity|].
    destruct (findIndex p b); reflexivity.
Qed.

(** What a found index says: the list splits there, nothing before
    satisfies [p], the element there does. *)
Lemma findIndex_Some (l : list A) (i : nat) :
  findIndex p l = Some i ->
  exists front x back,
    l = front ++ x :: back /\ List.length front = i /\
    p x = true /\ findIndex p front = None.
Proof.
  revert i. induction l as [|y l IH]; simpl; intros i H; [discriminate|].
  destruct (p y) eqn:E.
  - injection H as <-. exists [], y, l. auto.
  - destruct (findIndex p l) as [k|]; [|discriminate].
    injection H as <-.
    destruct (IH k eq_refl) as (front & x & back & -> & <- & Hx & Hn).
    exists (y :: front), x, back. simpl. rewrite E, Hn. auto.
Qed.

Lemma findIndex_None (l : list A) :
  findIndex p l = None <-> forall x, In x l -> p x = false.
Proof.
  induction l as [|y l IH]; simpl.
  - split; [intros _ x [] | reflexivity].
  - destruct (p y) eqn:E.
    + split; [discriminate|]. intros H. rewrite (H y) in E by auto.
      discriminate.
    + destruct (findIndex p l).
      * split; [discriminate|]. intros H.
        assert (Some n = None) as F by (apply IH; intros; apply H; auto).
        discriminate.
      * split; [|reflexivity]. intros _ x [<- | Hx]; [exact E|].
        apply IH; [reflexivity | exact Hx].
Qed.

Lemma findIndex_found (l : list A) (x : A) :
  In x l -> p x = true -> exists i, findIndex p l = Some i.
Proof.
  intros Hin Hp. destruct (findIndex p l) as [i|] eqn:E; [eauto|].
  rewrite (proj1 (findIndex_None l) E x Hin) in Hp. discriminate.
Qed.

Lemma find_None (l : list A) :
  find p l = None <-> forall x, In x l -> p x = false.
Proof.
  split.
  - intros H x Hx. exact (find_none p l H x Hx).
  - induction l as [|y l IH]; simpl; intros H; [reflexivity|].
    rewrite (H y) by auto. apply IH. intros; apply H; auto.
Qed.

Lemma spliceOut_at (front back : list A) (x : A) :
  spliceOut (List.length front) (front ++ x :: back) = ([x], front ++ back).
Proof.
  unfold spliceOut. induction front as [|y front IH]; simpl; [reflexivity|].
  injection IH as IH1 IH2. rewrite IH1, IH2. reflexivity.
Qed.

Lemma spliceIn_at (front back : list A) (x : A) :
  spliceIn (List.length front) x (front ++ back) = front ++ x :: back.
Proof.
  unfold spliceIn. induction front as [|y front IH]; simpl.
  - destruct back; reflexivity.
  - rewrite IH. reflexivity.
Qed.

Lemma mutateFound_absent (f : A -> A) (l : list A) :
  find p l = None -> mutateFound p f l = l.
Proof.
  induction l as [|y l IH]; simpl; [reflexivity|].
  destruct (p y); [discriminate|]. intros H. rewrite IH by exact H.
  reflexivity.
Qed.
End ArrayFacts.

(* ------------------------------------------------------------------ *)
(** ** Message list and output list *)

Lemma hasId_true id msg : hasId id msg = true <-> msg_id msg = id.
Proof. apply eqb_eq. Qed.

Lemma hasOutputId_true id o : hasOutputId id o = true <-> out_id o = id.
Proof. apply eqb_eq. Qed.

Lemma find_hasId_absent id (l : list MessageItem) :
  ~ In id (map msg_id l) -> find (hasId id) l = None.
Proof.
  intros H. apply find_None. intros x Hx.
  destruct (hasId id x) eqn:E; [|reflexivity].
  exfalso. apply H. apply hasId_true in E. subst id. apply in_map, Hx.
Qed.

Lemma find_hasOutputId_absent id (l : list OutputItem) :
  ~ In id (map out_id l) -> find (hasOutputId id) l = None.
Proof.
  intros H. apply find_None. intros x Hx.
  destruct (hasOutputId id x) eqn:E; [|reflexivity].
  exfalso. apply H. apply hasOutputId_true in E. subst id. apply in_map, Hx.
Qed.

Lemma deleteOutput_absent id s :
  ~ In id (map out_id (outputs (deleteOutput id s))).
Proof.
  unfold deleteOutput. simpl. rewrite in_map_iff.
  intros (o & Ho & Hin). apply filter_In in Hin as [_ Hf].
  apply negb_true_iff in Hf. apply hasOutputId_true in Ho. congruence.
Qed.

(** C10. An update addressed to an id that no element carries changes
    nothing: [updateOutput] on an id absent from the output list,
    [updateMessageText] and [updateMessageImage] on an id absent from the
    message list return the state they were given, log included; so an
    update that arrives for an output the user deleted leaves every
    other entry as it was. *)
Theorem update_of_absent_id_is_noop (w : World) (s : State) (id : jsstring) :
  (~ In id (map out_id (outputs s)) ->
   forall imageUrl text, updateOutput id imageUrl text s = s) /\
  (~ In id (ids s) ->
   (forall text, updateMessageText id text s = s) /\
   (forall file, updateMessageImage w id file s = (s, Ok tt))) /\
  (forall imageUrl text,
     updateOutput id imageUrl text (deleteOutput id s) = deleteOutput id s).
Proof.
  assert (forall st, ~ In id (map out_id (outputs st)) ->
                     forall imageUrl text, updateOutput id imageUrl text st = st)
    as Hout.
  { intros st H imageUrl text. unfold updateOutput.
    rewrite (find_hasOutputId_absent _ _ H). reflexivity. }
  split; [apply Hout | split].
  - intros H. pose proof (find_hasId_absent _ _ H) as Hfind. split.
    + intros text. unfold updateMessageText. rewrite Hfind. reflexivity.
    + intros file. unfold updateMessageImage.
      destruct (negb (startsWith (blob_type file) (lit "image/")));
        [reflexivity|].
      unfold bind, get. rewrite Hfind. reflexivity.
  - intros imageUrl text. apply Hout, deleteOutput_absent.
Qed.

Lemma update_of_absent_id_is_noop_witness :
  (~ In (lit "7") (map out_id (outputs (addItem Sample.ready))) /\
   updateOutput (lit "7") None (lit "late") (addItem Sample.ready)
   = addItem Sample.ready) /\
  (~ In (lit "7") (ids (addItem Sample.ready)) /\
   updateMessageText (lit "7") (lit "late") (addItem Sample.ready)
   = addItem Sample.ready /\
   updateMessageImage Sample.world (lit "7") Sample.png (addItem Sample.ready)
   = (addItem Sample.ready, Ok tt)).
Proof.
  destruct (update_of_absent_id_is_noop
              Sample.world (addItem Sample.ready) (lit "7")) as (H1 & H2 & _).
  assert (~ In (lit "7") (map out_id (outputs (addItem Sample.ready)))) as A1
    by (simpl; tauto).
  assert (~ In (lit "7") (ids (addItem Sample.ready))) as A2.
  { simpl. intros [E | []]. discriminate E. }
  split.
  - split; [exact A1 | apply (H1 A1)].
  - split; [exact A2 |]. destruct (H2 A2) as [T I]. split; [apply T | apply I].
Defined.

(* ------------------------------------------------------------------ *)
(** ** Reordering *)

Lemma findIndex_hasId_present id (l : list MessageItem) :
  In id (map msg_id l) -> exists i, findIndex (hasId id) l = Some i.
Proof.
  rewrite in_map_iff. intros (x & Hx & Hin).
  apply (findIndex_found (hasId id) l x Hin). apply hasId_true, Hx.
Qed.

(** Where the target stands once the dragged item is out of the list:
    one slot earlier when the dragged item stood before it. *)
Lemma findIndex_after_removal (p : MessageItem -> bool) front item back j :
  p item = false ->
  findIndex p (front ++ item :: back) = Some j ->
  findIndex p (front ++ back)
  = Some (if List.length front <? j then j - 1 else j).
Proof.
  intros Hitem. rewrite !findIndex_app. simpl. rewrite Hitem.
  destruct (findIndex p front) as [k|] eqn:Ek.
  - intros [= <-].
    destruct (findIndex_Some p front Ek) as (a & x & b & -> & <- & _).
    rewrite length_app. simpl.
    destruct (Nat.ltb_spec (List.length a + S (List.length b)) (List.length a));
      [lia | reflexivity].
  - destruct (findIndex p back) as [k|]; simpl; [|discriminate].
    intros [= <-].
    destruct (Nat.ltb_spec (List.length front) (List.length front + S k));
      [|lia].
    f_equal. lia.
Qed.

Lemma findIndex_isDragged d (l : list MessageItem) :
  findIndex (fun msg => isDragged (Some d) (msg_id msg)) l
  = findIndex (hasId d) l.
Proof.
  induction l as [|x l IH]; cbn [findIndex]; [reflexivity|].
  rewrite IH. unfold hasId, isDragged, eqb.
  destruct (eq_dec d (msg_id x)), (eq_dec (msg_id x) d); congruence.
Qed.

(** What [handleDrop] does when it finds both items. *)
Lemma handleDrop_found isTop target s d i j item rest remaining :
  draggedId s = Some d ->
  d <> target ->
  findIndex (hasId d) (messages s) = Some i ->
  findIndex (hasId target) (messages s) = Some j ->
  spliceOut i (messages s) = (item :: rest, remaining) ->
  handleDrop isTop target s
  = saveMessages
      (renderMessages
         (set_messages
            (spliceIn (if i <? j
                       then (if isTop then j - 1 else j)
                       else (if isTop then j else j + 1))
                      item remaining) s)).
Proof.
  intros Hd Hneq Hi Hj Hout. unfold handleDrop.
  rewrite Hd, findIndex_isDragged, Hi, Hj, Hout.
  unfold isDragged. apply eqb_neq in Hneq. rewrite Hneq. reflexivity.
Qed.

(** C2. [reorder] takes the dragged item out of the list and puts it
    back next to the target. Once the dragged item is out, the target
    stands at its old index, or one slot earlier when the dragged item
    stood before it; the item goes to that slot when it is inserted
    before the target and to the next one when it is inserted after.
    On [A; B; C; D], dragging A after C gives [B; C; A; D] and dragging
    D before B gives [A; D; B; C]. *)
Theorem reorder_next_to_target :
  (forall s dragged target insertBefore,
      dragged <> target ->
      In dragged (ids s) ->
      In target (ids s) ->
      exists i j item front targetItem back,
        findIndex (hasId dragged) (messages s) = Some i /\
        findIndex (hasId target) (messages s) = Some j /\
        nth_error (messages s) i = Some item /\
        msg_id item = dragged /\
        firstn i (messages s) ++ skipn (S i) (messages s)
        = front ++ targetItem :: back /\
        msg_id targetItem = target /\
        findIndex (hasId target) front = None /\
        List.length front = (if i <? j then j - 1 else j) /\
        messages (reorder dragged target insertBefore s)
        = spliceIn (if insertBefore then List.length front
                    else S (List.length front))
                   item (front ++ targetItem :: back) /\
        messages (reorder dragged target insertBefore s)
        = (if insertBefore
           then front ++ item :: targetItem :: back
           else front ++ targetItem :: item :: back)) /\
  (forall s,
      messages s = [Sample.A; Sample.B; Sample.C; Sample.D] ->
      messages (reorder (lit "A") (lit "C") false s)
      = [Sample.B; Sample.C; Sample.A; Sample.D] /\
      messages (reorder (lit "D") (lit "B") true s)
      = [Sample.A; Sample.D; Sample.B; Sample.C]).
Proof.
  split.
  - intros s dragged target insertBefore Hneq Hd Ht.
    destruct (findIndex_hasId_present _ _ Hd) as [i Hi].
    destruct (findIndex_hasId_present _ _ Ht) as [j Hj].
    destruct (findIndex_Some _ _ Hi) as (l1 & item & l2 & Hl & Hlen & Hitem & _).
    assert (hasId target item = false) as Hnot.
    { apply hasId_true in Hitem. apply eqb_neq. congruence. }
    pose proof Hj as Hj'. rewrite Hl in Hj'.
    apply findIndex_after_removal in Hj'; [|exact Hnot].
    rewrite Hlen in Hj'.
    destruct (findIndex_Some _ _ Hj')
      as (front & targetItem & back & Hrem & Hfront & Htarget & Hnone).
    assert (spliceOut i (messages s) = ([item], front ++ targetItem :: back))
      as Hout.
    { rewrite Hl, <- Hlen, spliceOut_at, Hrem. reflexivity. }
    assert (messages (reorder dragged target insertBefore s)
            = spliceIn (if insertBefore then List.length front
                        else S (List.length front))
                       item (front ++ targetItem :: back)) as Hres.
    { unfold reorder.
      rewrite (@handleDrop_found insertBefore target (handleDragStart dragged s)
                 dragged i j item [] (front ++ targetItem :: back)
                 eq_refl Hneq Hi Hj Hout).
      simpl. f_equal. rewrite Hfront.
      destruct (i <? j) eqn:Elt; destruct insertBefore; try reflexivity.
      + apply Nat.ltb_lt in Elt. lia.
      + lia. }
    exists i, j, item, front, targetItem, back.
    repeat split; try assumption.
    + rewrite Hl, <- Hlen. clear. induction l1; simpl; auto.
    + apply hasId_true, Hitem.
    + change (snd (spliceOut i (messages s)) = front ++ targetItem :: back).
      rewrite Hout. reflexivity.
    + apply hasId_true, Htarget.
    + rewrite Hres. destruct insertBefore.
      * apply spliceIn_at.
      * replace (S (List.length front))
          with (List.length (front ++ [targetItem]))
          by (rewrite length_app; simpl; lia).
        replace (front ++ targetItem :: back)
          with ((front ++ [targetItem]) ++ back)
          by (rewrite <- app_assoc; reflexivity).
        rewrite spliceIn_at, <- app_assoc. reflexivity.
  - intros s Hs. unfold reorder, handleDragEnd, handleDragStart, handleDrop.
    simpl. rewrite Hs. split; reflexivity.
Qed.

Lemma reorder_next_to_target_witness :
  lit "A" <> lit "C" /\
  In (lit "A") (ids (set_messages [Sample.A; Sample.B; Sample.C; Sample.D]
                                  Sample.ready)) /\
  In (lit "C") (ids (set_messages [Sample.A; Sample.B; Sample.C; Sample.D]
                                  Sample.ready)) /\
  exists i j item front targetItem back,
    findIndex (hasId (lit "A")) [Sample.A; Sample.B; Sample.C; Sample.D]
    = Some i /\
    findIndex (hasId (lit "C")) [Sample.A; Sample.B; Sample.C; Sample.D]
    = Some j /\
    nth_error [Sample.A; Sample.B; Sample.C; Sample.D] i = Some item /\
    msg_id item = lit "A" /\
    firstn i [Sample.A; Sample.B; Sample.C; Sample.D]
    ++ skipn (S i) [Sample.A; Sample.B; Sample.C; Sample.D]
    = front ++ targetItem :: back /\
    msg_id targetItem = lit "C" /\
    findIndex (hasId (lit "C")) front = None /\
    List.length front = (if i <? j then j - 1 else j) /\
    messages (reorder (lit "A") (lit "C") false
                (set_messages [Sample.A; Sample.B; Sample.C; Sample.D]
                              Sample.ready))
    = spliceIn (S (List.length front)) item (front ++ targetItem :: back) /\
    messages (reorder (lit "A") (lit "C") false
                (set_messages [Sample.A; Sample.B; Sample.C; Sample.D]
                              Sample.ready))
    = front ++ targetItem :: item :: back.
Proof.
  assert (lit "A" <> lit "C") as N by discriminate.
  assert (In (lit "A") (ids (set_messages
            [Sample.A; Sample.B; Sample.C; Sample.D] Sample.ready))) as IA
    by (simpl; auto).
  assert (In (lit "C") (ids (set_messages
            [Sample.A; Sample.B; Sample.C; Sample.D] Sample.ready))) as IC
    by (simpl; auto).
  split; [exact N | split; [exact IA | split; [exact IC |]]].
  exact (proj1 reorder_next_to_target _ _ _ false N IA IC).
Defined.

(* ------------------------------------------------------------------ *)
(** ** The effects log *)

Lemma since_app s s' l : effects s' = effects s ++ l -> since s s' = l.
Proof.
  intros H. unfold since. rewrite H, skipn_app, skipn_all, Nat.sub_diag.
  reflexivity.
Qed.

Lemma since_same s : since s s = [].
Proof. apply since_app. rewrite app_nil_r. reflexivity. Qed.

Lemma rendered_app l l' : rendered (l ++ l') = rendered l ++ rendered l'.
Proof.
  induction l as [|e l IH]; simpl; [reflexivity|].
  destruct e; simpl; rewrite IH; reflexivity.
Qed.

(** What one call of [updateOutput] does to an output that exists. *)
Lemma updateOutput_found id imageUrl text s o :
  find (hasOutputId id) (outputs s) = Some o ->
  updateOutput id imageUrl text s
  = saveOutputs
      (renderOutputs
         (set_outputs
            (mutateFound (hasOutputId id)
                         (fun o => mkOutput (out_id o) imageUrl text false)
                         (outputs s)) s)).
Proof. intros H. unfold updateOutput. rewrite H. reflexivity. Qed.

Lemma find_mutateFound id imageUrl text l o :
  find (hasOutputId id) l = Some o ->
  find (hasOutputId id)
       (mutateFound (hasOutputId id)
                    (fun o => mkOutput (out_id o) imageUrl text false) l)
  = Some (mkOutput (out_id o) imageUrl text false).
Proof.
  induction l as [|x l IH]; simpl; [discriminate|].
  destruct (hasOutputId id x) eqn:E.
  - intros [= <-]. simpl. unfold hasOutputId in *. simpl. rewrite E.
    reflexivity.
  - intros H. simpl. rewrite E. apply IH, H.
Qed.

(** After an update the output is there, with what the update wrote and
    [loading] cleared. *)
Lemma updateOutput_result id imageUrl text s o :
  find (hasOutputId id) (outputs s) = Some o ->
  find (hasOutputId id) (outputs (updateOutput id imageUrl text s))
  = Some (mkOutput (out_id o) imageUrl text false).
Proof.
  intros H. rewrite (updateOutput_found _ _ _ _ H). simpl.
  apply find_mutateFound, H.
Qed.

Lemma updateOutput_effects id imageUrl text s o :
  find (hasOutputId id) (outputs s) = Some o ->
  effects (updateOutput id imageUrl text s)
  = effects s
    ++ [ RenderOutputs (outputs (updateOutput id imageUrl text s));
         SaveOutputs (filter (fun output => negb (out_loading output))
                             (outputs (updateOutput id imageUrl text s))) ].
Proof.
  intros H. rewrite (updateOutput_found _ _ _ _ H). simpl.
  rewrite <- app_assoc. reflexivity.
Qed.

Lemma updateOutput_frame id imageUrl text s :
  messages (updateOutput id imageUrl text s) = messages s /\
  nextId (updateOutput id imageUrl text s) = nextId s /\
  nextOutputId (updateOutput id imageUrl text s) = nextOutputId s.
Proof.
  unfold updateOutput. destruct (find _ _); simpl; auto.
Qed.

(* ------------------------------------------------------------------ *)
(** ** Content serializer *)

Lemma blobToBase64_Ok w b u :
  readAsDataURL w b = Ok u -> blobToBase64 w b = Ok (nth_error (split COMMA u) 1).
Proof. intros H. unfold blobToBase64. rewrite H. reflexivity. Qed.

(** The loop body reads the state and leaves it as it is. *)
Lemma pushMessageParts_state w separator acc msg s :
  fst (pushMessageParts w separator acc msg s) = s.
Proof.
  unfold pushMessageParts.
  destruct (msg_image msg) as [img|].
  - unfold bind, await, ret. destruct (blobToBase64 w (blob img)); reflexivity.
  - destruct (truthy (trim (msg_text msg))); reflexivity.
Qed.

Lemma forOf_pushMessageParts_state w separator l : forall acc s,
  fst (forOf (pushMessageParts w separator) acc l s) = s.
Proof.
  induction l as [|msg l IH]; intros acc s; simpl; [reflexivity|].
  unfold bind. pose proof (pushMessageParts_state w separator acc msg s) as H.
  destruct (pushMessageParts w separator acc msg s) as [s' [acc'|e]];
    simpl in H; subst s'; [apply IH | reflexivity].
Qed.

(** When the blob of the item can be read, the loop body appends the
    parts of the item. *)
Lemma pushMessageParts_readable w separator acc msg s :
  allReadable w [msg] = true ->
  pushMessageParts w separator acc msg s
  = (s, Ok (acc ++ partsOfItem w separator msg)).
Proof.
  unfold allReadable, pushMessageParts, partsOfItem, blobToBase64. simpl.
  destruct (msg_image msg) as [img|].
  - destruct (readAsDataURL w (blob img)) as [u|e]; [|discriminate].
    intros _. unfold bind, await, ret. rewrite <- app_assoc. reflexivity.
  - intros _. destruct (truthy (trim (msg_text msg))); simpl.
    + reflexivity.
    + rewrite app_nil_r. reflexivity.
Qed.

Lemma forOf_pushMessageParts_readable w separator l : forall acc s,
  allReadable w l = true ->
  forOf (pushMessageParts w separator) acc l s
  = (s, Ok (acc ++ flat_map (partsOfItem w separator) l)).
Proof.
  induction l as [|msg l IH]; intros acc s H; simpl.
  - rewrite app_nil_r. reflexivity.
  - unfold allReadable in H. simpl in H. apply andb_true_iff in H as [Hm Hl].
    unfold bind. rewrite pushMessageParts_readable.
    + rewrite IH by exact Hl. rewrite <- app_assoc. reflexivity.
    + unfold allReadable. simpl. rewrite Hm. reflexivity.
Qed.

(** When some blob cannot be read, the loop throws. *)
Lemma forOf_pushMessageParts_unreadable w separator l : forall acc s,
  allReadable w l = false ->
  exists e, forOf (pushMessageParts w separator) acc l s = (s, Throw e).
Proof.
  induction l as [|msg l IH]; intros acc s H; [discriminate|].
  unfold allReadable in H. simpl in H. simpl. unfold bind.
  destruct (allReadable w [msg]) eqn:Hm.
  - rewrite pushMessageParts_readable by exact Hm.
    apply IH. unfold allReadable in Hm. simpl in Hm.
    rewrite andb_true_r in Hm. rewrite Hm in H. exact H.
  - clear H IH. unfold allReadable in Hm. simpl in Hm.
    rewrite andb_true_r in Hm. unfold pushMessageParts, blobToBase64.
    destruct (msg_image msg) as [img|]; [|discriminate].
    destruct (readAsDataURL w (blob img)) as [u|e]; [discriminate|].
    exists e. reflexivity.
Qed.

Lemma allReadable_app w l l' :
  allReadable w (l ++ l') = allReadable w l && allReadable w l'.
Proof. apply forallb_app. Qed.

(** C1. An item with an image contributes two adjacent parts to the
    request of either mode: a text part that ends in the marker
    "See image:", then the inline data of the image. The text part is
    the trimmed text of the item, a separator and the marker, the
    separator being a line feed in image mode and one space in text
    mode; when the trimmed text is empty it is the marker alone. An item
    with text "hi" and an image gives "hi\nSee image:" in image mode and
    "hi See image:" in text mode, each followed by the inline data. *)
Theorem image_item_marker_then_data :
  (forall w s before item after img,
      messages s = before ++ item :: after ->
      msg_image item = Some img ->
      allReadable w (messages s) = true ->
      exists data beforeI afterI beforeT afterT,
        blobToBase64 w (blob img) = Ok data /\
        forOf (pushMessageParts w [LF]) [] before s = (s, Ok beforeI) /\
        forOf (pushMessageParts w [LF]) [] after s = (s, Ok afterI) /\
        forOf (pushMessageParts w [SPACE]) [] before s = (s, Ok beforeT) /\
        forOf (pushMessageParts w [SPACE]) [] after s = (s, Ok afterT) /\
        (forall systemMsg,
            buildImageParts w systemMsg s
            = (s, Ok ((if truthy systemMsg then [TextPart (trim systemMsg)]
                       else [])
                      ++ beforeI
                      ++ [ TextPart
                             (if truthy (trim (msg_text item))
                              then trim (msg_text item) ++ [LF]
                                   ++ lit "See image:"
                              else lit "See image:");
                           InlineDataPart data (mimeType img) ]
                      ++ afterI))) /\
        buildTextParts w s
        = (s, Ok (beforeT
                  ++ [ TextPart
                         (if truthy (trim (msg_text item))
                          then trim (msg_text item) ++ [SPACE]
                               ++ lit "See image:"
                          else lit "See image:");
                       InlineDataPart data (mimeType img) ]
                  ++ afterT))) /\
  (forall w s id img u,
      messages s = [mkMessage id (lit "hi") (Some img)] ->
      readAsDataURL w (blob img) = Ok u ->
      buildImageParts w [] s
      = (s, Ok [ TextPart (lit "hi" ++ [LF] ++ lit "See image:");
                 InlineDataPart (nth_error (split COMMA u) 1) (mimeType img) ])
      /\
      buildTextParts w s
      = (s, Ok [ TextPart (lit "hi See image:");
                 InlineDataPart (nth_error (split COMMA u) 1) (mimeType img) ])).
Proof.
  split.
  - intros w s before item after img Hs Himg Hread.
    rewrite Hs in Hread. pose proof Hread as Hall.
    rewrite allReadable_app in Hread.
    apply andb_true_iff in Hread as [Hb Hrest].
    change (item :: after) with ([item] ++ after) in Hrest.
    rewrite allReadable_app in Hrest.
    apply andb_true_iff in Hrest as [Hi Ha].
    assert (exists u, readAsDataURL w (blob img) = Ok u) as [u Hu].
    { unfold allReadable in Hi. simpl in Hi. rewrite Himg in Hi.
      destruct (readAsDataURL w (blob img)) as [u|]; [eauto | discriminate]. }
    pose proof (blobToBase64_Ok _ _ Hu) as Hdata.
    exists (nth_error (split COMMA u) 1),
      (flat_map (partsOfItem w [LF]) before),
      (flat_map (partsOfItem w [LF]) after),
      (flat_map (partsOfItem w [SPACE]) before),
      (flat_map (partsOfItem w [SPACE]) after).
    split; [exact Hdata|].
    rewrite !forOf_pushMessageParts_readable by assumption. simpl.
    repeat (split; [reflexivity|]).
    assert (forall separator,
               flat_map (partsOfItem w separator) (before ++ item :: after)
               = flat_map (partsOfItem w separator) before
                 ++ [ TextPart
                        (if truthy (trim (msg_text item))
                         then trim (msg_text item) ++ separator
                              ++ lit "See image:"
                         else lit "See image:");
                      InlineDataPart (nth_error (split COMMA u) 1)
                                     (mimeType img) ]
                 ++ flat_map (partsOfItem w separator) after) as Hflat.
    { intros separator. rewrite flat_map_app. simpl. f_equal.
      unfold partsOfItem at 1. rewrite Himg, Hdata. reflexivity. }
    split.
    + intros systemMsg. unfold buildImageParts, bind, get. rewrite Hs.
      rewrite forOf_pushMessageParts_readable by exact Hall.
      rewrite Hflat. reflexivity.
    + unfold buildTextParts, bind, get. rewrite Hs.
      rewrite forOf_pushMessageParts_readable by exact Hall.
      rewrite Hflat. reflexivity.
  - intros w s id img u Hs Hu.
    assert (allReadable w (messages s) = true) as Hall.
    { rewrite Hs. unfold allReadable. simpl. rewrite Hu. reflexivity. }
    unfold buildImageParts, buildTextParts, bind, get.
    rewrite !forOf_pushMessageParts_readable by exact Hall.
    rewrite Hs. unfold partsOfItem, blobToBase64. simpl. rewrite Hu.
    split; reflexivity.
Qed.

Lemma image_item_marker_then_data_witness :
  messages Sample.withPicture
  = [] ++ mkMessage (lit "1") (lit "hi") (Some Sample.picture) :: [] /\
  msg_image (mkMessage (lit "1") (lit "hi") (Some Sample.picture))
  = Some Sample.picture /\
  allReadable Sample.world (messages Sample.withPicture) = true /\
  readAsDataURL Sample.world (blob Sample.picture) = Ok Sample.pngUrl /\
  buildImageParts Sample.world [] Sample.withPicture
  = (Sample.withPicture,
     Ok [ TextPart (lit "hi" ++ [LF] ++ lit "See image:");
          InlineDataPart (Some (lit "QUJD")) (lit "image/png") ]) /\
  buildTextParts Sample.world Sample.withPicture
  = (Sample.withPicture,
     Ok [ TextPart (lit "hi See image:");
          InlineDataPart (Some (lit "QUJD")) (lit "image/png") ]) /\
  exists data beforeI afterI beforeT afterT,
    blobToBase64 Sample.world Sample.png = Ok data /\
    forOf (pushMessageParts Sample.world [LF]) [] [] Sample.withPicture
    = (Sample.withPicture, Ok beforeI) /\
    forOf (pushMessageParts Sample.world [LF]) [] [] Sample.withPicture
    = (Sample.withPicture, Ok afterI) /\
    forOf (pushMessageParts Sample.world [SPACE]) [] [] Sample.withPicture
    = (Sample.withPicture, Ok beforeT) /\
    forOf (pushMessageParts Sample.world [SPACE]) [] [] Sample.withPicture
    = (Sample.withPicture, Ok afterT) /\
    (forall systemMsg,
        buildImageParts Sample.world systemMsg Sample.withPicture
        = (Sample.withPicture,
           Ok ((if truthy systemMsg then [TextPart (trim systemMsg)] else [])
               ++ beforeI
               ++ [ TextPart (lit "hi" ++ [LF] ++ lit "See image:");
                    InlineDataPart data (lit "image/png") ]
               ++ afterI))) /\
    buildTextParts Sample.world Sample.withPicture
    = (Sample.withPicture,
       Ok (beforeT
           ++ [ TextPart (lit "hi" ++ [SPACE] ++ lit "See image:");
                InlineDataPart data (lit "image/png") ]
           ++ afterT)).
Proof.
  assert (messages Sample.withPicture
          = [] ++ mkMessage (lit "1") (lit "hi") (Some Sample.picture) :: [])
    as H1 by reflexivity.
  assert (msg_image (mkMessage (lit "1") (lit "hi") (Some Sample.picture))
          = Some Sample.picture) as H2 by reflexivity.
  assert (allReadable Sample.world (messages Sample.withPicture) = true)
    as H3 by reflexivity.
  assert (readAsDataURL Sample.world (blob Sample.picture) = Ok Sample.pngUrl)
    as H4 by reflexivity.
  split; [exact H1 | split; [exact H2 | split; [exact H3 | split; [exact H4|]]]].
  split; [| split].
  - exact (proj1 (proj2 image_item_marker_then_data Sample.world
                    Sample.withPicture (lit "1") Sample.picture Sample.pngUrl
                    eq_refl H4)).
  - exact (proj2 (proj2 image_item_marker_then_data Sample.world
                    Sample.withPicture (lit "1") Sample.picture Sample.pngUrl
                    eq_refl H4)).
  - exact (proj1 image_item_marker_then_data Sample.world Sample.withPicture
             [] _ [] Sample.picture H1 H2 H3).
Defined.

(* ------------------------------------------------------------------ *)
(** ** Template loader *)

Lemma loadEntry_decoded w msg image s :
  fetchImage w msg = Ok image ->
  loadEntry w tt msg s
  = (set_messages
       (messages s ++ [mkMessage (ofNumber (nextId s)) (tm_text msg) image])
       (set_nextId (nextId s + 1) s),
     Ok tt).
Proof.
  intros H. unfold loadEntry, bind, get, modify, await. rewrite H.
  reflexivity.
Qed.

Lemma loadEntry_failed w msg e s :
  fetchImage w msg = Throw e ->
  loadEntry w tt msg s = (set_nextId (nextId s + 1) s, Throw e).
Proof.
  intros H. unfold loadEntry, bind, get, modify, await. rewrite H.
  reflexivity.
Qed.

Lemma lookup_registered w templateName template :
  asyncTemplates w templateName = Some template ->
  lookup w templateName = Registered template.
Proof. intros H. unfold lookup. rewrite H. reflexivity. Qed.

(** C3, as stated, does not hold: with the sample template, whose second
    entry cannot be fetched, the load ends with the first entry in the
    message list. *)
Lemma failed_load_leaves_first_entry : ~ failedLoadLeavesListEmpty.
Proof.
  intros H.
  destruct (H Sample.world (lit "sample") Sample.template
              (mkTemplateMessage user (lit "first") None)
              (mkTemplateMessage user (lit "second") (Some Sample.brokenUrl))
              [] Sample.brokenUrl (Some (lit "Failed to fetch")) Sample.ready
              eq_refl eq_refl eq_refl eq_refl) as [Hempty _].
  discriminate Hempty.
Qed.

(** C3, amended. When the first entry of a template that is not a system
    entry is decoded and the image of the second one cannot be fetched,
    the load stops there: the message list holds the first entry alone,
    under the id "1", the counter stands at 3, the list is neither
    rendered nor saved, and the user is told that the load failed. The
    system instruction of the template, if it has one, stays applied
    (as the text area gives it back, with its line breaks normalized). *)
Theorem failed_load_keeps_first_entry
        (w : World) (templateName : jsstring) (template : Template)
        (first second : TemplateMessage) (rest : list TemplateMessage)
        (image1 : option Image) (url : jsstring) (e : JsError) (s : State) :
  asyncTemplates w templateName = Some template ->
  filter (fun m => negb (isSystem m)) (tmpl_messages template)
    = first :: second :: rest ->
  fetchImage w first = Ok image1 ->
  tm_image second = Some url ->
  fetchBlob w url = Throw e ->
  messages (loadTemplate w templateName s)
    = [mkMessage (lit "1") (tm_text first) image1] /\
  nextId (loadTemplate w templateName s) = 3%N /\
  since s (loadTemplate w templateName s)
    = match find isSystem (tmpl_messages template) with
      | Some systemMsg => [SaveSystemMessage (tm_text systemMsg)]
      | None => []
      end ++ [Alert (lit "Failed to load template.")] /\
  systemMessage (loadTemplate w templateName s)
    = match find isSystem (tmpl_messages template) with
      | Some systemMsg => normalizeNewlines (tm_text systemMsg)
      | None => systemMessage s
      end.
Proof.
  intros Htemplate Hentries Hfirst Hsecond Hfetch.
  assert (fetchImage w second = Throw e) as Hfail.
  { unfold fetchImage. rewrite Hsecond, Hfetch. reflexivity. }
  unfold loadTemplate, tryCatch.
  rewrite (lookup_registered _ _ Htemplate), Hentries.
  cbn [forOf]. unfold bind at 1 2 3 4 5 6. unfold modify at 1 2.
  destruct (find isSystem (tmpl_messages template)) as [systemMsg|];
    unfold bind, modify, ret;
    rewrite (loadEntry_decoded _ _ _ Hfirst), (loadEntry_failed _ _ _ Hfail);
    (repeat split; try reflexivity);
    apply since_app; simpl; rewrite <- ?app_assoc; reflexivity.
Qed.

Lemma failed_load_keeps_first_entry_witness :
  messages (loadTemplate Sample.world (lit "sample") (addItem Sample.ready))
    = [mkMessage (lit "1") (lit "first") None] /\
  nextId (loadTemplate Sample.world (lit "sample") (addItem Sample.ready))
    = 3%N /\
  since (addItem Sample.ready)
        (loadTemplate Sample.world (lit "sample") (addItem Sample.ready))
    = [SaveSystemMessage (lit "Be brief.");
       Alert (lit "Failed to load template.")] /\
  systemMessage (loadTemplate Sample.world (lit "sample")
                              (addItem Sample.ready))
    = lit "Be brief.".
Proof.
  exact (@failed_load_keeps_first_entry
           Sample.world (lit "sample") Sample.template
           (mkTemplateMessage user (lit "first") None)
           (mkTemplateMessage user (lit "second") (Some Sample.brokenUrl))
           [] None Sample.brokenUrl (Some (lit "Failed to fetch"))
           (addItem Sample.ready)
           eq_refl eq_refl eq_refl eq_refl eq_refl).
Defined.

(* ------------------------------------------------------------------ *)
(** ** Generation flows *)

Lemma truthy_false s : truthy s = false <-> s = [].
Proof. destruct s; simpl; split; congruence. Qed.

Lemma truthy_true s : truthy s = true <-> s <> [].
Proof. destruct s; simpl; split; congruence. Qed.

Lemma orElse_nil s : orElse s [] = s.
Proof. destruct s; reflexivity. Qed.

(** The serializer loop gives the same result in every state. *)
Lemma forOf_pushMessageParts_anywhere w separator acc l s s0 :
  forOf (pushMessageParts w separator) acc l s
  = (s, snd (forOf (pushMessageParts w separator) acc l s0)).
Proof.
  destruct (allReadable w l) eqn:E.
  - rewrite !forOf_pushMessageParts_readable by exact E. reflexivity.
  - revert acc. induction l as [|msg l IH]; intros acc; [discriminate|].
    cbn [forOf]. unfold bind.
    destruct (allReadable w [msg]) eqn:Em.
    + rewrite !pushMessageParts_readable by exact Em. apply IH.
      change (msg :: l) with ([msg] ++ l) in E.
      rewrite allReadable_app, Em in E. exact E.
    + unfold allReadable in Em. simpl in Em. rewrite andb_true_r in Em.
      unfold pushMessageParts, blobToBase64.
      destruct (msg_image msg) as [img|]; [|discriminate].
      destruct (readAsDataURL w (blob img)); [discriminate|]. reflexivity.
Qed.

(** *** Creating the output *)

Lemma addOutput_state showImage s :
  addOutput showImage s
  = (renderOutputs
       (set_outputs (created showImage s :: outputs s)
                    (set_nextOutputId (nextOutputId s + 1) s)),
     newOutputId s).
Proof. reflexivity. Qed.

Lemma addOutput_found showImage s :
  find (hasOutputId (newOutputId s)) (outputs (fst (addOutput showImage s)))
  = Some (created showImage s).
Proof.
  simpl. unfold hasOutputId. simpl.
  change (ofNumber (nextOutputId s)) with (newOutputId s).
  rewrite eqb_refl. reflexivity.
Qed.

Lemma addOutput_effects showImage s :
  effects (fst (addOutput showImage s))
  = effects s ++ [RenderOutputs (created showImage s :: outputs s)].
Proof. reflexivity. Qed.

(** *** Sequences of updates *)

Lemma applyUpdates_app id us us' s :
  applyUpdates id (us ++ us') s = applyUpdates id us' (applyUpdates id us s).
Proof. apply fold_left_app. Qed.

Lemma applyUpdates_found id us : forall s o,
  find (hasOutputId id) (outputs s) = Some o ->
  find (hasOutputId id) (outputs (applyUpdates id us s))
  = Some (match rev us with
          | [] => o
          | u :: _ => mkOutput (out_id o) (fst u) (snd u) false
          end).
Proof.
  induction us as [|u us IH] using rev_ind; intros s o H; [exact H|].
  rewrite applyUpdates_app, rev_app_distr. simpl.
  rewrite (updateOutput_result _ _ _ _ (IH s o H)).
  destruct (rev us); reflexivity.
Qed.

(** Each update of an output that exists is rendered once and saved
    once, and nothing else is logged. *)
Lemma applyUpdates_effects id us : forall s o,
  find (hasOutputId id) (outputs s) = Some o ->
  exists log,
    effects (applyUpdates id us s) = effects s ++ log /\
    filter isSubmit log = [] /\
    filter isAlert log = [] /\
    map (loadingOf id) (rendered log) = repeat (Some false) (List.length us) /\
    map (textOf id) (rendered log) = map (fun u => Some (snd u)) us /\
    List.length (rendered log) = List.length us.
Proof.
  induction us as [|u us IH] using rev_ind; intros s o H.
  - exists []. simpl. rewrite app_nil_r. repeat split; reflexivity.
  - destruct (IH s o H) as (log & Hlog & Hsub & Hal & Hload & Htext & Hlen).
    pose proof (applyUpdates_found id us _ H) as Hfound.
    rewrite applyUpdates_app. simpl.
    pose proof (updateOutput_effects id (fst u) (snd u) _ Hfound) as Heff.
    pose proof (updateOutput_result id (fst u) (snd u) _ Hfound) as Hres.
    set (s' := updateOutput id (fst u) (snd u) (applyUpdates id us s)) in *.
    exists (log ++ [ RenderOutputs (outputs s');
                     SaveOutputs (filter (fun output => negb (out_loading output))
                                         (outputs s')) ]).
    rewrite Heff, Hlog, <- app_assoc.
    rewrite !filter_app, Hsub, Hal, rendered_app, !map_app, Hload, Htext.
    rewrite !length_app, Hlen. simpl.
    unfold loadingOf, textOf. rewrite Hres. simpl.
    repeat split; try reflexivity.
    rewrite repeat_app. reflexivity.
Qed.

Lemma applyUpdates_frame id us : forall s,
  messages (applyUpdates id us s) = messages s /\
  nextId (applyUpdates id us s) = nextId s /\
  nextOutputId (applyUpdates id us s) = nextOutputId s.
Proof.
  induction us as [|u us IH]; intros s; simpl; [auto|].
  destruct (IH (updateOutput id (fst u) (snd u) s)) as (A & B & C).
  destruct (updateOutput_frame id (fst u) (snd u) s) as (A' & B' & C').
  unfold applyUpdates in *. simpl. rewrite A, B, C. auto.
Qed.

(** *** Reading the streams *)

Lemma running_cons c l k : running (c :: l) (S k) = delta c ++ running l k.
Proof. reflexivity. Qed.

Lemma running_all l k :
  List.length l <= k -> running l k = List.concat (map delta l).
Proof. intros H. unfold running. rewrite firstn_all2 by exact H. reflexivity. Qed.

(** The loop over a text stream asks, after each chunk, for an update
    to the running string, and ends with the whole text. *)
Lemma forOf_streamText id l : forall acc s,
  forOf (streamText id) acc l s
  = (applyUpdates id
       (map (fun k => (None, acc ++ running l k)) (seq 1 (List.length l))) s,
     Ok (acc ++ running l (List.length l))).
Proof.
  induction l as [|c l IH]; intros acc s.
  - simpl. unfold ret, running. simpl. rewrite app_nil_r. reflexivity.
  - cbn [forOf]. unfold bind at 1. unfold streamText at 1.
    unfold bind, modify, ret.
    replace (match chunk_text c with
             | Some t => orElse t []
             | None => []
             end) with (delta c)
      by (unfold delta; destruct (chunk_text c); [rewrite orElse_nil|];
          reflexivity).
    rewrite IH. cbn [List.length seq map].
    rewrite <- (seq_shift (List.length l) 1), map_map.
    rewrite running_cons. unfold running at 2. simpl firstn. simpl List.concat.
    rewrite app_nil_r, <- app_assoc. unfold applyUpdates at 2. cbn [fold_left].
    cbn [fst snd]. f_equal. unfold applyUpdates. f_equal.
    apply map_ext. intros k. rewrite running_cons, <- app_assoc. reflexivity.
Qed.

Lemma fold_collectPart l : forall acc,
  fold_left collectPart l acc
  = (fst acc ++ producedImages [mkChunk l None],
     snd acc ++ accumulatedText [mkChunk l None]).
Proof.
  unfold producedImages, accumulatedText. simpl. rewrite app_nil_r.
  induction l as [|part l IH]; intros [urls text]; simpl.
  - rewrite !app_nil_r. reflexivity.
  - rewrite IH. unfold collectPart.
    destruct (inlineData part) as [[m d]|]; simpl.
    + rewrite <- app_assoc. reflexivity.
    + destruct (part_text part) as [t|]; simpl; [|reflexivity].
      destruct t; simpl; [reflexivity|]. rewrite <- app_assoc. reflexivity.
Qed.

Lemma producedImages_cons c l :
  producedImages (c :: l) = producedImages [c] ++ producedImages l.
Proof.
  unfold producedImages. simpl. rewrite app_nil_r, flat_map_app. reflexivity.
Qed.

Lemma accumulatedText_cons c l :
  accumulatedText (c :: l) = accumulatedText [c] ++ accumulatedText l.
Proof.
  unfold accumulatedText. simpl. rewrite app_nil_r, map_app, concat_app.
  reflexivity.
Qed.

(** The loop over an image stream collects the images and the text and
    leaves the state alone. *)
Lemma forOf_collectChunk l : forall acc s,
  forOf collectChunk acc l s
  = (s, Ok (fst acc ++ producedImages l, snd acc ++ accumulatedText l)).
Proof.
  induction l as [|c l IH]; intros acc s.
  - simpl. unfold ret, producedImages, accumulatedText. simpl.
    rewrite !app_nil_r. destruct acc; reflexivity.
  - cbn [forOf]. unfold bind, collectChunk at 1, ret.
    rewrite IH, fold_collectPart. cbn [fst snd].
    rewrite (producedImages_cons c l), (accumulatedText_cons c l).
    rewrite <- !app_assoc.
    replace (producedImages [mkChunk (chunk_parts c) None])
      with (producedImages [c]) by reflexivity.
    replace (accumulatedText [mkChunk (chunk_parts c) None])
      with (accumulatedText [c]) by reflexivity.
    reflexivity.
Qed.

(** *** The two handlers, once they go on *)

Lemma canGenerate_passes s :
  canGenerate s ->
  negb (truthy (trim (apiKeyInput s))) = false /\
  negb (truthy (trim (systemMessage s))) && (List.length (messages s) =? 0)
  = false.
Proof.
  intros [Hkey Hsome]. unfold credential, systemText in *. split.
  - apply negb_false_iff, truthy_true, Hkey.
  - destruct Hsome as [Hsys | Hmsgs].
    + apply truthy_true in Hsys. rewrite Hsys. reflexivity.
    + destruct (messages s); [congruence|]. apply andb_false_r.
Qed.

Lemma handleGenerateText_canGenerate w s :
  canGenerate s ->
  handleGenerateText w s
  = tryCatch (generateTextContent w (systemText s) (newOutputId s))
             (fun error => updateOutput (newOutputId s) None (errorText error))
             (fst (addOutput false s)).
Proof.
  intros H. destruct (canGenerate_passes H) as [Hk Hs].
  unfold handleGenerateText. rewrite Hk, Hs. reflexivity.
Qed.

Lemma handleGenerateImage_canGenerate w s :
  canGenerate s ->
  handleGenerateImage w s
  = tryCatch (generateImageContent w (systemText s) (newOutputId s))
             (fun error => updateOutput (newOutputId s) (Some PLACEHOLDER_IMAGE)
                                        (errorText error))
             (fst (addOutput true s)).
Proof.
  intros H. destruct (canGenerate_passes H) as [Hk Hs].
  unfold handleGenerateImage. rewrite Hk, Hs. reflexivity.
Qed.

Lemma buildTextParts_anywhere w s s' :
  messages s' = messages s ->
  buildTextParts w s' = (s', snd (buildTextParts w s)).
Proof.
  intros H. unfold buildTextParts, bind, get. rewrite H.
  rewrite (forOf_pushMessageParts_anywhere w [SPACE] [] (messages s) s' s).
  reflexivity.
Qed.

Lemma buildImageParts_anywhere w systemMsg s s' :
  messages s' = messages s ->
  buildImageParts w systemMsg s' = (s', snd (buildImageParts w systemMsg s)).
Proof.
  intros H. unfold buildImageParts, bind, get. rewrite H.
  rewrite (forOf_pushMessageParts_anywhere w [LF] _ (messages s) s' s).
  reflexivity.
Qed.

(** The text flow as a sequence of updates of the output it created:
    one per chunk, then the final text or the error. *)
Lemma handleGenerateText_updates w s parts :
  canGenerate s ->
  buildTextParts w s = (s, Ok parts) ->
  handleGenerateText w s
  = applyUpdates (newOutputId s)
      (textUpdates (chunks (generateContentStream w (textRequest (systemText s) parts)))
       ++ [ (None,
             match failure (generateContentStream w (textRequest (systemText s) parts)) with
             | Some e => errorText e
             | None =>
                 let l := chunks (generateContentStream w (textRequest (systemText s) parts)) in
                 if truthy (running l (List.length l))
                 then running l (List.length l)
                 else lit "Text generation complete, but no text was returned."
             end) ])
      (emit (Submit (textRequest (systemText s) parts)) (fst (addOutput false s))).
Proof.
  intros Hcan Hparts. rewrite (handleGenerateText_canGenerate w Hcan).
  unfold tryCatch, generateTextContent. unfold bind at 1.
  rewrite (@buildTextParts_anywhere w s (fst (addOutput false s)) eq_refl).
  rewrite Hparts. cbn [snd]. unfold bind at 1. unfold modify at 1.
  unfold bind at 1. unfold forAwait, bind at 1.
  rewrite forOf_streamText. cbn [app].
  rewrite applyUpdates_app. fold (textUpdates (chunks (generateContentStream w (textRequest (systemText s) parts)))).
  destruct (failure (generateContentStream w (textRequest (systemText s) parts)));
    reflexivity.
Qed.

Lemma handleGenerateText_unreadable w s e :
  canGenerate s ->
  buildTextParts w s = (s, Throw e) ->
  handleGenerateText w s
  = updateOutput (newOutputId s) None (errorText e) (fst (addOutput false s)).
Proof.
  intros Hcan Hparts. rewrite (handleGenerateText_canGenerate w Hcan).
  unfold tryCatch, generateTextContent. unfold bind at 1.
  rewrite (@buildTextParts_anywhere w s (fst (addOutput false s)) eq_refl).
  rewrite Hparts. reflexivity.
Qed.

(** The image flow: one update, when the stream is over. *)
Lemma handleGenerateImage_updates w s parts :
  canGenerate s ->
  buildImageParts w (systemText s) s = (s, Ok parts) ->
  handleGenerateImage w s
  = applyUpdates (newOutputId s)
      [ match failure (generateContentStream w (imageRequest parts)) with
        | Some e => (Some PLACEHOLDER_IMAGE, errorText e)
        | None =>
            let l := chunks (generateContentStream w (imageRequest parts)) in
            match producedImages l with
            | finalImageUrl :: _ =>
                (Some finalImageUrl,
                 orElse (accumulatedText l) (lit "Image successfully generated."))
            | [] =>
                (Some PLACEHOLDER_IMAGE,
                 orElse (accumulatedText l)
                        (lit "Generation complete, but no image was returned."))
            end
        end ]
      (emit (Submit (imageRequest parts)) (fst (addOutput true s))).
Proof.
  intros Hcan Hparts. rewrite (handleGenerateImage_canGenerate w Hcan).
  unfold tryCatch, generateImageContent. unfold bind at 1.
  rewrite (@buildImageParts_anywhere w (systemText s) s
             (fst (addOutput true s)) eq_refl).
  rewrite Hparts. cbn [snd]. unfold bind at 1. unfold modify at 1.
  unfold bind at 1. unfold forAwait, bind at 1.
  rewrite forOf_collectChunk. cbn [fst snd app].
  destruct (failure (generateContentStream w (imageRequest parts))).
  - reflexivity.
  - unfold ret.
    destruct (producedImages (chunks (generateContentStream w (imageRequest parts))));
      reflexivity.
Qed.

Lemma handleGenerateImage_unreadable w s e :
  canGenerate s ->
  buildImageParts w (systemText s) s = (s, Throw e) ->
  handleGenerateImage w s
  = updateOutput (newOutputId s) (Some PLACEHOLDER_IMAGE) (errorText e)
                 (fst (addOutput true s)).
Proof.
  intros Hcan Hparts. rewrite (handleGenerateImage_canGenerate w Hcan).
  unfold tryCatch, generateImageContent. unfold bind at 1.
  rewrite (@buildImageParts_anywhere w (systemText s) s
             (fst (addOutput true s)) eq_refl).
  rewrite Hparts. reflexivity.
Qed.

(** *** What a flow leaves in the state and in the log *)

Lemma clearings_settled k : clearings (repeat (Some false) k) = 0.
Proof.
  induction k as [|k IH]; [reflexivity|].
  destruct k; [reflexivity|]. simpl in *. exact IH.
Qed.

Lemma clearings_once k :
  clearings (Some true :: repeat (Some false) (S k)) = 1.
Proof.
  change (clearings (Some true :: repeat (Some false) (S k)))
    with (1 + clearings (repeat (Some false) (S k))).
  rewrite clearings_settled. reflexivity.
Qed.

(** The output a handler created stays at the front of the list while
    the handler updates it. *)
Lemma applyUpdates_front id us : forall s o rest,
  outputs s = o :: rest ->
  out_id o = id ->
  outputs (applyUpdates id us s)
  = match rev us with
    | [] => o
    | u :: _ => mkOutput id (fst u) (snd u) false
    end :: rest.
Proof.
  induction us as [|u us IH] using rev_ind; intros s o rest Hs Hid; [exact Hs|].
  rewrite applyUpdates_app, rev_app_distr. simpl.
  specialize (IH s o rest Hs Hid).
  set (st := applyUpdates id us s) in *.
  assert (exists o', outputs st = o' :: rest /\ out_id o' = id) as (o' & Ho' & Hid').
  { destruct (rev us); eexists; split; try exact IH; auto. }
  assert (hasOutputId id o' = true) as Hh by (apply hasOutputId_true, Hid').
  unfold updateOutput. rewrite Ho'. cbn [find mutateFound]. rewrite Hh.
  rewrite Hid'. reflexivity.
Qed.

(** The log of a flow: the new output rendered, then what the flow
    logged before its updates, then the updates. *)
Lemma flow_log showImage s st pre us :
  outputs st = outputs (fst (addOutput showImage s)) ->
  effects st = effects (fst (addOutput showImage s)) ++ pre ->
  rendered pre = [] ->
  filter isAlert pre = [] ->
  map (loadingOf (newOutputId s))
      (rendered (since s (applyUpdates (newOutputId s) us st)))
  = Some true :: repeat (Some false) (List.length us) /\
  map (textOf (newOutputId s))
      (rendered (since s (applyUpdates (newOutputId s) us st)))
  = Some (lit "Generating...") :: map (fun u => Some (snd u)) us /\
  filter isSubmit (since s (applyUpdates (newOutputId s) us st))
  = filter isSubmit pre /\
  filter isAlert (since s (applyUpdates (newOutputId s) us st)) = [] /\
  hd_error (since s (applyUpdates (newOutputId s) us st))
  = Some (RenderOutputs (created showImage s :: outputs s)) /\
  List.length (rendered (since s (applyUpdates (newOutputId s) us st)))
  = S (List.length us).
Proof.
  intros Hout Heff Hpre Halert.
  assert (find (hasOutputId (newOutputId s)) (outputs st)
          = Some (created showImage s)) as Hfound
    by (rewrite Hout; apply addOutput_found).
  destruct (applyUpdates_effects (newOutputId s) us st Hfound)
    as (log & Hlog & Hsub & Hal & Hload & Htext & Hlen).
  assert (since s (applyUpdates (newOutputId s) us st)
          = RenderOutputs (created showImage s :: outputs s) :: pre ++ log)
    as Hsince.
  { apply since_app. rewrite Hlog, Heff, addOutput_effects.
    rewrite <- !app_assoc. reflexivity. }
  rewrite Hsince. cbn [rendered map filter isSubmit isAlert hd_error].
  rewrite rendered_app, Hpre, !filter_app, Hsub, Hal, Halert, app_nil_r.
  cbn [app List.length]. rewrite Hload, Htext, Hlen.
  assert (find (hasOutputId (newOutputId s)) (created showImage s :: outputs s)
          = Some (created showImage s)) as Hfront
    by apply (addOutput_found showImage s).
  unfold loadingOf at 1, textOf at 1. rewrite Hfront.
  repeat split; reflexivity.
Qed.

(* ------------------------------------------------------------------ *)
(** ** Text generation *)

(** C7. While a text stream is read, the delta of each chunk is added
    to the running string and the output is updated to it at once; when
    the stream is over, one more update writes the running string, or
    "Text generation complete, but no text was returned." when it is
    empty. The render sink sees "Generating...", then the running string
    after each chunk, then the final text, and from the first update on
    the output is not loading. With the chunks "He" and "llo" it sees
    "He", "Hello" and the final "Hello". *)
Theorem text_stream_updates :
  (forall w s parts l,
      canGenerate s ->
      buildTextParts w s = (s, Ok parts) ->
      generateContentStream w (textRequest (systemText s) parts)
      = mkStream l None ->
      handleGenerateText w s
      = updateOutput (newOutputId s) None
          (if truthy (running l (List.length l))
           then running l (List.length l)
           else lit "Text generation complete, but no text was returned.")
          (applyUpdates (newOutputId s) (textUpdates l)
             (emit (Submit (textRequest (systemText s) parts))
                   (fst (addOutput false s)))) /\
      map (textOf (newOutputId s))
          (rendered (since s (handleGenerateText w s)))
      = Some (lit "Generating...")
        :: map (fun k => Some (running l k)) (seq 1 (List.length l))
        ++ [Some (if truthy (running l (List.length l))
                  then running l (List.length l)
                  else lit "Text generation complete, but no text was returned.")] /\
      map (loadingOf (newOutputId s))
          (rendered (since s (handleGenerateText w s)))
      = Some true :: repeat (Some false) (List.length l + 1) /\
      outputs (handleGenerateText w s)
      = mkOutput (newOutputId s) None
          (if truthy (running l (List.length l))
           then running l (List.length l)
           else lit "Text generation complete, but no text was returned.")
          false
        :: outputs s) /\
  (forall w s parts p1 p2,
      canGenerate s ->
      buildTextParts w s = (s, Ok parts) ->
      generateContentStream w (textRequest (systemText s) parts)
      = mkStream [mkChunk p1 (Some (lit "He")); mkChunk p2 (Some (lit "llo"))]
                 None ->
      map (textOf (newOutputId s))
          (rendered (since s (handleGenerateText w s)))
      = [Some (lit "Generating..."); Some (lit "He"); Some (lit "Hello");
         Some (lit "Hello")] /\
      outputs (handleGenerateText w s)
      = mkOutput (newOutputId s) None (lit "Hello") false :: outputs s).
Proof.
  assert (forall w s parts l,
      canGenerate s ->
      buildTextParts w s = (s, Ok parts) ->
      generateContentStream w (textRequest (systemText s) parts)
      = mkStream l None ->
      handleGenerateText w s
      = applyUpdates (newOutputId s)
          (textUpdates l
           ++ [(None,
                if truthy (running l (List.length l))
                then running l (List.length l)
                else lit "Text generation complete, but no text was returned.")])
          (emit (Submit (textRequest (systemText s) parts))
                (fst (addOutput false s)))) as Hflow.
  { intros w s parts l Hcan Hparts Hstream.
    rewrite (handleGenerateText_updates w Hcan Hparts), Hstream. reflexivity. }
  assert (forall w s parts l,
      canGenerate s ->
      buildTextParts w s = (s, Ok parts) ->
      generateContentStream w (textRequest (systemText s) parts)
      = mkStream l None ->
      map (textOf (newOutputId s))
          (rendered (since s (handleGenerateText w s)))
      = Some (lit "Generating...")
        :: map (fun k => Some (running l k)) (seq 1 (List.length l))
        ++ [Some (if truthy (running l (List.length l))
                  then running l (List.length l)
                  else lit "Text generation complete, but no text was returned.")] /\
      map (loadingOf (newOutputId s))
          (rendered (since s (handleGenerateText w s)))
      = Some true :: repeat (Some false) (List.length l + 1) /\
      outputs (handleGenerateText w s)
      = mkOutput (newOutputId s) None
          (if truthy (running l (List.length l))
           then running l (List.length l)
           else lit "Text generation complete, but no text was returned.")
          false
        :: outputs s) as Hseen.
  { intros w s parts l Hcan Hparts Hstream.
    rewrite (Hflow w s parts l Hcan Hparts Hstream).
    destruct (@flow_log false s
                (emit (Submit (textRequest (systemText s) parts))
                      (fst (addOutput false s)))
                [Submit (textRequest (systemText s) parts)]
                (textUpdates l
                 ++ [(None,
                      if truthy (running l (List.length l))
                      then running l (List.length l)
                      else lit "Text generation complete, but no text was returned.")])
                eq_refl eq_refl eq_refl eq_refl)
      as (Hload & Htext & _).
    rewrite Hload, Htext. split; [|split].
    - rewrite map_app. unfold textUpdates. rewrite map_map. reflexivity.
    - rewrite length_app. unfold textUpdates. rewrite length_map, length_seq.
      reflexivity.
    - rewrite applyUpdates_front
        with (o := created false s) (rest := outputs s) by reflexivity.
      rewrite rev_app_distr. reflexivity. }
  split.
  - intros w s parts l Hcan Hparts Hstream.
    split; [|exact (Hseen w s parts l Hcan Hparts Hstream)].
    rewrite (Hflow w s parts l Hcan Hparts Hstream), applyUpdates_app.
    reflexivity.
  - intros w s parts p1 p2 Hcan Hparts Hstream.
    destruct (Hseen w s parts _ Hcan Hparts Hstream) as (Htext & _ & Hout).
    split; [exact Htext | exact Hout].
Qed.

Lemma text_stream_updates_witness :
  canGenerate Sample.ready /\
  buildTextParts Sample.world Sample.ready = (Sample.ready, Ok []) /\
  generateContentStream Sample.world (textRequest (systemText Sample.ready) [])
  = mkStream [Sample.textChunk "He"; Sample.textChunk "llo"] None /\
  map (textOf (lit "1"))
      (rendered (since Sample.ready (handleGenerateText Sample.world Sample.ready)))
  = [Some (lit "Generating..."); Some (lit "He"); Some (lit "Hello");
     Some (lit "Hello")] /\
  map (loadingOf (lit "1"))
      (rendered (since Sample.ready (handleGenerateText Sample.world Sample.ready)))
  = [Some true; Some false; Some false; Some false] /\
  outputs (handleGenerateText Sample.world Sample.ready)
  = [mkOutput (lit "1") None (lit "Hello") false].
Proof.
  assert (canGenerate Sample.ready) as Hcan.
  { split; [discriminate | left; discriminate]. }
  assert (buildTextParts Sample.world Sample.ready = (Sample.ready, Ok []))
    as Hparts by reflexivity.
  assert (generateContentStream Sample.world
            (textRequest (systemText Sample.ready) [])
          = mkStream [Sample.textChunk "He"; Sample.textChunk "llo"] None)
    as Hstream by reflexivity.
  split; [exact Hcan | split; [exact Hparts | split; [exact Hstream|]]].
  destruct (proj1 text_stream_updates Sample.world Sample.ready [] _
              Hcan Hparts Hstream) as (_ & Htext & Hload & Hout).
  split; [exact Htext | split; [exact Hload | exact Hout]].
Defined.

(* ------------------------------------------------------------------ *)
(** ** Image generation *)

(** C6. When an image stream ends without failure, the output is
    finalized by one update: with the first image the stream produced
    and the accumulated text, or "Image successfully generated." when
    there is no text; or, when the stream produced no image, with the
    placeholder and the accumulated text, or "Generation complete, but
    no image was returned." when there is no text. Reading the stream,
    or any part of it, leaves the state as it was once the request was
    submitted; the render sink sees the output twice, as it was created
    and as it was finalized. *)
Theorem image_stream_finalization (w : World) (s : State) (parts : list Part)
        (l : list Chunk) :
  canGenerate s ->
  buildImageParts w (systemText s) s = (s, Ok parts) ->
  generateContentStream w (imageRequest parts) = mkStream l None ->
  (forall first others,
      producedImages l = first :: others ->
      handleGenerateImage w s
      = updateOutput (newOutputId s) (Some first)
          (if truthy (accumulatedText l) then accumulatedText l
           else lit "Image successfully generated.")
          (emit (Submit (imageRequest parts)) (fst (addOutput true s))) /\
      outputs (handleGenerateImage w s)
      = mkOutput (newOutputId s) (Some first)
          (if truthy (accumulatedText l) then accumulatedText l
           else lit "Image successfully generated.")
          false
        :: outputs s) /\
  (producedImages l = [] ->
   handleGenerateImage w s
   = updateOutput (newOutputId s) (Some PLACEHOLDER_IMAGE)
       (if truthy (accumulatedText l) then accumulatedText l
        else lit "Generation complete, but no image was returned.")
       (emit (Submit (imageRequest parts)) (fst (addOutput true s))) /\
   outputs (handleGenerateImage w s)
   = mkOutput (newOutputId s) (Some PLACEHOLDER_IMAGE)
       (if truthy (accumulatedText l) then accumulatedText l
        else lit "Generation complete, but no image was returned.")
       false
     :: outputs s) /\
  (forall k,
      fst (forOf collectChunk ([], []) (firstn k l)
                 (emit (Submit (imageRequest parts)) (fst (addOutput true s))))
      = emit (Submit (imageRequest parts)) (fst (addOutput true s))) /\
  outputs (emit (Submit (imageRequest parts)) (fst (addOutput true s)))
  = created true s :: outputs s /\
  rendered (since s (handleGenerateImage w s))
  = [created true s :: outputs s; outputs (handleGenerateImage w s)].
Proof.
  intros Hcan Hparts Hstream.
  pose proof (handleGenerateImage_updates w Hcan Hparts) as Hflow.
  rewrite Hstream in Hflow. cbn [failure chunks] in Hflow.
  assert (forall u,
             outputs (applyUpdates (newOutputId s) [u]
                        (emit (Submit (imageRequest parts))
                              (fst (addOutput true s))))
             = mkOutput (newOutputId s) (fst u) (snd u) false :: outputs s)
    as Hfront.
  { intros u. rewrite applyUpdates_front
      with (o := created true s) (rest := outputs s) by reflexivity.
    reflexivity. }
  assert (forall u,
             rendered (since s (applyUpdates (newOutputId s) [u]
                                  (emit (Submit (imageRequest parts))
                                        (fst (addOutput true s)))))
             = [created true s :: outputs s;
                mkOutput (newOutputId s) (fst u) (snd u) false :: outputs s])
    as Hseen.
  { intros u. rewrite <- Hfront.
    assert (find (hasOutputId (newOutputId s))
                 (outputs (emit (Submit (imageRequest parts))
                                (fst (addOutput true s))))
            = Some (created true s)) as Hfound by apply addOutput_found.
    unfold applyUpdates. cbn [fold_left].
    erewrite since_app.
    2:{ rewrite (updateOutput_effects _ _ _ _ Hfound). simpl effects at 1.
        rewrite <- !app_assoc. reflexivity. }
    reflexivity. }
  split; [|split; [|split; [|split]]].
  - intros first others Himages. rewrite Hflow, Himages.
    split; [reflexivity | apply Hfront].
  - intros Himages. rewrite Hflow, Himages.
    split; [reflexivity | apply Hfront].
  - intros k. rewrite forOf_collectChunk. reflexivity.
  - reflexivity.
  - rewrite Hflow, Hseen, Hfront. reflexivity.
Qed.

Lemma image_stream_finalization_witness :
  canGenerate Sample.ready /\
  buildImageParts Sample.world (systemText Sample.ready) Sample.ready
  = (Sample.ready, Ok [TextPart (lit "Be brief.")]) /\
  generateContentStream Sample.world (imageRequest [TextPart (lit "Be brief.")])
  = mkStream [Sample.imageChunk] None /\
  producedImages [Sample.imageChunk] = [lit "data:image/png;base64,QUJD"] /\
  outputs (handleGenerateImage Sample.world Sample.ready)
  = [mkOutput (lit "1") (Some (lit "data:image/png;base64,QUJD"))
              (lit "Done.") false] /\
  rendered (since Sample.ready (handleGenerateImage Sample.world Sample.ready))
  = [ [mkOutput (lit "1") (Some PLACEHOLDER_IMAGE) (lit "Generating...") true];
      [mkOutput (lit "1") (Some (lit "data:image/png;base64,QUJD"))
                (lit "Done.") false] ].
Proof.
  assert (canGenerate Sample.ready) as Hcan.
  { split; [discriminate | left; discriminate]. }
  assert (buildImageParts Sample.world (systemText Sample.ready) Sample.ready
          = (Sample.ready, Ok [TextPart (lit "Be brief.")])) as Hparts
    by reflexivity.
  assert (generateContentStream Sample.world
            (imageRequest [TextPart (lit "Be brief.")])
          = mkStream [Sample.imageChunk] None) as Hstream by reflexivity.
  assert (producedImages [Sample.imageChunk]
          = [lit "data:image/png;base64,QUJD"]) as Himages by reflexivity.
  split; [exact Hcan | split; [exact Hparts | split; [exact Hstream|]]].
  split; [exact Himages|].
  destruct (@image_stream_finalization Sample.world Sample.ready _ _
              Hcan Hparts Hstream) as (Hfirst & _ & _ & _ & Hseen).
  destruct (Hfirst _ _ Himages) as [_ Hout].
  split; [exact Hout|]. rewrite Hseen, Hout. reflexivity.
Defined.

(* ------------------------------------------------------------------ *)
(** ** Preconditions and lifecycle of a generation *)

Lemma buildTextParts_result w s :
  buildTextParts w s = (s, snd (buildTextParts w s)).
Proof. apply buildTextParts_anywhere. reflexivity. Qed.

Lemma buildImageParts_result w systemMsg s :
  buildImageParts w systemMsg s = (s, snd (buildImageParts w systemMsg s)).
Proof. apply buildImageParts_anywhere. reflexivity. Qed.

Lemma loadingOf_front id imageUrl text loading rest :
  loadingOf id (mkOutput id imageUrl text loading :: rest) = Some loading.
Proof.
  unfold loadingOf. cbn [find]. unfold hasOutputId. cbn [out_id].
  rewrite eqb_refl. reflexivity.
Qed.

Lemma canGenerate_or_not s :
  canGenerate s \/ (credential s = [] \/ (systemText s = [] /\ messages s = [])).
Proof.
  unfold canGenerate.
  destruct (credential s); [right; left; reflexivity|].
  destruct (systemText s).
  - destruct (messages s); [right; right; split; reflexivity|].
    left. split; [discriminate | right; discriminate].
  - left. split; [discriminate | left; discriminate].
Qed.

(** Either flow is the creation of an output followed by updates of it,
    at least one, with at most the submission of a request logged in
    between. *)
Lemma handleGenerateText_shape w s :
  canGenerate s ->
  exists pre us,
    handleGenerateText w s
    = applyUpdates (newOutputId s) us
        (mkState (messages s) (nextId s) (created false s :: outputs s)
                 (nextOutputId s + 1) (draggedId s) (apiKeyInput s)
                 (systemMessage s)
                 (effects s ++ [RenderOutputs (created false s :: outputs s)]
                  ++ pre)) /\
    pre = match snd (buildTextParts w s) with
          | Ok parts => [Submit (textRequest (systemText s) parts)]
          | Throw _ => []
          end /\
    List.length us
    = S (match snd (buildTextParts w s) with
         | Ok parts =>
             List.length
               (chunks (generateContentStream w
                          (textRequest (systemText s) parts)))
         | Throw _ => 0
         end).
Proof.
  intros Hcan. pose proof (buildTextParts_result w s) as Hres.
  destruct (snd (buildTextParts w s)) as [parts|e].
  - rewrite (handleGenerateText_updates w Hcan Hres).
    eexists _, _. split; [|split; [reflexivity|]].
    + unfold emit, addOutput, renderOutputs, emit. cbn.
      rewrite <- app_assoc. reflexivity.
    + rewrite length_app. unfold textUpdates.
      rewrite length_map, length_seq. cbn. lia.
  - rewrite (handleGenerateText_unreadable w Hcan Hres).
    exists [], [(None, errorText e)]. repeat split; reflexivity.
Qed.

Lemma handleGenerateImage_shape w s :
  canGenerate s ->
  exists pre u,
    handleGenerateImage w s
    = applyUpdates (newOutputId s) [u]
        (mkState (messages s) (nextId s) (created true s :: outputs s)
                 (nextOutputId s + 1) (draggedId s) (apiKeyInput s)
                 (systemMessage s)
                 (effects s ++ [RenderOutputs (created true s :: outputs s)]
                  ++ pre)) /\
    pre = match snd (buildImageParts w (systemText s) s) with
          | Ok parts => [Submit (imageRequest parts)]
          | Throw _ => []
          end.
Proof.
  intros Hcan. pose proof (buildImageParts_result w (systemText s) s) as Hres.
  destruct (snd (buildImageParts w (systemText s) s)) as [parts|e].
  - rewrite (handleGenerateImage_updates w Hcan Hres).
    eexists _, _. split; [|reflexivity].
    unfold emit, addOutput, renderOutputs, emit. cbn.
    rewrite <- app_assoc. reflexivity.
  - rewrite (handleGenerateImage_unreadable w Hcan Hres).
    exists [], (Some PLACEHOLDER_IMAGE, errorText e). split; reflexivity.
Qed.

(** What holds of a flow of that shape. *)
Lemma flow_facts showImage s pre us :
  rendered pre = [] ->
  filter isAlert pre = [] ->
  us <> [] ->
  let s' :=
    applyUpdates (newOutputId s) us
      (mkState (messages s) (nextId s) (created showImage s :: outputs s)
               (nextOutputId s + 1) (draggedId s) (apiKeyInput s)
               (systemMessage s)
               (effects s ++ [RenderOutputs (created showImage s :: outputs s)]
                ++ pre)) in
  map (loadingOf (newOutputId s)) (rendered (since s s'))
  = Some true :: repeat (Some false) (List.length us) /\
  loadingOf (newOutputId s) (outputs s') = Some false /\
  (exists o, outputs s' = o :: outputs s /\ out_id o = newOutputId s) /\
  nextOutputId s' = (nextOutputId s + 1)%N /\
  hd_error (since s s') = Some (RenderOutputs (created showImage s :: outputs s)) /\
  filter isSubmit (since s s') = filter isSubmit pre /\
  filter isAlert (since s s') = [].
Proof.
  intros Hpre Halert Hus s'.
  destruct (@flow_log showImage s
              (mkState (messages s) (nextId s) (created showImage s :: outputs s)
                 (nextOutputId s + 1) (draggedId s) (apiKeyInput s)
                 (systemMessage s)
                 (effects s ++ [RenderOutputs (created showImage s :: outputs s)]
                  ++ pre))
              pre us eq_refl)
    as (Hload & _ & Hsub & Hal & Hhd & _); try assumption.
  { cbn. rewrite <- app_assoc. reflexivity. }
  fold s' in Hload, Hsub, Hal, Hhd.
  assert (outputs s'
          = match rev us with
            | [] => created showImage s
            | u :: _ => mkOutput (newOutputId s) (fst u) (snd u) false
            end :: outputs s) as Hout.
  { unfold s'. apply applyUpdates_front; reflexivity. }
  destruct (rev us) as [|u rest] eqn:Hrev.
  { exfalso. apply Hus. rewrite <- (rev_involutive us), Hrev. reflexivity. }
  repeat split; try assumption.
  - rewrite Hout. apply loadingOf_front.
  - eexists. split; [exact Hout | reflexivity].
  - unfold s'. destruct (applyUpdates_frame (newOutputId s) us
      (mkState (messages s) (nextId s) (created showImage s :: outputs s)
         (nextOutputId s + 1) (draggedId s) (apiKeyInput s) (systemMessage s)
         (effects s ++ [RenderOutputs (created showImage s :: outputs s)] ++ pre)))
      as (_ & _ & H). exact H.
Qed.

Lemma cannot_generate_alerts s :
  credential s = [] \/ (systemText s = [] /\ messages s = []) ->
  negb (truthy (trim (apiKeyInput s))) = true \/
  (negb (truthy (trim (apiKeyInput s))) = false /\
   negb (truthy (trim (systemMessage s))) && (List.length (messages s) =? 0)
   = true).
Proof.
  unfold credential, systemText. intros H.
  destruct (truthy (trim (apiKeyInput s))) eqn:Ek; [right | left; reflexivity].
  split; [reflexivity|].
  destruct H as [H | [Hs Hm]].
  - rewrite H in Ek. discriminate.
  - rewrite Hs, Hm. reflexivity.
Qed.


(** What the image handler does once it goes on. *)
Lemma handleGenerateImage_facts w s :
  canGenerate s ->
  hd_error (since s (handleGenerateImage w s))
  = Some (RenderOutputs (created true s :: outputs s)) /\
  (exists o, outputs (handleGenerateImage w s) = o :: outputs s /\
             out_id o = newOutputId s) /\
  nextOutputId (handleGenerateImage w s) = (nextOutputId s + 1)%N /\
  filter isSubmit (since s (handleGenerateImage w s))
  = match snd (buildImageParts w (systemText s) s) with
    | Ok parts => [Submit (imageRequest parts)]
    | Throw _ => []
    end /\
  filter isAlert (since s (handleGenerateImage w s)) = [].
Proof.
  intros Hcan.
  destruct (handleGenerateImage_shape w Hcan) as (pre & u & Hflow & Hpre).
  destruct (@flow_facts true s pre [u])
    as (_ & _ & Hout & Hnext & Hhd & Hsub & Hal).
  - rewrite Hpre. destruct (snd (buildImageParts w (systemText s) s));
      reflexivity.
  - rewrite Hpre. destruct (snd (buildImageParts w (systemText s) s));
      reflexivity.
  - discriminate.
  - rewrite <- Hflow in Hout, Hnext, Hhd, Hsub, Hal.
    repeat split; try assumption.
    rewrite Hsub, Hpre.
    destruct (snd (buildImageParts w (systemText s) s)); reflexivity.
Qed.

(** What the text handler does once it goes on. *)
Lemma handleGenerateText_facts w s :
  canGenerate s ->
  hd_error (since s (handleGenerateText w s))
  = Some (RenderOutputs (created false s :: outputs s)) /\
  (exists o, outputs (handleGenerateText w s) = o :: outputs s /\
             out_id o = newOutputId s) /\
  nextOutputId (handleGenerateText w s) = (nextOutputId s + 1)%N /\
  filter isSubmit (since s (handleGenerateText w s))
  = match snd (buildTextParts w s) with
    | Ok parts => [Submit (textRequest (systemText s) parts)]
    | Throw _ => []
    end /\
  filter isAlert (since s (handleGenerateText w s)) = [].
Proof.
  intros Hcan.
  destruct (handleGenerateText_shape w Hcan)
    as (pre & us & Hflow & Hpre & Hlen).
  destruct (@flow_facts false s pre us)
    as (_ & _ & Hout & Hnext & Hhd & Hsub & Hal).
  - rewrite Hpre. destruct (snd (buildTextParts w s)); reflexivity.
  - rewrite Hpre. destruct (snd (buildTextParts w s)); reflexivity.
  - intros ->. discriminate Hlen.
  - rewrite <- Hflow in Hout, Hnext, Hhd, Hsub, Hal.
    repeat split; try assumption.
    rewrite Hsub, Hpre. destruct (snd (buildTextParts w s)); reflexivity.
Qed.

(** C5, as stated, does not hold: a handler whose two conditions hold
    creates an output, but it submits nothing when the image of an item
    cannot be read. With one item whose blob cannot be read, neither
    handler submits a request. *)
Lemma unreadable_image_blocks_submission : ~ validationDecidesSubmission.
Proof.
  intros H.
  assert (canGenerate Sample.withPicture) as Hcan.
  { split; [discriminate | left; discriminate]. }
  destruct (proj2 (H Sample2.broken Sample.withPicture) Hcan)
    as [[_ Hsubmits] _].
  apply Hsubmits. reflexivity.
Qed.

(** C5, amended. Both generation handlers check the same two conditions
    first. When the credential is empty, or the system text is empty and
    the message list is empty, the handler tells the user, creates no
    output and submits no request. Otherwise it creates an output,
    loading, at the front of the output list and goes on to build the
    request: it submits it once the images of the items have been read,
    and submits nothing when one of them cannot be read; there is no
    alert. (The credential and the system text are the trimmed values of
    the two inputs.) *)
Theorem generation_preconditions (w : World) (s : State) :
  (credential s = [] \/ (systemText s = [] /\ messages s = []) ->
   (exists message,
       message = (if truthy (credential s)
                  then lit "Please provide either a system message or at least one message item."
                  else lit "Please provide an API Key.") /\
       handleGenerateImage w s = alert message s /\
       since s (handleGenerateImage w s) = [Alert message] /\
       handleGenerateText w s = alert message s /\
       since s (handleGenerateText w s) = [Alert message]) /\
   outputs (handleGenerateImage w s) = outputs s /\
   outputs (handleGenerateText w s) = outputs s /\
   nextOutputId (handleGenerateImage w s) = nextOutputId s /\
   nextOutputId (handleGenerateText w s) = nextOutputId s) /\
  (canGenerate s ->
   (hd_error (since s (handleGenerateImage w s))
    = Some (RenderOutputs (created true s :: outputs s)) /\
    (exists o, outputs (handleGenerateImage w s) = o :: outputs s /\
               out_id o = newOutputId s) /\
    nextOutputId (handleGenerateImage w s) = (nextOutputId s + 1)%N /\
    filter isSubmit (since s (handleGenerateImage w s))
    = match snd (buildImageParts w (systemText s) s) with
      | Ok parts => [Submit (imageRequest parts)]
      | Throw _ => []
      end /\
    filter isAlert (since s (handleGenerateImage w s)) = [] /\
    (allReadable w (messages s) = true ->
     exists parts,
       filter isSubmit (since s (handleGenerateImage w s))
       = [Submit (imageRequest parts)]) /\
    (allReadable w (messages s) = false ->
     filter isSubmit (since s (handleGenerateImage w s)) = [])) /\
   (hd_error (since s (handleGenerateText w s))
    = Some (RenderOutputs (created false s :: outputs s)) /\
    (exists o, outputs (handleGenerateText w s) = o :: outputs s /\
               out_id o = newOutputId s) /\
    nextOutputId (handleGenerateText w s) = (nextOutputId s + 1)%N /\
    filter isSubmit (since s (handleGenerateText w s))
    = match snd (buildTextParts w s) with
      | Ok parts => [Submit (textRequest (systemText s) parts)]
      | Throw _ => []
      end /\
    filter isAlert (since s (handleGenerateText w s)) = [] /\
    (allReadable w (messages s) = true ->
     exists parts,
       filter isSubmit (since s (handleGenerateText w s))
       = [Submit (textRequest (systemText s) parts)]) /\
    (allReadable w (messages s) = false ->
     filter isSubmit (since s (handleGenerateText w s)) = []))).
Proof.
  split.
  - intros H. apply cannot_generate_alerts in H.
    assert (forall message, since s (alert message s) = [Alert message]) as Hlog.
    { intros message. apply since_app. reflexivity. }
    unfold handleGenerateImage, handleGenerateText, credential.
    destruct H as [Hk | [Hk Hs]].
    + rewrite Hk. apply negb_true_iff in Hk. rewrite Hk.
      split; [|repeat split; reflexivity].
      eexists. split; [reflexivity|].
      repeat split; try reflexivity; apply Hlog.
    + rewrite Hk, Hs. apply negb_false_iff in Hk. rewrite Hk.
      split; [|repeat split; reflexivity].
      eexists. split; [reflexivity|].
      repeat split; try reflexivity; apply Hlog.
  - intros Hcan. split.
    + destruct (handleGenerateImage_facts w Hcan)
        as (Hhd & Hout & Hnext & Hsub & Hal).
      repeat (split; [assumption|]). split.
      * intros Hread. rewrite Hsub. unfold buildImageParts, bind, get.
        rewrite forOf_pushMessageParts_readable by exact Hread.
        eexists. reflexivity.
      * intros Hread. rewrite Hsub. unfold buildImageParts, bind, get.
        destruct (forOf_pushMessageParts_unreadable w [LF]
                    (messages s)
                    (if truthy (systemText s)
                     then [TextPart (trim (systemText s))] else [])
                    s Hread) as [e ->].
        reflexivity.
    + destruct (handleGenerateText_facts w Hcan)
        as (Hhd & Hout & Hnext & Hsub & Hal).
      repeat (split; [assumption|]). split.
      * intros Hread. rewrite Hsub. unfold buildTextParts, bind, get.
        rewrite forOf_pushMessageParts_readable by exact Hread.
        eexists. reflexivity.
      * intros Hread. rewrite Hsub. unfold buildTextParts, bind, get.
        destruct (forOf_pushMessageParts_unreadable w [SPACE]
                    (messages s) [] s Hread) as [e ->].
        reflexivity.
Qed.

Lemma generation_preconditions_witness :
  (credential (initial [] (lit "Be brief.")) = [] /\
   handleGenerateImage Sample.world (initial [] (lit "Be brief."))
   = alert (lit "Please provide an API Key.") (initial [] (lit "Be brief."))) /\
  ((systemText (initial (lit "key") []) = [] /\
    messages (initial (lit "key") []) = []) /\
   handleGenerateText Sample.world (initial (lit "key") [])
   = alert (lit "Please provide either a system message or at least one message item.")
           (initial (lit "key") [])) /\
  (canGenerate Sample.withPicture /\
   allReadable Sample.world (messages Sample.withPicture) = true /\
   filter isSubmit (since Sample.withPicture
                          (handleGenerateText Sample.world Sample.withPicture))
   = [Submit (textRequest (lit "Be brief.")
                [ TextPart (lit "hi See image:");
                  InlineDataPart (Some (lit "QUJD")) (lit "image/png") ])]).
Proof.
  split; [|split].
  - assert (credential (initial [] (lit "Be brief.")) = []) as H by reflexivity.
    split; [exact H|].
    destruct (proj1 (generation_preconditions Sample.world
                       (initial [] (lit "Be brief."))) (or_introl H))
      as ((message & Hm & Heq & _) & _).
    rewrite Heq, Hm. reflexivity.
  - assert (systemText (initial (lit "key") []) = [] /\
            messages (initial (lit "key") []) = []) as H by (split; reflexivity).
    split; [exact H|].
    destruct (proj1 (generation_preconditions Sample.world
                       (initial (lit "key") [])) (or_intror H))
      as ((message & Hm & _ & _ & Heq & _) & _).
    rewrite Heq, Hm. reflexivity.
  - assert (canGenerate Sample.withPicture) as Hcan.
    { split; [discriminate | left; discriminate]. }
    assert (allReadable Sample.world (messages Sample.withPicture) = true)
      as Hread by reflexivity.
    split; [exact Hcan | split; [exact Hread|]].
    destruct (proj2 (generation_preconditions Sample.world Sample.withPicture)
                Hcan) as (_ & _ & _ & _ & Hsub & _).
    rewrite Hsub. reflexivity.
Defined.

(** C8. With a system instruction that is not empty, the request of the
    image handler carries it as the first text part of its single user
    turn and has no system field; the request of the text handler
    carries it in the system field of its configuration, and the parts
    of its user turn are the parts of the message items and nothing
    else. (The system instruction is the trimmed value of its input; in
    both requests the other parts are what the items of the message list
    serialize to, in order.) *)
Theorem system_instruction_placement (w : World) (s : State) :
  credential s <> [] ->
  systemText s <> [] ->
  allReadable w (messages s) = true ->
  filter isSubmit (since s (handleGenerateImage w s))
  = [Submit (mkRequest MODEL (mkConfig [lit "IMAGE"] None)
               [mkContent (lit "user")
                  (TextPart (systemText s)
                   :: flat_map (partsOfItem w [LF]) (messages s))])] /\
  filter isSubmit (since s (handleGenerateText w s))
  = [Submit (mkRequest TEXT_MODEL
               (mkConfig [lit "TEXT"] (Some (systemText s)))
               [mkContent (lit "user")
                  (flat_map (partsOfItem w [SPACE]) (messages s))])] /\
  forOf (pushMessageParts w [LF]) [] (messages s) s
  = (s, Ok (flat_map (partsOfItem w [LF]) (messages s))) /\
  forOf (pushMessageParts w [SPACE]) [] (messages s) s
  = (s, Ok (flat_map (partsOfItem w [SPACE]) (messages s))).
Proof.
  intros Hkey Hsys Hread.
  assert (canGenerate s) as Hcan by (split; [exact Hkey | left; exact Hsys]).
  destruct (handleGenerateImage_facts w Hcan) as (_ & _ & _ & HI & _).
  destruct (handleGenerateText_facts w Hcan) as (_ & _ & _ & HT & _).
  rewrite HI, HT. unfold buildImageParts, buildTextParts, bind, get.
  rewrite !forOf_pushMessageParts_readable by exact Hread.
  apply truthy_true in Hsys. rewrite Hsys. cbn [snd app].
  unfold systemText at 1. rewrite trim_idem. fold (systemText s).
  unfold imageRequest, textRequest. rewrite Hsys.
  repeat split; reflexivity.
Qed.

Lemma system_instruction_placement_witness :
  credential Sample.withPicture <> [] /\
  systemText Sample.withPicture <> [] /\
  allReadable Sample.world (messages Sample.withPicture) = true /\
  filter isSubmit (since Sample.withPicture
                         (handleGenerateImage Sample.world Sample.withPicture))
  = [Submit (mkRequest MODEL (mkConfig [lit "IMAGE"] None)
               [mkContent (lit "user")
                  [ TextPart (lit "Be brief.");
                    TextPart (lit "hi" ++ [LF] ++ lit "See image:");
                    InlineDataPart (Some (lit "QUJD")) (lit "image/png") ]])] /\
  filter isSubmit (since Sample.withPicture
                         (handleGenerateText Sample.world Sample.withPicture))
  = [Submit (mkRequest TEXT_MODEL
               (mkConfig [lit "TEXT"] (Some (lit "Be brief.")))
               [mkContent (lit "user")
                  [ TextPart (lit "hi See image:");
                    InlineDataPart (Some (lit "QUJD")) (lit "image/png") ]])].
Proof.
  assert (credential Sample.withPicture <> []) as Hkey by discriminate.
  assert (systemText Sample.withPicture <> []) as Hsys by discriminate.
  assert (allReadable Sample.world (messages Sample.withPicture) = true)
    as Hread by reflexivity.
  split; [exact Hkey | split; [exact Hsys | split; [exact Hread|]]].
  destruct (@system_instruction_placement Sample.world Sample.withPicture
              Hkey Hsys Hread) as (HI & HT & _).
  split; [exact HI | exact HT].
Defined.

(* ------------------------------------------------------------------ *)
(** ** Lifetime of an output *)

Lemma issuedOutputIds_same s s' :
  map out_id (outputs s') = map out_id (outputs s) ->
  (nextOutputId s <= nextOutputId s')%N ->
  issuedOutputIds s -> issuedOutputIds s'.
Proof.
  unfold issuedOutputIds. intros Hids Hn H id Hin. rewrite Hids in Hin.
  destruct (H id Hin) as (n & Hlt & Hid). exists n. split; [lia | exact Hid].
Qed.

Lemma out_ids_mutateFound id imageUrl text (l : list OutputItem) :
  map out_id (mutateFound (hasOutputId id)
                          (fun o => mkOutput (out_id o) imageUrl text false) l)
  = map out_id l.
Proof.
  induction l as [|x l IH]; simpl; [reflexivity|].
  destruct (hasOutputId id x); simpl; [|rewrite IH]; reflexivity.
Qed.

Lemma updateOutput_issued id imageUrl text s :
  issuedOutputIds s -> issuedOutputIds (updateOutput id imageUrl text s).
Proof.
  unfold updateOutput. destruct (find (hasOutputId id) (outputs s)); [|tauto].
  apply issuedOutputIds_same; simpl; [apply out_ids_mutateFound | lia].
Qed.

Lemma applyUpdates_issued id us : forall s,
  issuedOutputIds s -> issuedOutputIds (applyUpdates id us s).
Proof.
  induction us as [|u us IH]; intros s H; [exact H|].
  apply IH, updateOutput_issued, H.
Qed.

Lemma created_issued showImage s pre :
  issuedOutputIds s ->
  issuedOutputIds
    (mkState (messages s) (nextId s) (created showImage s :: outputs s)
             (nextOutputId s + 1) (draggedId s) (apiKeyInput s)
             (systemMessage s) pre).
Proof.
  unfold issuedOutputIds. simpl. intros H id [<- | Hin].
  - exists (nextOutputId s). split; [lia | reflexivity].
  - destruct (H id Hin) as (n & Hlt & Hid). exists n. split; [lia | exact Hid].
Qed.

Lemma filter_issued (keep : OutputItem -> bool) s :
  issuedOutputIds s ->
  issuedOutputIds (set_outputs (filter keep (outputs s)) s).
Proof.
  unfold issuedOutputIds. simpl. intros H id Hin. apply H.
  apply in_map_iff in Hin as (o & Ho & Hin).
  apply filter_In in Hin as [Hin _]. rewrite <- Ho. apply in_map, Hin.
Qed.

Lemma handleGenerateImage_issued w s :
  issuedOutputIds s -> issuedOutputIds (handleGenerateImage w s).
Proof.
  intros H. destruct (canGenerate_or_not s) as [Hcan | Hnot].
  - destruct (handleGenerateImage_shape w Hcan) as (pre & u & -> & _).
    apply applyUpdates_issued, created_issued, H.
  - apply cannot_generate_alerts in Hnot. unfold handleGenerateImage.
    destruct Hnot as [Hk | [Hk Hs]]; rewrite Hk; [|rewrite Hs]; exact H.
Qed.

Lemma handleGenerateText_issued w s :
  issuedOutputIds s -> issuedOutputIds (handleGenerateText w s).
Proof.
  intros H. destruct (canGenerate_or_not s) as [Hcan | Hnot].
  - destruct (handleGenerateText_shape w Hcan) as (pre & us & -> & _).
    apply applyUpdates_issued, created_issued, H.
  - apply cannot_generate_alerts in Hnot. unfold handleGenerateText.
    destruct Hnot as [Hk | [Hk Hs]]; rewrite Hk; [|rewrite Hs]; exact H.
Qed.

(** The handlers that do not touch the output list. *)
Lemma handleDrop_outputs isTop targetId s :
  outputs (handleDrop isTop targetId s) = outputs s /\
  nextOutputId (handleDrop isTop targetId s) = nextOutputId s.
Proof.
  unfold handleDrop.
  destruct (isDragged (draggedId s) targetId); [auto|].
  destruct (findIndex _ (messages s)); [|auto].
  destruct (findIndex (hasId targetId) (messages s)); [|auto].
  destruct (spliceOut _ (messages s)) as [[|x taken] remaining]; auto.
Qed.

Lemma updateMessageText_outputs id text s :
  outputs (updateMessageText id text s) = outputs s /\
  nextOutputId (updateMessageText id text s) = nextOutputId s.
Proof.
  unfold updateMessageText. destruct (find _ _); auto.
Qed.

Lemma updateMessageImage_outputs w id file s :
  outputs (fst (updateMessageImage w id file s)) = outputs s /\
  nextOutputId (fst (updateMessageImage w id file s)) = nextOutputId s.
Proof.
  unfold updateMessageImage.
  destruct (negb (startsWith (blob_type file) (lit "image/"))); [auto|].
  unfold bind, get. destruct (find (hasId id) (messages s)); [|auto].
  unfold await, blobToDataUrl. destruct (readAsDataURL w file); auto.
Qed.

Lemma forOf_loadEntry_outputs w l : forall s,
  outputs (fst (forOf (loadEntry w) tt l s)) = outputs s /\
  nextOutputId (fst (forOf (loadEntry w) tt l s)) = nextOutputId s.
Proof.
  induction l as [|msg l IH]; intros s; [auto|].
  cbn [forOf]. unfold bind.
  destruct (fetchImage w msg) as [image|e] eqn:Hfetch.
  - rewrite (loadEntry_decoded _ _ _ Hfetch).
    destruct (IH (set_messages
                    (messages s ++ [mkMessage (ofNumber (nextId s))
                                              (tm_text msg) image])
                    (set_nextId (nextId s + 1) s))) as [A B].
    split; [exact A | exact B].
  - rewrite (loadEntry_failed _ _ _ Hfetch). auto.
Qed.

Lemma loadTemplate_outputs w templateName s :
  outputs (loadTemplate w templateName s) = outputs s /\
  nextOutputId (loadTemplate w templateName s) = nextOutputId s.
Proof.
  unfold loadTemplate, tryCatch.
  destruct (lookup w templateName) as [template| |]; [|auto..].
  unfold bind, modify, ret.
  set (entries := filter (fun m => negb (isSystem m)) (tmpl_messages template)).
  destruct (find isSystem (tmpl_messages template)) as [systemMsg|].
  - destruct (forOf_loadEntry_outputs w entries
                (saveSystemMessage (tm_text systemMsg)
                   (set_systemMessage (normalizeNewlines (tm_text systemMsg))
                      (set_nextId 1 (set_messages [] s))))) as [A B].
    destruct (forOf (loadEntry w) tt entries _) as [st' [[]|e]];
      simpl in *; split; congruence.
  - destruct (forOf_loadEntry_outputs w entries
                (set_nextId 1 (set_messages [] s))) as [A B].
    destruct (forOf (loadEntry w) tt entries _) as [st' [[]|e]];
      simpl in *; split; congruence.
Qed.

(** In every state of a session the ids of the output list were issued
    by its counter. *)
Lemma perform_issued w a s :
  issuedOutputIds s -> issuedOutputIds (perform w a s).
Proof.
  destruct a; cbn [perform];
    try (apply issuedOutputIds_same; simpl; [reflexivity | lia]).
  - destruct (updateMessageText_outputs id text s) as [A B].
    apply issuedOutputIds_same; [rewrite A | rewrite B; lia]; reflexivity.
  - destruct (updateMessageImage_outputs w id file s) as [A B].
    apply issuedOutputIds_same; [rewrite A | rewrite B; lia]; reflexivity.
  - destruct (handleDrop_outputs isTop targetId s) as [A B].
    apply issuedOutputIds_same; [rewrite A | rewrite B; lia]; reflexivity.
  - apply handleGenerateImage_issued.
  - apply handleGenerateText_issued.
  - intros H. apply (filter_issued (fun o => negb (hasOutputId id o))) in H.
    revert H. apply issuedOutputIds_same; simpl; [reflexivity | lia].
  - intros _ id [].
  - destruct (loadTemplate_outputs w templateName s) as [A B].
    apply issuedOutputIds_same; [rewrite A | rewrite B; lia]; reflexivity.
Qed.

Lemma reachable_issued w s : reachable w s -> issuedOutputIds s.
Proof.
  induction 1 as [apiKey systemMsg | a s _ IH].
  - intros id [].
  - apply perform_issued, IH.
Qed.

(** Looking one output up is not disturbed by what happens to the
    others. *)
Lemma find_after_mutating_other id id' imageUrl text (l : list OutputItem) :
  id <> id' ->
  find (hasOutputId id)
       (mutateFound (hasOutputId id')
                    (fun o => mkOutput (out_id o) imageUrl text false) l)
  = find (hasOutputId id) l.
Proof.
  intros Hneq. induction l as [|x l IH]; simpl; [reflexivity|].
  destruct (hasOutputId id' x) eqn:E'; simpl.
  - apply hasOutputId_true in E'.
    assert (hasOutputId id x = false) as E.
    { apply eqb_neq. congruence. }
    rewrite E. unfold hasOutputId at 1. simpl. 
    fold (hasOutputId id x). rewrite E. reflexivity.
  - rewrite IH. reflexivity.
Qed.

Lemma find_after_filtering_other id id' (l : list OutputItem) :
  id <> id' ->
  find (hasOutputId id) (filter (fun o => negb (hasOutputId id' o)) l)
  = find (hasOutputId id) l.
Proof.
  intros Hneq. induction l as [|x l IH]; simpl; [reflexivity|].
  destruct (hasOutputId id' x) eqn:E'; simpl.
  - apply hasOutputId_true in E'.
    assert (hasOutputId id x = false) as E by (apply eqb_neq; congruence).
    rewrite E. exact IH.
  - destruct (hasOutputId id x); [reflexivity | exact IH].
Qed.

Lemma loadingOf_present id l b :
  loadingOf id l = Some b -> In id (map out_id l).
Proof.
  unfold loadingOf. destruct (find (hasOutputId id) l) as [o|] eqn:E;
    [|discriminate].
  intros _. apply find_some in E as [Hin Ho]. apply hasOutputId_true in Ho.
  rewrite <- Ho. apply in_map, Hin.
Qed.

(** An update leaves a cleared output cleared. *)
Lemma updateOutput_stays_cleared id id' imageUrl text s :
  loadingOf id (outputs s) = Some false ->
  loadingOf id (outputs (updateOutput id' imageUrl text s)) = Some false.
Proof.
  intros H. destruct (eq_dec id id') as [<- | Hneq].
  - unfold loadingOf in *.
    destruct (find (hasOutputId id) (outputs s)) as [o|] eqn:E; [|discriminate].
    rewrite (updateOutput_result _ _ _ _ E). reflexivity.
  - unfold updateOutput.
    destruct (find (hasOutputId id') (outputs s)); [|exact H].
    unfold loadingOf in *. simpl.
    rewrite find_after_mutating_other by exact Hneq. exact H.
Qed.

Lemma applyUpdates_stays_cleared id id' us : forall s,
  loadingOf id (outputs s) = Some false ->
  loadingOf id (outputs (applyUpdates id' us s)) = Some false.
Proof.
  induction us as [|u us IH]; intros s H; [exact H|].
  apply IH, updateOutput_stays_cleared, H.
Qed.

(** A new output does not hide one that is there. *)
Lemma created_stays_cleared showImage id s pre :
  issuedOutputIds s ->
  loadingOf id (outputs s) = Some false ->
  loadingOf id
    (outputs (mkState (messages s) (nextId s) (created showImage s :: outputs s)
                      (nextOutputId s + 1) (draggedId s) (apiKeyInput s)
                      (systemMessage s) pre))
  = Some false.
Proof.
  intros Hissued H. simpl. unfold loadingOf. cbn [find].
  assert (hasOutputId id (created showImage s) = false) as E.
  { apply eqb_neq. simpl. intros Heq.
    destruct (Hissued id (loadingOf_present _ _ H)) as (n & Hlt & Hid).
    unfold newOutputId in Heq. rewrite Hid in Heq.
    apply ofNumber_inj in Heq. lia. }
  rewrite E. exact H.
Qed.

(** Nothing a user does takes a cleared output back to loading: it stays
    cleared or it is deleted. *)
Lemma perform_stays_cleared w a s id :
  issuedOutputIds s ->
  loadingOf id (outputs s) = Some false ->
  loadingOf id (outputs (perform w a s)) = Some false \/
  loadingOf id (outputs (perform w a s)) = None.
Proof.
  intros Hissued H.
  destruct a; cbn [perform]; try (left; exact H).
  - left. rewrite (proj1 (updateMessageText_outputs id0 text s)). exact H.
  - left. rewrite (proj1 (updateMessageImage_outputs w id0 file s)). exact H.
  - left. rewrite (proj1 (handleDrop_outputs isTop targetId s)). exact H.
  - left. destruct (canGenerate_or_not s) as [Hcan | Hnot].
    + destruct (handleGenerateImage_shape w Hcan) as (pre & u & -> & _).
      apply applyUpdates_stays_cleared, created_stays_cleared; assumption.
    + apply cannot_generate_alerts in Hnot. unfold handleGenerateImage.
      destruct Hnot as [Hk | [Hk Hs]]; rewrite Hk; [|rewrite Hs]; exact H.
  - left. destruct (canGenerate_or_not s) as [Hcan | Hnot].
    + destruct (handleGenerateText_shape w Hcan) as (pre & us & -> & _).
      apply applyUpdates_stays_cleared, created_stays_cleared; assumption.
    + apply cannot_generate_alerts in Hnot. unfold handleGenerateText.
      destruct Hnot as [Hk | [Hk Hs]]; rewrite Hk; [|rewrite Hs]; exact H.
  - destruct (eq_dec id id0) as [<- | Hneq].
    + right. unfold loadingOf.
      rewrite (find_hasOutputId_absent _ _ (deleteOutput_absent id s)).
      reflexivity.
    + left. unfold loadingOf in *. simpl.
      rewrite find_after_filtering_other by exact Hneq. exact H.
  - right. reflexivity.
  - left. rewrite (proj1 (loadTemplate_outputs w templateName s)). exact H.
Qed.


(* ------------------------------------------------------------------ *)
(** ** Identity of the message items *)

Lemma ids_mutateFound (p : MessageItem -> bool) (f : MessageItem -> MessageItem)
      (l : list MessageItem) :
  (forall msg, msg_id (f msg) = msg_id msg) ->
  map msg_id (mutateFound p f l) = map msg_id l.
Proof.
  intros Hf. induction l as [|x l IH]; simpl; [reflexivity|].
  destruct (p x); simpl; [rewrite Hf | rewrite IH]; reflexivity.
Qed.

(** Filtering a list of items with distinct ids leaves distinct ids. *)
Lemma ids_filter_NoDup (keep : MessageItem -> bool) (l : list MessageItem) :
  NoDup (map msg_id l) -> NoDup (map msg_id (filter keep l)).
Proof.
  induction l as [|x l IH]; simpl; intros H; [exact H|].
  inversion H as [|y ys Hnot Hrest]; subst.
  destruct (keep x); simpl; [|apply IH, Hrest].
  constructor; [|apply IH, Hrest].
  intros Hin. apply Hnot. apply in_map_iff in Hin as (z & Hz & Hin).
  apply filter_In in Hin as [Hin _]. rewrite <- Hz. apply in_map, Hin.
Qed.

(** Taking an element out of an array and putting it back somewhere
    permutes the array. *)
Lemma splice_Permutation {A} (l : list A) i k x taken remaining :
  spliceOut i l = (x :: taken, remaining) ->
  Permutation l (spliceIn k x remaining).
Proof.
  unfold spliceOut, spliceIn. intros [= Hx <-].
  assert (skipn i l = x :: skipn (S i) l) as Hskip.
  { clear k. revert i Hx. induction l as [|y l IH]; intros [|i] Hx; simpl in *;
      try discriminate.
    - injection Hx as -> _. reflexivity.
    - apply IH, Hx. }
  transitivity (x :: firstn i l ++ skipn (S i) l).
  - rewrite <- (firstn_skipn i l) at 1. rewrite Hskip.
    symmetry. apply Permutation_middle.
  - rewrite <- (firstn_skipn k (firstn i l ++ skipn (S i) l)) at 1.
    apply Permutation_middle.
Qed.

(** *** The invariant *)

Lemma wellFormedIds_same s s' :
  messages s' = messages s ->
  (nextId s <= nextId s')%N ->
  wellFormedIds s -> wellFormedIds s'.
Proof.
  unfold wellFormedIds, ids. intros Hm Hn [Hnodup Hissued]. rewrite Hm.
  split; [exact Hnodup|]. intros id Hin.
  destruct (Hissued id Hin) as (n & Hlt & Hid). exists n. split; [lia | exact Hid].
Qed.

Lemma wellFormedIds_permuted s s' :
  Permutation (messages s) (messages s') ->
  (nextId s <= nextId s')%N ->
  wellFormedIds s -> wellFormedIds s'.
Proof.
  unfold wellFormedIds, ids. intros Hp Hn [Hnodup Hissued].
  pose proof (Permutation_map msg_id Hp) as Hp'. split.
  - exact (Permutation_NoDup Hp' Hnodup).
  - intros id Hin. apply (Permutation_in _ (Permutation_sym Hp')) in Hin.
    destruct (Hissued id Hin) as (n & Hlt & Hid). exists n.
    split; [lia | exact Hid].
Qed.

(** An id the counter has not issued yet is not in the list. *)
Lemma wellFormedIds_fresh s n :
  wellFormedIds s -> (nextId s <= n)%N -> ~ In (ofNumber n) (ids s).
Proof.
  intros [_ Hissued] Hle Hin.
  destruct (Hissued _ Hin) as (m & Hlt & Heq).
  apply ofNumber_inj in Heq. lia.
Qed.

(** Appending an item under the next id, as [addItem] and the template
    loader do. *)
Lemma wellFormedIds_push s text image :
  wellFormedIds s ->
  wellFormedIds
    (set_messages (messages s ++ [mkMessage (ofNumber (nextId s)) text image])
                  (set_nextId (nextId s + 1) s)).
Proof.
  intros Hwf. pose proof (@wellFormedIds_fresh s (nextId s) Hwf (N.le_refl _))
    as Hfresh.
  destruct Hwf as [Hnodup Hissued]. unfold wellFormedIds, ids in *. simpl.
  rewrite map_app. simpl. split.
  - apply NoDup_app; [exact Hnodup | repeat constructor; simpl; tauto |].
    intros id Hin [<- | []]. exact (Hfresh Hin).
  - intros id Hin. apply in_app_or in Hin as [Hin | [<- | []]].
    + destruct (Hissued id Hin) as (n & Hlt & Hid). exists n.
      split; [lia | exact Hid].
    + exists (nextId s). split; [lia | reflexivity].
Qed.

Lemma addItem_ids s :
  ids (addItem s) = ids s ++ [ofNumber (nextId s)] /\
  nextId (addItem s) = (nextId s + 1)%N.
Proof. unfold ids. simpl. rewrite map_app. split; reflexivity. Qed.

Lemma addItem_wellFormed s : wellFormedIds s -> wellFormedIds (addItem s).
Proof.
  intros H. apply (@wellFormedIds_push s [] None) in H.
  revert H. apply wellFormedIds_same; simpl; [reflexivity | lia].
Qed.

Lemma deleteMessage_wellFormed id s :
  wellFormedIds s -> wellFormedIds (deleteMessage id s).
Proof.
  unfold wellFormedIds, ids. intros [Hnodup Hissued]. simpl. split.
  - apply ids_filter_NoDup, Hnodup.
  - intros x Hin. apply Hissued. apply in_map_iff in Hin as (m & Hm & Hin).
    apply filter_In in Hin as [Hin _]. rewrite <- Hm. apply in_map, Hin.
Qed.

Lemma handleDrop_wellFormed isTop targetId s :
  wellFormedIds s -> wellFormedIds (handleDrop isTop targetId s).
Proof.
  intros Hwf. unfold handleDrop.
  destruct (isDragged (draggedId s) targetId); [exact Hwf|].
  destruct (findIndex _ (messages s)) as [i|]; [|exact Hwf].
  destruct (findIndex (hasId targetId) (messages s)) as [j|]; [|exact Hwf].
  destruct (spliceOut i (messages s)) as [[|x taken] remaining] eqn:Hout;
    [exact Hwf|].
  revert Hwf. apply wellFormedIds_permuted; simpl; [|lia].
  exact (splice_Permutation _ Hout).
Qed.

Lemma reorder_wellFormed dragged target insertBefore s :
  wellFormedIds s -> wellFormedIds (reorder dragged target insertBefore s).
Proof.
  intros Hwf. unfold reorder.
  assert (wellFormedIds (handleDragStart dragged s)) as H1
    by (revert Hwf; apply wellFormedIds_same; simpl; [reflexivity | lia]).
  apply (handleDrop_wellFormed insertBefore target) in H1.
  revert H1. apply wellFormedIds_same; simpl; [reflexivity | lia].
Qed.

Lemma handleDrop_nextId isTop targetId s :
  nextId (handleDrop isTop targetId s) = nextId s.
Proof.
  unfold handleDrop.
  destruct (isDragged (draggedId s) targetId); [reflexivity|].
  destruct (findIndex _ (messages s)); [|reflexivity].
  destruct (findIndex (hasId targetId) (messages s)); [|reflexivity].
  destruct (spliceOut _ (messages s)) as [[|x taken] remaining]; reflexivity.
Qed.

Lemma reorder_nextId dragged target insertBefore s :
  nextId (reorder dragged target insertBefore s) = nextId s.
Proof. unfold reorder. simpl. rewrite handleDrop_nextId. reflexivity. Qed.

Lemma apply_wellFormed op s : wellFormedIds s -> wellFormedIds (apply op s).
Proof.
  destruct op; simpl.
  - apply addItem_wellFormed.
  - apply deleteMessage_wellFormed.
  - apply reorder_wellFormed.
Qed.

Lemma apply_nextId op s : (nextId s <= nextId (apply op s))%N.
Proof.
  destruct op; cbn [apply];
    [simpl; lia | simpl; lia | rewrite reorder_nextId; lia].
Qed.

(** *** Sequences of operations *)

Lemma run_wellFormed ops : forall s,
  wellFormedIds s -> Forall wellFormedIds (run ops s).
Proof.
  induction ops as [|op ops IH]; intros s H; simpl.
  - constructor; [exact H | constructor].
  - constructor; [exact H|]. apply IH, apply_wellFormed, H.
Qed.

Lemma run_nextId_from_start ops : forall s j sj,
  nth_error (run ops s) j = Some sj -> (nextId s <= nextId sj)%N.
Proof.
  induction ops as [|op ops IH]; intros s [|j] sj H; simpl in H.
  - injection H as <-. lia.
  - destruct j; discriminate.
  - injection H as <-. lia.
  - apply IH in H. pose proof (apply_nextId op s). lia.
Qed.

Lemma run_nextId_monotone ops : forall s i j si sj,
  i <= j ->
  nth_error (run ops s) i = Some si ->
  nth_error (run ops s) j = Some sj ->
  (nextId si <= nextId sj)%N.
Proof.
  induction ops as [|op ops IH]; intros s [|i] [|j] si sj Hle Hi Hj;
    try lia; simpl in Hi, Hj.
  - injection Hi as <-. injection Hj as <-. lia.
  - destruct j; discriminate.
  - destruct i; discriminate.
  - injection Hi as <-. injection Hj as <-. lia.
  - injection Hi as <-.
    apply run_nextId_from_start in Hj. pose proof (apply_nextId op s). lia.
  - apply (IH (apply op s) i j); [lia | exact Hi | exact Hj].
Qed.

(** *** Every handler keeps the invariant *)

Lemma wellFormedIds_same_ids s s' :
  ids s' = ids s ->
  (nextId s <= nextId s')%N ->
  wellFormedIds s -> wellFormedIds s'.
Proof.
  unfold wellFormedIds. intros Hm Hn [Hnodup Hissued]. rewrite Hm.
  split; [exact Hnodup|]. intros id Hin.
  destruct (Hissued id Hin) as (n & Hlt & Hid). exists n. split; [lia | exact Hid].
Qed.

Lemma wellFormedIds_empty s n :
  wellFormedIds (set_nextId n (set_messages [] s)).
Proof.
  split; [constructor | intros id []].
Qed.

Lemma updateMessageText_wellFormed id text s :
  wellFormedIds s -> wellFormedIds (updateMessageText id text s).
Proof.
  unfold updateMessageText. destruct (find (hasId id) (messages s)); [|tauto].
  apply wellFormedIds_same_ids; [|simpl; lia].
  unfold ids. simpl. apply ids_mutateFound. reflexivity.
Qed.

Lemma updateMessageImage_wellFormed w id file s :
  wellFormedIds s -> wellFormedIds (fst (updateMessageImage w id file s)).
Proof.
  unfold updateMessageImage.
  destruct (negb (startsWith (blob_type file) (lit "image/"))); [tauto|].
  unfold bind, get. destruct (find (hasId id) (messages s)); [|tauto].
  unfold await, blobToDataUrl. destruct (readAsDataURL w file); [|tauto].
  apply wellFormedIds_same_ids; [|simpl; lia].
  unfold ids. simpl. apply ids_mutateFound. reflexivity.
Qed.

(** The generation handlers leave the message list and its counter
    alone. *)
Lemma handleGenerateImage_items w s :
  messages (handleGenerateImage w s) = messages s /\
  nextId (handleGenerateImage w s) = nextId s.
Proof.
  destruct (canGenerate_or_not s) as [Hcan | Hnot].
  - destruct (handleGenerateImage_shape w Hcan) as (pre & u & -> & _).
    destruct (applyUpdates_frame (newOutputId s) [u]
      (mkState (messages s) (nextId s) (created true s :: outputs s)
         (nextOutputId s + 1) (draggedId s) (apiKeyInput s) (systemMessage s)
         (effects s ++ [RenderOutputs (created true s :: outputs s)] ++ pre)))
      as (A & B & _).
    split; [exact A | exact B].
  - apply cannot_generate_alerts in Hnot. unfold handleGenerateImage.
    destruct Hnot as [Hk | [Hk Hs]]; rewrite Hk; [|rewrite Hs];
      split; reflexivity.
Qed.

Lemma handleGenerateText_items w s :
  messages (handleGenerateText w s) = messages s /\
  nextId (handleGenerateText w s) = nextId s.
Proof.
  destruct (canGenerate_or_not s) as [Hcan | Hnot].
  - destruct (handleGenerateText_shape w Hcan) as (pre & us & -> & _).
    destruct (applyUpdates_frame (newOutputId s) us
      (mkState (messages s) (nextId s) (created false s :: outputs s)
         (nextOutputId s + 1) (draggedId s) (apiKeyInput s) (systemMessage s)
         (effects s ++ [RenderOutputs (created false s :: outputs s)] ++ pre)))
      as (A & B & _).
    split; [exact A | exact B].
  - apply cannot_generate_alerts in Hnot. unfold handleGenerateText.
    destruct Hnot as [Hk | [Hk Hs]]; rewrite Hk; [|rewrite Hs];
      split; reflexivity.
Qed.

(** The loop of the template loader keeps the invariant, whether it
    ends or throws. *)
Lemma forOf_loadEntry_wellFormed w l : forall s,
  wellFormedIds s -> wellFormedIds (fst (forOf (loadEntry w) tt l s)).
Proof.
  induction l as [|msg l IH]; intros s Hwf; [exact Hwf|].
  cbn [forOf]. unfold bind at 1.
  destruct (fetchImage w msg) as [image|e] eqn:Hfetch.
  - rewrite (loadEntry_decoded _ _ _ Hfetch). apply IH.
    apply wellFormedIds_push, Hwf.
  - rewrite (loadEntry_failed _ _ _ Hfetch). cbn [fst].
    revert Hwf. apply wellFormedIds_same; simpl; [reflexivity | lia].
Qed.

Lemma loadTemplate_wellFormed w templateName s :
  wellFormedIds s -> wellFormedIds (loadTemplate w templateName s).
Proof.
  intros Hwf. unfold loadTemplate, tryCatch.
  destruct (lookup w templateName) as [template| |].
  - unfold bind at 1 2. unfold modify at 1 2. unfold bind at 1.
    set (entries := filter (fun m => negb (isSystem m)) (tmpl_messages template)).
    assert (exists st, wellFormedIds st /\
              (match find isSystem (tmpl_messages template) with
               | Some systemMsg =>
                   modify (set_systemMessage
                             (normalizeNewlines (tm_text systemMsg))) ;;
                   modify (saveSystemMessage (tm_text systemMsg))
               | None => ret tt
               end) (set_nextId 1 (set_messages [] s)) = (st, Ok tt))
      as (st & Hst & ->).
    { destruct (find isSystem (tmpl_messages template)) as [systemMsg|].
      - eexists. split; [|reflexivity].
        apply (@wellFormedIds_same (set_nextId 1 (set_messages [] s)));
          [reflexivity | simpl; lia | apply wellFormedIds_empty].
      - eexists. split; [|reflexivity]. apply wellFormedIds_empty. }
    unfold bind at 1.
    pose proof (forOf_loadEntry_wellFormed w entries Hst) as Hloop.
    destruct (forOf (loadEntry w) tt entries st) as [st' [[]|e]];
      cbn [fst] in Hloop.
    + unfold bind, modify. revert Hloop.
      apply wellFormedIds_same; simpl; [reflexivity | lia].
    + revert Hloop. apply wellFormedIds_same; simpl; [reflexivity | lia].
  - split; [constructor | intros id []].
  - unfold throw. revert Hwf.
    apply wellFormedIds_same; simpl; [reflexivity | lia].
Qed.

Lemma perform_wellFormed w a s :
  wellFormedIds s -> wellFormedIds (perform w a s).
Proof.
  destruct a; cbn [perform].
  - apply addItem_wellFormed.
  - apply deleteMessage_wellFormed.
  - intros _. split; [constructor | intros id []].
  - apply updateMessageText_wellFormed.
  - apply updateMessageImage_wellFormed.
  - apply wellFormedIds_same; simpl; [reflexivity | lia].
  - apply handleDrop_wellFormed.
  - apply wellFormedIds_same; simpl; [reflexivity | lia].
  - destruct (handleGenerateImage_items w s) as [A B].
    apply wellFormedIds_same; [exact A | rewrite B; lia].
  - destruct (handleGenerateText_items w s) as [A B].
    apply wellFormedIds_same; [exact A | rewrite B; lia].
  - apply wellFormedIds_same; simpl; [reflexivity | lia].
  - apply wellFormedIds_same; simpl; [reflexivity | lia].
  - apply wellFormedIds_same; simpl; [reflexivity | lia].
  - apply wellFormedIds_same; simpl; [reflexivity | lia].
  - apply loadTemplate_wellFormed.
Qed.

(** In every state of a session the ids of the list are distinct and
    below the counter. *)
Lemma reachable_wellFormed w s : reachable w s -> wellFormedIds s.
Proof.
  induction 1 as [apiKey systemMsg | a s _ IH].
  - split; [constructor | intros id []].
  - apply perform_wellFormed, IH.
Qed.

Lemma run_step ops : forall s j sj op,
  nth_error (run ops s) j = Some sj ->
  nth_error ops j = Some op ->
  nth_error (run ops s) (S j) = Some (apply op sj).
Proof.
  induction ops as [|op' ops IH]; intros s [|j] sj op Hj Hop;
    simpl in Hop; try discriminate.
  - injection Hop as ->. simpl in Hj. injection Hj as <-.
    destruct ops; reflexivity.
  - simpl in Hj. exact (IH _ _ _ _ Hj Hop).
Qed.

(** C9. From any state of a session, along any sequence of add, delete
    and reorder operations: the ids of the list are distinct in every
    state; the counter never goes down; and every add gives the new item
    an id that is in none of the earlier states, so that the id of a
    deleted item does not come back. The same holds from any state in
    which the ids are distinct and were issued by the counter, however
    it was reached, as long as the counters stay within 2^53, where
    they are incremented exactly. *)
Theorem ids_unique_and_never_reissued (w : World) :
  (forall s ops,
      reachable w s ->
      Forall (fun st => NoDup (ids st)) (run ops s) /\
      (forall i j si sj,
          i <= j ->
          nth_error (run ops s) i = Some si ->
          nth_error (run ops s) j = Some sj ->
          (nextId si <= nextId sj)%N) /\
      (forall i j si sj,
          i <= j ->
          nth_error (run ops s) i = Some si ->
          nth_error (run ops s) j = Some sj ->
          nth_error ops j = Some Add ->
          exists id,
            nth_error (run ops s) (S j) = Some (addItem sj) /\
            ids (addItem sj) = ids sj ++ [id] /\
            ~ In id (ids si))) /\
  (forall s ops,
      wellFormedIds s ->
      Forall exactCounters (run ops s) ->
      Forall wellFormedIds (run ops s) /\
      (forall i j si sj,
          i <= j ->
          nth_error (run ops s) i = Some si ->
          nth_error (run ops s) j = Some sj ->
          (nextId si <= nextId sj)%N /\
          (nth_error ops j = Some Add ->
           nth_error (run ops s) (S j) = Some (addItem sj) /\
           ids (addItem sj) = ids sj ++ [ofNumber (nextId sj)] /\
           ~ In (ofNumber (nextId sj)) (ids si)))).
Proof.
  assert (forall s ops,
      wellFormedIds s ->
      Forall wellFormedIds (run ops s) /\
      (forall i j si sj,
          i <= j ->
          nth_error (run ops s) i = Some si ->
          nth_error (run ops s) j = Some sj ->
          (nextId si <= nextId sj)%N /\
          (nth_error ops j = Some Add ->
           nth_error (run ops s) (S j) = Some (addItem sj) /\
           ids (addItem sj) = ids sj ++ [ofNumber (nextId sj)] /\
           ~ In (ofNumber (nextId sj)) (ids si)))) as General.
  { intros s ops Hwf. pose proof (run_wellFormed ops Hwf) as Hall.
    split; [exact Hall|]. intros i j si sj Hle Hi Hj.
    pose proof (run_nextId_monotone ops s Hle Hi Hj) as Hmono.
    split; [exact Hmono|]. intros Hadd.
    split; [exact (run_step ops s j Hj Hadd) | split; [apply addItem_ids|]].
    apply wellFormedIds_fresh; [|exact Hmono].
    rewrite Forall_forall in Hall. apply Hall. exact (nth_error_In _ _ Hi). }
  split; [|intros s ops Hwf _; exact (General s ops Hwf)].
  intros s ops Hreach. apply reachable_wellFormed in Hreach.
  destruct (General s ops Hreach) as [Hall Hsteps]. split; [|split].
  - revert Hall. apply Forall_impl. intros st [H _]. exact H.
  - intros i j si sj Hle Hi Hj. exact (proj1 (Hsteps i j si sj Hle Hi Hj)).
  - intros i j si sj Hle Hi Hj Hadd.
    destruct (Hsteps i j si sj Hle Hi Hj) as [_ Hfresh].
    destruct (Hfresh Hadd) as (Hnext & Hids & Hnot).
    exists (ofNumber (nextId sj)). auto.
Qed.

Lemma ids_unique_and_never_reissued_witness :
  reachable Sample.world Sample.ready /\
  map ids (run [Add; Add; Delete (lit "1"); Add;
                Reorder (lit "3") (lit "2") true] Sample.ready)
  = [ []; [lit "1"]; [lit "1"; lit "2"]; [lit "2"]; [lit "2"; lit "3"];
      [lit "3"; lit "2"] ] /\
  Forall (fun st => NoDup (ids st))
         (run [Add; Add; Delete (lit "1"); Add;
               Reorder (lit "3") (lit "2") true] Sample.ready) /\
  (exists id,
      ids (addItem (deleteMessage (lit "1") (addItem (addItem Sample.ready))))
      = [lit "2"] ++ [id] /\
      ~ In id (ids (addItem (addItem Sample.ready)))) /\
  wellFormedIds Sample.withPicture /\
  Forall exactCounters (run [Add; Delete (lit "1")] Sample.withPicture) /\
  Forall wellFormedIds (run [Add; Delete (lit "1")] Sample.withPicture).
Proof.
  assert (reachable Sample.world Sample.ready) as Hreach by constructor.
  destruct (proj1 (ids_unique_and_never_reissued Sample.world)
              Sample.ready
              [Add; Add; Delete (lit "1"); Add;
               Reorder (lit "3") (lit "2") true] Hreach)
    as (Hnodup & _ & Hfresh).
  split; [exact Hreach | split; [reflexivity | split; [exact Hnodup|]]].
  split.
  - destruct (Hfresh 2 3 (addItem (addItem Sample.ready))
                (deleteMessage (lit "1") (addItem (addItem Sample.ready))))
      as (id & _ & Hids & Hnot); try reflexivity.
    + lia.
    + exists id. split; [exact Hids | exact Hnot].
  - assert (wellFormedIds Sample.withPicture) as Hwf.
    { split.
      - repeat constructor. simpl. tauto.
      - intros id [<- | []]. exists 1%N. split; [reflexivity | reflexivity]. }
    assert (Forall exactCounters
                   (run [Add; Delete (lit "1")] Sample.withPicture)) as Hexact.
    { repeat (constructor; [split; vm_compute; discriminate|]). constructor. }
    split; [exact Hwf | split; [exact Hexact|]].
    exact (proj1 (proj2 (ids_unique_and_never_reissued Sample.world)
                    Sample.withPicture [Add; Delete (lit "1")] Hwf Hexact)).
Defined.

(* ------------------------------------------------------------------ *)
(** ** What a handler may do to the output list *)

Lemma applyUpdates_inputs id us : forall s,
  draggedId (applyUpdates id us s) = draggedId s /\
  apiKeyInput (applyUpdates id us s) = apiKeyInput s /\
  systemMessage (applyUpdates id us s) = systemMessage s.
Proof.
  induction us as [|u us IH]; intros s; [auto|].
  cbn [applyUpdates fold_left].
  destruct (IH (updateOutput id (fst u) (snd u) s)) as (A & B & C).
  unfold applyUpdates in *. rewrite A, B, C.
  unfold updateOutput. destruct (find _ _); auto.
Qed.

Lemma flow_frame showImage s pre us :
  us <> [] ->
  let s' :=
    applyUpdates (newOutputId s) us
      (mkState (messages s) (nextId s) (created showImage s :: outputs s)
               (nextOutputId s + 1) (draggedId s) (apiKeyInput s)
               (systemMessage s)
               (effects s ++ [RenderOutputs (created showImage s :: outputs s)]
                ++ pre)) in
  messages s' = messages s /\ nextId s' = nextId s /\
  draggedId s' = draggedId s /\ apiKeyInput s' = apiKeyInput s /\
  systemMessage s' = systemMessage s /\
  nextOutputId s' = (nextOutputId s + 1)%N /\
  exists o, outputs s' = o :: outputs s /\ out_id o = newOutputId s /\
            out_loading o = false.
Proof.
  intros Hus s'.
  destruct (applyUpdates_frame (newOutputId s) us
      (mkState (messages s) (nextId s) (created showImage s :: outputs s)
         (nextOutputId s + 1) (draggedId s) (apiKeyInput s) (systemMessage s)
         (effects s ++ [RenderOutputs (created showImage s :: outputs s)] ++ pre)))
    as (A & B & C).
  destruct (applyUpdates_inputs (newOutputId s) us
      (mkState (messages s) (nextId s) (created showImage s :: outputs s)
         (nextOutputId s + 1) (draggedId s) (apiKeyInput s) (systemMessage s)
         (effects s ++ [RenderOutputs (created showImage s :: outputs s)] ++ pre)))
    as (D & E & F).
  fold s' in A, B, C, D, E, F.
  split; [exact A|]. split; [exact B|]. split; [exact D|]. split; [exact E|].
  split; [exact F|]. split; [exact C|].
  assert (outputs s'
          = match rev us with
            | [] => created showImage s
            | u :: _ => mkOutput (newOutputId s) (fst u) (snd u) false
            end :: outputs s) as Hout.
  { unfold s'. apply applyUpdates_front; reflexivity. }
  destruct (rev us) as [|u rest] eqn:Hrev.
  { exfalso. apply Hus. rewrite <- (rev_involutive us), Hrev. reflexivity. }
  eexists. split; [exact Hout | split; reflexivity].
Qed.

Lemma handleGenerateImage_frame w s :
  messages (handleGenerateImage w s) = messages s /\
  nextId (handleGenerateImage w s) = nextId s /\
  draggedId (handleGenerateImage w s) = draggedId s /\
  apiKeyInput (handleGenerateImage w s) = apiKeyInput s /\
  systemMessage (handleGenerateImage w s) = systemMessage s /\
  ((outputs (handleGenerateImage w s) = outputs s /\
    nextOutputId (handleGenerateImage w s) = nextOutputId s) \/
   (nextOutputId (handleGenerateImage w s) = (nextOutputId s + 1)%N /\
    exists o, outputs (handleGenerateImage w s) = o :: outputs s /\
              out_id o = newOutputId s /\ out_loading o = false)).
Proof.
  destruct (canGenerate_or_not s) as [Hcan | Hnot].
  - destruct (handleGenerateImage_shape w Hcan) as (pre & u & -> & _).
    destruct (@flow_frame true s pre [u]) as (A & B & C & D & E & F & G);
      [discriminate|].
    repeat (split; [assumption|]). right. split; assumption.
  - apply cannot_generate_alerts in Hnot. unfold handleGenerateImage.
    destruct Hnot as [Hk | [Hk Hs]]; rewrite Hk; [|rewrite Hs];
      repeat (split; [reflexivity|]); left; split; reflexivity.
Qed.

Lemma handleGenerateText_frame w s :
  messages (handleGenerateText w s) = messages s /\
  nextId (handleGenerateText w s) = nextId s /\
  draggedId (handleGenerateText w s) = draggedId s /\
  apiKeyInput (handleGenerateText w s) = apiKeyInput s /\
  systemMessage (handleGenerateText w s) = systemMessage s /\
  ((outputs (handleGenerateText w s) = outputs s /\
    nextOutputId (handleGenerateText w s) = nextOutputId s) \/
   (nextOutputId (handleGenerateText w s) = (nextOutputId s + 1)%N /\
    exists o, outputs (handleGenerateText w s) = o :: outputs s /\
              out_id o = newOutputId s /\ out_loading o = false)).
Proof.
  destruct (canGenerate_or_not s) as [Hcan | Hnot].
  - destruct (handleGenerateText_shape w Hcan) as (pre & us & -> & _ & Hlen).
    destruct (@flow_frame false s pre us) as (A & B & C & D & E & F & G).
    { intros ->. discriminate Hlen. }
    repeat (split; [assumption|]). right. split; assumption.
  - apply cannot_generate_alerts in Hnot. unfold handleGenerateText.
    destruct Hnot as [Hk | [Hk Hs]]; rewrite Hk; [|rewrite Hs];
      repeat (split; [reflexivity|]); left; split; reflexivity.
Qed.

Lemma filter_all {A} (l : list A) : filter (fun _ => true) l = l.
Proof. induction l as [|x l IH]; cbn; [|rewrite IH]; reflexivity. Qed.

Lemma out_ids_filter (keep : jsstring -> bool) (l : list OutputItem) :
  map out_id (filter (fun o => keep (out_id o)) l)
  = filter keep (map out_id l).
Proof.
  induction l as [|x l IH]; [reflexivity|]. cbn [filter map].
  destruct (keep (out_id x)); cbn [map]; rewrite IH; reflexivity.
Qed.

(** What any handler does to the ids of the output list: it keeps them,
    removes some, or puts the id of the counter in front. *)
Lemma perform_output_ids w a s :
  (nextOutputId (perform w a s) = nextOutputId s /\
   exists keep,
     map out_id (outputs (perform w a s))
     = filter keep (map out_id (outputs s))) \/
  (nextOutputId (perform w a s) = (nextOutputId s + 1)%N /\
   map out_id (outputs (perform w a s))
   = newOutputId s :: map out_id (outputs s)).
Proof.
  assert (forall s', outputs s' = outputs s /\ nextOutputId s' = nextOutputId s ->
                     (nextOutputId s' = nextOutputId s /\
                      exists keep,
                        map out_id (outputs s')
                        = filter keep (map out_id (outputs s))) \/
                     (nextOutputId s' = (nextOutputId s + 1)%N /\
                      map out_id (outputs s')
                      = newOutputId s :: map out_id (outputs s))) as Hsame.
  { intros s' [A B]. left. split; [exact B|]. exists (fun _ => true).
    rewrite A, filter_all. reflexivity. }
  destruct a; cbn [perform]; try (apply Hsame; split; reflexivity).
  - apply Hsame, updateMessageText_outputs.
  - apply Hsame, updateMessageImage_outputs.
  - apply Hsame, handleDrop_outputs.
  - destruct (handleGenerateImage_frame w s)
      as (_ & _ & _ & _ & _ & [H | (Hn & o & Ho & Hid & _)]).
    + apply Hsame, H.
    + right. split; [exact Hn|]. rewrite Ho. cbn [map]. rewrite Hid.
      reflexivity.
  - destruct (handleGenerateText_frame w s)
      as (_ & _ & _ & _ & _ & [H | (Hn & o & Ho & Hid & _)]).
    + apply Hsame, H.
    + right. split; [exact Hn|]. rewrite Ho. cbn [map]. rewrite Hid.
      reflexivity.
  - left. split; [reflexivity|]. exists (fun id' => negb (eqb id' id)).
    cbn [deleteOutput outputs saveOutputs renderOutputs emit set_outputs].
    apply (out_ids_filter (fun id' => negb (eqb id' id))).
  - left. split; [reflexivity|]. exists (fun _ => false).
    cbn [deleteAllOutputs outputs saveOutputs renderOutputs emit set_outputs].
    clear Hsame.
    induction (map out_id (outputs s)) as [|x l IH]; [reflexivity | exact IH].
  - apply Hsame, loadTemplate_outputs.
Qed.


(* ------------------------------------------------------------------ *)
(** ** Clearing of the loading flag, with the user in between *)

Lemma loadingOf_absent id l :
  ~ In id (map out_id l) -> loadingOf id l = None.
Proof.
  intros H. unfold loadingOf. rewrite (find_hasOutputId_absent _ _ H).
  reflexivity.
Qed.

Lemma loadingOf_None id l :
  loadingOf id l = None -> ~ In id (map out_id l).
Proof.
  unfold loadingOf. destruct (find (hasOutputId id) l) as [o|] eqn:E;
    [discriminate|].
  intros _ Hin. apply in_map_iff in Hin as (o & Ho & Hin).
  pose proof (proj1 (find_None (hasOutputId id) l) E o Hin) as Hno.
  apply hasOutputId_true in Ho. congruence.
Qed.

(** An update clears its output, when the output is there. *)
Lemma updateOutput_clears id imageUrl text s :
  loadingOf id (outputs (updateOutput id imageUrl text s))
  = match loadingOf id (outputs s) with
    | Some _ => Some false
    | None => None
    end.
Proof.
  unfold loadingOf.
  destruct (find (hasOutputId id) (outputs s)) as [o|] eqn:E.
  - rewrite (updateOutput_result _ _ _ _ E). reflexivity.
  - unfold updateOutput. rewrite E, E. reflexivity.
Qed.

(** What happens to the other outputs does not touch the flag. *)
Lemma updateOutput_other id id' imageUrl text s :
  id <> id' ->
  loadingOf id (outputs (updateOutput id' imageUrl text s))
  = loadingOf id (outputs s).
Proof.
  intros Hneq. unfold updateOutput.
  destruct (find (hasOutputId id') (outputs s)); [|reflexivity].
  unfold loadingOf. cbn [outputs saveOutputs renderOutputs emit set_outputs].
  rewrite find_after_mutating_other by exact Hneq. reflexivity.
Qed.

Lemma applyUpdates_other id id' us : forall s,
  id <> id' ->
  loadingOf id (outputs (applyUpdates id' us s)) = loadingOf id (outputs s).
Proof.
  induction us as [|u us IH]; intros s Hneq; [reflexivity|].
  change (applyUpdates id' (u :: us) s)
    with (applyUpdates id' us (updateOutput id' (fst u) (snd u) s)).
  rewrite (IH _ Hneq). apply updateOutput_other, Hneq.
Qed.

Lemma issued_not_new id s :
  issuedOutputIds s -> In id (map out_id (outputs s)) -> id <> newOutputId s.
Proof.
  intros Hissued Hin Heq. destruct (Hissued id Hin) as (n & Hlt & Hid).
  unfold newOutputId in Heq. rewrite Hid in Heq.
  apply ofNumber_inj in Heq. lia.
Qed.

Lemma created_other showImage id s pre :
  id <> newOutputId s ->
  loadingOf id
    (outputs (mkState (messages s) (nextId s) (created showImage s :: outputs s)
                      (nextOutputId s + 1) (draggedId s) (apiKeyInput s)
                      (systemMessage s) pre))
  = loadingOf id (outputs s).
Proof.
  intros Hneq. cbn [outputs]. unfold loadingOf. cbn [find].
  assert (hasOutputId id (created showImage s) = false) as E.
  { apply eqb_neq. cbn [created out_id]. congruence. }
  rewrite E. reflexivity.
Qed.

(** A handler leaves the flag of an output it does not delete as it
    is. *)
Lemma perform_other w a s id :
  id <> newOutputId s ->
  keeps id (Handled a) ->
  loadingOf id (outputs (perform w a s)) = loadingOf id (outputs s).
Proof.
  intros Hnew Hkeeps. destruct a; cbn [perform]; try reflexivity.
  - rewrite (proj1 (updateMessageText_outputs id0 text s)). reflexivity.
  - rewrite (proj1 (updateMessageImage_outputs w id0 file s)). reflexivity.
  - rewrite (proj1 (handleDrop_outputs isTop targetId s)). reflexivity.
  - destruct (canGenerate_or_not s) as [Hcan | Hnot].
    + destruct (handleGenerateImage_shape w Hcan) as (pre & u & -> & _).
      rewrite applyUpdates_other by exact Hnew. apply created_other, Hnew.
    + apply cannot_generate_alerts in Hnot. unfold handleGenerateImage.
      destruct Hnot as [Hk | [Hk Hs]]; rewrite Hk; [|rewrite Hs]; reflexivity.
  - destruct (canGenerate_or_not s) as [Hcan | Hnot].
    + destruct (handleGenerateText_shape w Hcan) as (pre & us & -> & _).
      rewrite applyUpdates_other by exact Hnew. apply created_other, Hnew.
    + apply cannot_generate_alerts in Hnot. unfold handleGenerateText.
      destruct Hnot as [Hk | [Hk Hs]]; rewrite Hk; [|rewrite Hs]; reflexivity.
  - cbn [keeps] in Hkeeps. unfold loadingOf.
    cbn [deleteOutput outputs saveOutputs renderOutputs emit set_outputs].
    rewrite find_after_filtering_other by congruence. reflexivity.
  - destruct Hkeeps.
  - rewrite (proj1 (loadTemplate_outputs w templateName s)). reflexivity.
Qed.

(** *** One step *)

Lemma occur_issued w e s :
  issuedOutputIds s -> issuedOutputIds (occur w e s).
Proof.
  destruct e as [a | showImage | id imageUrl text]; cbn [occur].
  - apply perform_issued.
  - intros H.
    exact (@created_issued showImage s
             (effects s ++ [RenderOutputs (created showImage s :: outputs s)])
             H).
  - apply updateOutput_issued.
Qed.

Lemma occur_counter w e s :
  (nextOutputId s <= nextOutputId (occur w e s))%N.
Proof.
  destruct e as [a | showImage | id imageUrl text]; cbn [occur].
  - destruct (perform_output_ids w a s) as [[-> _] | [-> _]]; lia.
  - cbn. lia.
  - destruct (updateOutput_frame id imageUrl text s) as (_ & _ & ->). lia.
Qed.

(** The ids of the output list after a step: those of before, or some
    of them, or those of before behind the id of the counter. *)
Lemma occur_output_ids w e s id :
  In id (map out_id (outputs (occur w e s))) ->
  In id (map out_id (outputs s)) \/ id = newOutputId s.
Proof.
  destruct e as [a | showImage | id' imageUrl text]; cbn [occur].
  - destruct (perform_output_ids w a s) as [[_ (keep & ->)] | [_ ->]].
    + intros Hin. apply filter_In in Hin as [Hin _]. left. exact Hin.
    + intros [<- | Hin]; [right; reflexivity | left; exact Hin].
  - cbn. intros [<- | Hin]; [right; reflexivity | left; exact Hin].
  - unfold updateOutput. destruct (find (hasOutputId id') (outputs s));
      [|left; assumption].
    cbn [outputs saveOutputs renderOutputs emit set_outputs].
    rewrite out_ids_mutateFound. left. assumption.
Qed.

(** A step that neither deletes nor updates the output leaves its flag
    as it is; an update clears it. *)
Lemma occur_undisturbed w e s id b :
  issuedOutputIds s ->
  loadingOf id (outputs s) = Some b ->
  keeps id e ->
  ~ updates id e ->
  loadingOf id (outputs (occur w e s)) = Some b.
Proof.
  intros Hissued Hb Hkeeps Hother.
  pose proof (@issued_not_new id s Hissued (loadingOf_present _ _ Hb)) as Hnew.
  destruct e as [a | showImage | id' imageUrl text]; cbn [occur].
  - rewrite perform_other by assumption. exact Hb.
  - rewrite <- Hb.
    exact (@created_other showImage id s
             (effects s ++ [RenderOutputs (created showImage s :: outputs s)])
             Hnew).
  - rewrite updateOutput_other; [exact Hb|].
    intros Heq. apply Hother. cbn [updates]. congruence.
Qed.

Lemma updates_dec id e : {updates id e} + {~ updates id e}.
Proof.
  destruct e as [a | showImage | id' imageUrl text]; cbn [updates];
    [right; tauto | right; tauto | apply eq_dec].
Qed.

(** An output that is not loading and cannot be created again stays
    so. *)
Lemma occur_retired w e s id :
  issuedOutputIds s -> retired id s -> retired id (occur w e s).
Proof.
  intros Hissued [Hnot Hold]. split.
  - intros Hloading.
    destruct (@occur_output_ids w e s id (loadingOf_present _ _ Hloading))
      as [Hin | Hnew].
    + destruct (loadingOf id (outputs s)) as [[|]|] eqn:Hb.
      * apply Hnot. reflexivity.
      * destruct (updates_dec id e) as [Hup | Hother].
        -- destruct e as [a | showImage | id' imageUrl text];
             cbn [updates] in Hup; try destruct Hup.
           cbn [occur] in Hloading.
           rewrite updateOutput_clears, Hb in Hloading. discriminate.
        -- destruct e as [a | showImage | id' imageUrl text].
           ++ cbn [occur] in Hloading.
              destruct (@perform_stays_cleared w a s id Hissued Hb)
                as [H | H]; congruence.
           ++ rewrite (@occur_undisturbed w (Begun showImage) s id false
                         Hissued Hb I Hother) in Hloading.
              discriminate.
           ++ rewrite (@occur_undisturbed w (Updated id' imageUrl text) s id
                         false Hissued Hb I Hother) in Hloading.
              discriminate.
      * exact (@loadingOf_None id (outputs s) Hb Hin).
    + specialize (Hold (nextOutputId s) Hnew). lia.
  - intros n Hn. specialize (Hold n Hn).
    pose proof (occur_counter w e s). lia.
Qed.

Lemma present_retired id s :
  issuedOutputIds s ->
  loadingOf id (outputs s) = Some false ->
  retired id s.
Proof.
  intros Hissued Hb. split; [congruence|]. intros n Hn.
  destruct (Hissued id (loadingOf_present _ _ Hb)) as (m & Hlt & Hm).
  rewrite Hn in Hm. apply ofNumber_inj in Hm. subst m. exact Hlt.
Qed.

(** *** Histories *)

Lemma history_step w id e trace s :
  history w id (e :: trace) s
  = loadingOf id (outputs s) :: history w id trace (occur w e s).
Proof. reflexivity. Qed.

Lemma history_head w id trace s :
  exists rest, history w id trace s = loadingOf id (outputs s) :: rest.
Proof. destruct trace; eexists; reflexivity. Qed.

Lemma clearings_step before after rest :
  clearings (before :: after :: rest)
  = match before, after with
    | Some true, Some false => 1
    | _, _ => 0
    end + clearings (after :: rest).
Proof. reflexivity. Qed.

Lemma retired_history w id trace : forall s,
  issuedOutputIds s ->
  retired id s ->
  Forall (fun flag => flag <> Some true) (history w id trace s) /\
  clearings (history w id trace s) = 0.
Proof.
  induction trace as [|e trace IH]; intros s Hissued Hret.
  - split; [|reflexivity]. constructor; [exact (proj1 Hret) | constructor].
  - destruct (IH (occur w e s) (@occur_issued w e s Hissued)
                 (@occur_retired w e s id Hissued Hret)) as [Hall Hzero].
    rewrite history_step. split; [constructor; [exact (proj1 Hret) | exact Hall]|].
    destruct (history_head w id trace (occur w e s)) as [rest Hrest].
    rewrite Hrest in *. rewrite clearings_step, Hzero.
    destruct (loadingOf id (outputs s)) as [[|]|] eqn:Hb;
      [exfalso; exact (proj1 Hret Hb) | reflexivity..].
Qed.

Lemma history_clearings w id trace : forall s,
  issuedOutputIds s -> clearings (history w id trace s) <= 1.
Proof.
  induction trace as [|e trace IH]; intros s Hissued; [cbn; lia|].
  rewrite history_step.
  pose proof (IH (occur w e s) (@occur_issued w e s Hissued)) as Htail.
  destruct (history_head w id trace (occur w e s)) as [rest Hrest].
  rewrite Hrest in *. rewrite clearings_step.
  destruct (loadingOf id (outputs s)) as [[|]|] eqn:Hb; [|exact Htail..].
  destruct (loadingOf id (outputs (occur w e s))) as [[|]|] eqn:Hb';
    [exact Htail | | exact Htail].
  assert (retired id (occur w e s)) as Hret
    by (apply present_retired; [apply occur_issued; exact Hissued | exact Hb']).
  destruct (@retired_history w id trace _ (@occur_issued w e s Hissued) Hret)
    as [_ Hzero].
  rewrite Hrest in Hzero. rewrite Hzero. lia.
Qed.

Lemma history_stays_cleared w id trace : forall s i j,
  issuedOutputIds s ->
  i <= j ->
  nth_error (history w id trace s) i = Some (Some false) ->
  nth_error (history w id trace s) j <> Some (Some true).
Proof.
  induction trace as [|e trace IH]; intros s i j Hissued Hle Hi.
  - destruct i as [|i]; [|destruct i; discriminate Hi].
    injection Hi as Hb.
    destruct j as [|j]; [cbn; congruence | destruct j; discriminate].
  - rewrite history_step in *. destruct i as [|i].
    + injection Hi as Hb.
      destruct (@retired_history w id (e :: trace) s Hissued
                  (@present_retired id s Hissued Hb)) as [Hall _].
      rewrite history_step in Hall. intros Hj.
      apply nth_error_In in Hj. rewrite Forall_forall in Hall.
      exact (Hall _ Hj eq_refl).
    + destruct j as [|j]; [lia|]. cbn [nth_error] in *.
      apply (IH (occur w e s) i j); [apply occur_issued; exact Hissued | lia | exact Hi].
Qed.

Lemma last_history w id e trace s :
  last (history w id (e :: trace) s) None
  = last (history w id trace (occur w e s)) None.
Proof.
  rewrite history_step.
  destruct (history_head w id trace (occur w e s)) as [rest ->].
  reflexivity.
Qed.

(** Once cleared, and not deleted, the flag is false to the end. *)
Lemma cleared_history w id trace : forall s,
  issuedOutputIds s ->
  loadingOf id (outputs s) = Some false ->
  Forall (keeps id) trace ->
  clearings (history w id trace s) = 0 /\
  last (history w id trace s) None = Some false.
Proof.
  induction trace as [|e trace IH]; intros s Hissued Hb Hkeeps.
  - split; [reflexivity | exact Hb].
  - inversion Hkeeps as [|x xs Hkeep Hrest]; subst.
    assert (loadingOf id (outputs (occur w e s)) = Some false) as Hb'.
    { destruct (updates_dec id e) as [Hup | Hother].
      - destruct e as [a | showImage | id' imageUrl text];
          cbn [updates] in Hup; try destruct Hup.
        cbn [occur]. rewrite updateOutput_clears, Hb. reflexivity.
      - apply occur_undisturbed; assumption. }
    destruct (IH _ (@occur_issued w e s Hissued) Hb' Hrest) as [Hzero Hlast].
    split.
    + destruct (@retired_history w id (e :: trace) s Hissued
                  (@present_retired id s Hissued Hb)) as [_ H]. exact H.
    + rewrite last_history. exact Hlast.
Qed.

(** While loading, and not deleted, the flag is cleared by the first
    update that arrives, and by that one only. *)
Lemma loading_history w id trace : forall s,
  issuedOutputIds s ->
  loadingOf id (outputs s) = Some true ->
  Forall (keeps id) trace ->
  Exists (updates id) trace ->
  clearings (history w id trace s) = 1 /\
  last (history w id trace s) None = Some false.
Proof.
  induction trace as [|e trace IH]; intros s Hissued Hb Hkeeps Hex;
    [inversion Hex|].
  inversion Hkeeps as [|x xs Hkeep Hrest]; subst.
  rewrite last_history, history_step.
  destruct (history_head w id trace (occur w e s)) as [rest Hrest'].
  destruct (updates_dec id e) as [Hup | Hother].
  - assert (loadingOf id (outputs (occur w e s)) = Some false) as Hb'.
    { destruct e as [a | showImage | id' imageUrl text];
        cbn [updates] in Hup; try destruct Hup.
      cbn [occur]. rewrite updateOutput_clears, Hb. reflexivity. }
    destruct (@cleared_history w id trace _ (@occur_issued w e s Hissued)
                Hb' Hrest) as [Hzero Hlast].
    split; [|exact Hlast].
    rewrite Hrest' in *. rewrite clearings_step, Hzero, Hb, Hb'. reflexivity.
  - assert (loadingOf id (outputs (occur w e s)) = Some true) as Hb'
      by (apply occur_undisturbed; assumption).
    assert (Exists (updates id) trace) as Hex'.
    { inversion Hex as [x xs H | x xs H]; subst; [contradiction | exact H]. }
    destruct (IH _ (@occur_issued w e s Hissued) Hb' Hrest Hex')
      as [Hone Hlast].
    split; [|exact Hlast].
    rewrite Hrest' in *. rewrite clearings_step, Hone, Hb, Hb'. reflexivity.
Qed.

(** C4, as stated, does not hold: an output that the user deletes while
    its generation waits is never cleared. When the output "1" is
    deleted before the update of its generation arrives, its flag is
    absent, loading, absent, absent: no update takes it from true to
    false, and it is not there in the end. *)
Lemma deleted_output_is_never_cleared : ~ everyOutputClearedExactlyOnce.
Proof.
  intros H.
  destruct (H Sample.world Sample.ready false [DeleteOutput (lit "1")]
              [(None, lit "Hello")]
              (reachable_initial Sample.world (lit "key") (lit "Be brief.")))
    as [Hcleared _]; [discriminate|].
  vm_compute in Hcleared. discriminate Hcleared.
Qed.

(** C4, amended. The output a generation creates goes from loading to
    not loading at most once, whatever the user does and whatever other
    generations do while it waits: along any sequence of handlers,
    creations and updates, at most one step takes the flag of an output
    from true to false, and a flag that is false never is true again;
    every update leaves its output not loading, when the output is
    there. When the output is not deleted meanwhile, exactly one of the
    updates its generation applies to it takes the flag from true to
    false, and it is not loading in the end; so it is with the outputs
    of the two handlers when they run undisturbed. (Which of the
    updates writes the final content is not part of the statement.) *)
Theorem loading_cleared_at_most_once (w : World) :
  (forall s trace id,
      reachable w s ->
      clearings (history w id trace s) <= 1) /\
  (forall s trace id i j,
      reachable w s ->
      i <= j ->
      nth_error (history w id trace s) i = Some (Some false) ->
      nth_error (history w id trace s) j <> Some (Some true)) /\
  (forall s id imageUrl text,
      loadingOf id (outputs (updateOutput id imageUrl text s))
      = match loadingOf id (outputs s) with
        | Some _ => Some false
        | None => None
        end) /\
  (forall s showImage trace,
      reachable w s ->
      Forall (keeps (newOutputId s)) trace ->
      Exists (updates (newOutputId s)) trace ->
      clearings (history w (newOutputId s) (Begun showImage :: trace) s) = 1 /\
      last (history w (newOutputId s) (Begun showImage :: trace) s) None
      = Some false) /\
  (forall s,
      canGenerate s ->
      (clearings (map (loadingOf (newOutputId s))
                      (rendered (since s (handleGenerateImage w s)))) = 1 /\
       loadingOf (newOutputId s) (outputs (handleGenerateImage w s))
       = Some false) /\
      (clearings (map (loadingOf (newOutputId s))
                      (rendered (since s (handleGenerateText w s)))) = 1 /\
       loadingOf (newOutputId s) (outputs (handleGenerateText w s))
       = Some false)).
Proof.
  split; [|split; [|split; [|split]]].
  - intros s trace id Hreach.
    apply history_clearings, (reachable_issued Hreach).
  - intros s trace id i j Hreach.
    apply history_stays_cleared, (reachable_issued Hreach).
  - intros s id imageUrl text. apply updateOutput_clears.
  - intros s showImage trace Hreach Hkeeps Hex.
    pose proof (reachable_issued Hreach) as Hissued.
    assert (loadingOf (newOutputId s) (outputs s) = None) as Hfresh.
    { apply loadingOf_absent. intros Hin.
      exact (@issued_not_new (newOutputId s) s Hissued Hin eq_refl). }
    assert (loadingOf (newOutputId s)
                      (outputs (occur w (Begun showImage) s)) = Some true)
      as Hloading.
    { cbn [occur]. unfold loadingOf. rewrite addOutput_found. reflexivity. }
    destruct (@loading_history w (newOutputId s) trace _
                (@occur_issued w (Begun showImage) s Hissued)
                Hloading Hkeeps Hex) as [Hone Hlast].
    rewrite last_history. split; [|exact Hlast].
    rewrite history_step.
    destruct (history_head w (newOutputId s) trace
                (occur w (Begun showImage) s)) as [rest Hrest].
    rewrite Hrest in *. rewrite clearings_step, Hfresh. exact Hone.
  - intros s Hcan. split.
    + destruct (handleGenerateImage_shape w Hcan) as (pre & u & Hflow & Hpre).
      destruct (@flow_facts true s pre [u]) as (Hload & Hfinal & _).
      * rewrite Hpre. destruct (snd (buildImageParts w (systemText s) s));
          reflexivity.
      * rewrite Hpre. destruct (snd (buildImageParts w (systemText s) s));
          reflexivity.
      * discriminate.
      * rewrite <- Hflow in Hload, Hfinal. rewrite Hload.
        split; [reflexivity | exact Hfinal].
    + destruct (handleGenerateText_shape w Hcan)
        as (pre & us & Hflow & Hpre & Hlen).
      destruct (@flow_facts false s pre us) as (Hload & Hfinal & _).
      * rewrite Hpre. destruct (snd (buildTextParts w s)); reflexivity.
      * rewrite Hpre. destruct (snd (buildTextParts w s)); reflexivity.
      * intros ->. discriminate Hlen.
      * rewrite <- Hflow in Hload, Hfinal. rewrite Hload, Hlen.
        split; [apply clearings_once | exact Hfinal].
Qed.

Lemma loading_cleared_at_most_once_witness :
  reachable Sample.world Sample.ready /\
  Forall (keeps (lit "1"))
         [Handled AddItem; Updated (lit "1") None (lit "He");
          Handled GenerateImage; Handled (DeleteOutput (lit "2"));
          Updated (lit "1") None (lit "Hello")] /\
  Exists (updates (lit "1"))
         [Handled AddItem; Updated (lit "1") None (lit "He");
          Handled GenerateImage; Handled (DeleteOutput (lit "2"));
          Updated (lit "1") None (lit "Hello")] /\
  clearings (history Sample.world (lit "1")
               (Begun false
                :: [Handled AddItem; Updated (lit "1") None (lit "He");
                    Handled GenerateImage; Handled (DeleteOutput (lit "2"));
                    Updated (lit "1") None (lit "Hello")])
               Sample.ready) = 1 /\
  history Sample.world (lit "1")
    [Begun false; Handled (DeleteOutput (lit "1"));
     Updated (lit "1") None (lit "Hello")]
    Sample.ready
  = [None; Some true; None; None] /\
  clearings (history Sample.world (lit "1")
               [Begun false; Handled (DeleteOutput (lit "1"));
                Updated (lit "1") None (lit "Hello")]
               Sample.ready) <= 1 /\
  canGenerate Sample.ready /\
  clearings (map (loadingOf (lit "1"))
               (rendered (since Sample.ready
                            (handleGenerateText Sample.world Sample.ready))))
  = 1.
Proof.
  assert (reachable Sample.world Sample.ready) as Hreach by constructor.
  assert (Forall (keeps (lit "1"))
            [Handled AddItem; Updated (lit "1") None (lit "He");
             Handled GenerateImage; Handled (DeleteOutput (lit "2"));
             Updated (lit "1") None (lit "Hello")]) as Hkeeps.
  { repeat constructor. cbn. discriminate. }
  assert (Exists (updates (lit "1"))
            [Handled AddItem; Updated (lit "1") None (lit "He");
             Handled GenerateImage; Handled (DeleteOutput (lit "2"));
             Updated (lit "1") None (lit "Hello")]) as Hex.
  { apply Exists_cons_tl, Exists_cons_hd. reflexivity. }
  assert (canGenerate Sample.ready) as Hcan.
  { split; [discriminate | left; discriminate]. }
  destruct (loading_cleared_at_most_once Sample.world)
    as (Hmost & _ & _ & Hflow & Hhandlers).
  split; [exact Hreach | split; [exact Hkeeps | split; [exact Hex|]]].
  split; [exact (proj1 (Hflow Sample.ready false _ Hreach Hkeeps Hex))|].
  split; [reflexivity|].
  split; [exact (Hmost Sample.ready _ (lit "1") Hreach)|].
  split; [exact Hcan|].
  exact (proj1 (proj2 (Hhandlers Sample.ready Hcan))).
Defined.

(* ------------------------------------------------------------------ *)
(** ** More on the content serializer *)

Lemma forOf_app {A X} (body : A -> X -> M A) (l l' : list X) : forall acc s,
  forOf body acc (l ++ l') s
  = (acc' <- forOf body acc l ;; forOf body acc' l') s.
Proof.
  induction l as [|x l IH]; intros acc s; [reflexivity|].
  cbn [app forOf]. unfold bind.
  destruct (body acc x s) as [s1 [acc1|e]]; [|reflexivity].
  rewrite IH. reflexivity.
Qed.

(** The result of the serializer loop, whatever the state it runs in. *)
Lemma forOf_pushMessageParts_snd w separator acc l s s0 :
  snd (forOf (pushMessageParts w separator) acc l s)
  = snd (forOf (pushMessageParts w separator) acc l s0).
Proof.
  rewrite (forOf_pushMessageParts_anywhere w separator acc l s s0).
  reflexivity.
Qed.

Lemma pushMessageParts_blank w separator acc msg s :
  msg_image msg = None ->
  trim (msg_text msg) = [] ->
  pushMessageParts w separator acc msg s = (s, Ok acc).
Proof.
  intros Himg Htext. unfold pushMessageParts. rewrite Himg, Htext.
  reflexivity.
Qed.

Lemma forOf_skip_blank w separator before item after acc s :
  msg_image item = None ->
  trim (msg_text item) = [] ->
  forOf (pushMessageParts w separator) acc (before ++ item :: after) s
  = forOf (pushMessageParts w separator) acc (before ++ after) s.
Proof.
  intros Himg Htext. rewrite !forOf_app. unfold bind.
  destruct (forOf (pushMessageParts w separator) acc before s)
    as [s1 [acc1|e]]; [|reflexivity].
  cbn [forOf]. unfold bind.
  rewrite (pushMessageParts_blank w separator acc1 item s1 Himg Htext).
  reflexivity.
Qed.

(** X1. An item with no image and nothing but white space in its text
    contributes nothing to a request: with or without it in the list,
    both generation functions build the same parts, or fail the same
    way. In particular a list of such an item and an item with text "a"
    serializes to the one text part "a". *)
Theorem blank_items_are_skipped :
  (forall w s before item after systemMsg,
      messages s = before ++ item :: after ->
      msg_image item = None ->
      trim (msg_text item) = [] ->
      snd (buildImageParts w systemMsg s)
      = snd (buildImageParts w systemMsg (set_messages (before ++ after) s)) /\
      snd (buildTextParts w s)
      = snd (buildTextParts w (set_messages (before ++ after) s))) /\
  (forall w s blank id,
      messages s = [blank; mkMessage id (lit "a") None] ->
      msg_image blank = None ->
      trim (msg_text blank) = [] ->
      buildImageParts w [] s = (s, Ok [TextPart (lit "a")]) /\
      buildTextParts w s = (s, Ok [TextPart (lit "a")])).
Proof.
  split.
  - intros w s before item after systemMsg Hs Himg Htext.
    unfold buildImageParts, buildTextParts, bind, get. rewrite Hs.
    cbn [messages set_messages].
    rewrite !(forOf_skip_blank w _ before item after _ s Himg Htext).
    split; apply forOf_pushMessageParts_snd.
  - intros w s blank id Hs Himg Htext.
    unfold buildImageParts, buildTextParts, bind, get. rewrite Hs.
    cbn [forOf truthy]. unfold bind.
    rewrite !(pushMessageParts_blank w _ _ blank s Himg Htext).
    split; reflexivity.
Qed.

Lemma blank_items_are_skipped_witness :
  messages (set_messages [Sample.A; Sample2.E; Sample.B] Sample.ready)
  = [Sample.A] ++ Sample2.E :: [Sample.B] /\
  msg_image Sample2.E = None /\
  trim (msg_text Sample2.E) = [] /\
  snd (buildTextParts Sample.world
         (set_messages [Sample.A; Sample2.E; Sample.B] Sample.ready))
  = Ok [TextPart (lit "a"); TextPart (lit "b")] /\
  buildTextParts Sample.world
    (set_messages [Sample2.E; mkMessage (lit "6") (lit "a") None] Sample.ready)
  = (set_messages [Sample2.E; mkMessage (lit "6") (lit "a") None] Sample.ready,
     Ok [TextPart (lit "a")]).
Proof.
  assert (messages (set_messages [Sample.A; Sample2.E; Sample.B] Sample.ready)
          = [Sample.A] ++ Sample2.E :: [Sample.B]) as H1 by reflexivity.
  assert (msg_image Sample2.E = None) as H2 by reflexivity.
  assert (trim (msg_text Sample2.E) = []) as H3 by reflexivity.
  split; [exact H1 | split; [exact H2 | split; [exact H3|]]]. split.
  - rewrite (proj2 (proj1 blank_items_are_skipped Sample.world _ _ _ _ []
                      H1 H2 H3)).
    reflexivity.
  - exact (proj2 (proj2 blank_items_are_skipped Sample.world
                    (set_messages [Sample2.E; mkMessage (lit "6") (lit "a") None]
                                  Sample.ready)
                    Sample2.E (lit "6") eq_refl H2 H3)).
Defined.

Lemma pushMessageParts_text_only w separator acc msg s :
  msg_image msg = None ->
  pushMessageParts w separator acc msg s
  = (s, Ok (acc ++ map TextPart
                     (filter truthy [trim (msg_text msg)]))).
Proof.
  intros Himg. unfold pushMessageParts. rewrite Himg. cbn [filter map].
  destruct (truthy (trim (msg_text msg))); cbn [negb map];
    [reflexivity | rewrite app_nil_r; reflexivity].
Qed.

Lemma forOf_text_only w separator l : forall acc s,
  (forall msg, In msg l -> msg_image msg = None) ->
  forOf (pushMessageParts w separator) acc l s
  = (s, Ok (acc ++ map TextPart
                     (filter truthy (map (fun msg => trim (msg_text msg)) l)))).
Proof.
  induction l as [|msg l IH]; intros acc s Hall.
  - cbn. rewrite app_nil_r. reflexivity.
  - cbn [forOf]. unfold bind.
    rewrite pushMessageParts_text_only by (apply Hall; left; reflexivity).
    rewrite IH by (intros m Hm; apply Hall; right; exact Hm).
    rewrite <- app_assoc, <- map_app. cbn [map filter].
    destruct (truthy (trim (msg_text msg))); reflexivity.
Qed.

(** X2. When no item of the list has an image, the serializer reads no
    blob and cannot fail, and the two modes build the same parts: one
    text part per item whose trimmed text is not empty, in list order,
    holding the trimmed text (after the system part, in image mode). *)
Theorem text_only_lists_serialize_alike (w : World) (s : State)
        (systemMsg : jsstring) :
  (forall msg, In msg (messages s) -> msg_image msg = None) ->
  buildTextParts w s
  = (s, Ok (map TextPart
              (filter truthy
                      (map (fun msg => trim (msg_text msg)) (messages s))))) /\
  buildImageParts w systemMsg s
  = (s, Ok ((if truthy systemMsg then [TextPart (trim systemMsg)] else [])
            ++ map TextPart
                 (filter truthy
                         (map (fun msg => trim (msg_text msg)) (messages s))))).
Proof.
  intros Hall. unfold buildTextParts, buildImageParts, bind, get.
  rewrite !forOf_text_only by exact Hall. split; reflexivity.
Qed.

Lemma text_only_lists_serialize_alike_witness :
  (forall msg,
      In msg (messages (set_messages [Sample.A; Sample2.E; Sample.B]
                                     Sample.ready)) ->
      msg_image msg = None) /\
  buildTextParts Sample2.broken
    (set_messages [Sample.A; Sample2.E; Sample.B] Sample.ready)
  = (set_messages [Sample.A; Sample2.E; Sample.B] Sample.ready,
     Ok [TextPart (lit "a"); TextPart (lit "b")]) /\
  buildImageParts Sample2.broken (lit " sys ")
    (set_messages [Sample.A; Sample2.E; Sample.B] Sample.ready)
  = (set_messages [Sample.A; Sample2.E; Sample.B] Sample.ready,
     Ok [TextPart (lit "sys"); TextPart (lit "a"); TextPart (lit "b")]).
Proof.
  assert (forall msg,
             In msg (messages (set_messages [Sample.A; Sample2.E; Sample.B]
                                            Sample.ready)) ->
             msg_image msg = None) as Hall.
  { intros msg [<- | [<- | [<- | []]]]; reflexivity. }
  split; [exact Hall|].
  exact (@text_only_lists_serialize_alike Sample2.broken _ (lit " sys ") Hall).
Defined.

(* ------------------------------------------------------------------ *)
(** ** Generations that fail *)

(** What the render sink sees of a flow that submitted its request. *)
Lemma submitted_flow showImage s request us :
  map (loadingOf (newOutputId s))
      (rendered (since s (applyUpdates (newOutputId s) us
                            (emit (Submit request)
                                  (fst (addOutput showImage s))))))
  = Some true :: repeat (Some false) (List.length us) /\
  map (textOf (newOutputId s))
      (rendered (since s (applyUpdates (newOutputId s) us
                            (emit (Submit request)
                                  (fst (addOutput showImage s))))))
  = Some (lit "Generating...") :: map (fun u => Some (snd u)) us /\
  filter isSubmit (since s (applyUpdates (newOutputId s) us
                              (emit (Submit request)
                                    (fst (addOutput showImage s)))))
  = [Submit request].
Proof.
  destruct (@flow_log showImage s
              (emit (Submit request) (fst (addOutput showImage s)))
              [Submit request] us eq_refl eq_refl eq_refl eq_refl)
    as (Hload & Htext & Hsub & _).
  split; [exact Hload | split; [exact Htext | exact Hsub]].
Qed.

(** What the render sink sees of a flow that failed before it could
    submit a request. *)
Lemma unsubmitted_flow showImage s u :
  outputs (updateOutput (newOutputId s) (fst u) (snd u)
                        (fst (addOutput showImage s)))
  = mkOutput (newOutputId s) (fst u) (snd u) false :: outputs s /\
  map (textOf (newOutputId s))
      (rendered (since s (updateOutput (newOutputId s) (fst u) (snd u)
                                       (fst (addOutput showImage s)))))
  = [Some (lit "Generating..."); Some (snd u)] /\
  filter isSubmit (since s (updateOutput (newOutputId s) (fst u) (snd u)
                                         (fst (addOutput showImage s))))
  = [].
Proof.
  change (updateOutput (newOutputId s) (fst u) (snd u)
                       (fst (addOutput showImage s)))
    with (applyUpdates (newOutputId s) [u] (fst (addOutput showImage s))).
  destruct (@flow_log showImage s (fst (addOutput showImage s)) [] [u]
              eq_refl) as (_ & Htext & Hsub & _);
    try reflexivity.
  { rewrite app_nil_r. reflexivity. }
  split; [|split; [exact Htext | exact Hsub]].
  rewrite applyUpdates_front
    with (o := created showImage s) (rest := outputs s) by reflexivity.
  reflexivity.
Qed.

(** The serializer fails with the error of the first blob that cannot
    be read. *)
Lemma forOf_pushMessageParts_first_unreadable w separator before item after
      img e acc s :
  allReadable w before = true ->
  msg_image item = Some img ->
  readAsDataURL w (blob img) = Throw e ->
  forOf (pushMessageParts w separator) acc (before ++ item :: after) s
  = (s, Throw e).
Proof.
  intros Hbefore Himg Hread. rewrite forOf_app. unfold bind.
  rewrite forOf_pushMessageParts_readable by exact Hbefore.
  cbn [forOf]. unfold bind, pushMessageParts. rewrite Himg.
  unfold bind, await, blobToBase64. rewrite Hread. reflexivity.
Qed.

(** X3. When the text stream fails after some chunks, the running text
    shown so far is replaced by the error text: the render sink sees
    "Generating...", the running string after each chunk read before
    the failure, then "Error: " and the message of the error (or "An
    unknown error occurred." when it has none); the output ends not
    loading, with no image, and one request was submitted. *)
Theorem text_stream_failure (w : World) (s : State) (parts : list Part)
        (l : list Chunk) (e : JsError) :
  canGenerate s ->
  buildTextParts w s = (s, Ok parts) ->
  generateContentStream w (textRequest (systemText s) parts)
  = mkStream l (Some e) ->
  outputs (handleGenerateText w s)
  = mkOutput (newOutputId s) None (errorText e) false :: outputs s /\
  map (textOf (newOutputId s)) (rendered (since s (handleGenerateText w s)))
  = Some (lit "Generating...")
    :: map (fun k => Some (running l k)) (seq 1 (List.length l))
    ++ [Some (errorText e)] /\
  map (loadingOf (newOutputId s)) (rendered (since s (handleGenerateText w s)))
  = Some true :: repeat (Some false) (List.length l + 1) /\
  filter isSubmit (since s (handleGenerateText w s))
  = [Submit (textRequest (systemText s) parts)] /\
  errorText e
  = lit "Error: " ++ match e with
                     | Some (c :: message) => c :: message
                     | _ => lit "An unknown error occurred."
                     end.
Proof.
  intros Hcan Hparts Hstream.
  rewrite (handleGenerateText_updates w Hcan Hparts), Hstream.
  cbn [failure chunks].
  destruct (@submitted_flow false s (textRequest (systemText s) parts)
              (textUpdates l ++ [(None, errorText e)]))
    as (Hload & Htext & Hsub).
  rewrite Hload, Htext, Hsub.
  split; [|split; [|split; [|split]]].
  - rewrite applyUpdates_front
      with (o := created false s) (rest := outputs s) by reflexivity.
    rewrite rev_app_distr. reflexivity.
  - rewrite map_app. unfold textUpdates. rewrite map_map. reflexivity.
  - rewrite length_app. unfold textUpdates. rewrite length_map, length_seq.
    reflexivity.
  - reflexivity.
  - destruct e as [[|c message]|]; reflexivity.
Qed.

Lemma text_stream_failure_witness :
  canGenerate Sample.ready /\
  buildTextParts Sample2.broken Sample.ready = (Sample.ready, Ok []) /\
  generateContentStream Sample2.broken
    (textRequest (systemText Sample.ready) [])
  = mkStream [Sample.textChunk "He"] (Some (Some (lit "quota"))) /\
  outputs (handleGenerateText Sample2.broken Sample.ready)
  = [mkOutput (lit "1") None (lit "Error: quota") false] /\
  map (textOf (lit "1"))
      (rendered (since Sample.ready
                       (handleGenerateText Sample2.broken Sample.ready)))
  = [Some (lit "Generating..."); Some (lit "He"); Some (lit "Error: quota")].
Proof.
  assert (canGenerate Sample.ready) as Hcan.
  { split; [discriminate | left; discriminate]. }
  assert (buildTextParts Sample2.broken Sample.ready = (Sample.ready, Ok []))
    as Hparts by reflexivity.
  assert (generateContentStream Sample2.broken
            (textRequest (systemText Sample.ready) [])
          = mkStream [Sample.textChunk "He"] (Some (Some (lit "quota"))))
    as Hstream by reflexivity.
  split; [exact Hcan | split; [exact Hparts | split; [exact Hstream|]]].
  destruct (@text_stream_failure Sample2.broken Sample.ready [] _ _
              Hcan Hparts Hstream) as (Hout & Htext & _).
  split; [exact Hout | exact Htext].
Defined.

(** X4. When the image stream fails, whatever it produced before the
    failure is dropped: the output is finalized by one update with the
    placeholder image and the error text, also when images had already
    arrived, and the render sink sees the output twice. *)
Theorem image_stream_failure (w : World) (s : State) (parts : list Part)
        (l : list Chunk) (e : JsError) :
  canGenerate s ->
  buildImageParts w (systemText s) s = (s, Ok parts) ->
  generateContentStream w (imageRequest parts) = mkStream l (Some e) ->
  outputs (handleGenerateImage w s)
  = mkOutput (newOutputId s) (Some PLACEHOLDER_IMAGE) (errorText e) false
    :: outputs s /\
  map (textOf (newOutputId s)) (rendered (since s (handleGenerateImage w s)))
  = [Some (lit "Generating..."); Some (errorText e)] /\
  filter isSubmit (since s (handleGenerateImage w s))
  = [Submit (imageRequest parts)].
Proof.
  intros Hcan Hparts Hstream.
  rewrite (handleGenerateImage_updates w Hcan Hparts), Hstream.
  cbn [failure chunks].
  destruct (@submitted_flow true s (imageRequest parts)
              [(Some PLACEHOLDER_IMAGE, errorText e)])
    as (_ & Htext & Hsub).
  rewrite Htext, Hsub. split; [|split; reflexivity].
  rewrite applyUpdates_front
    with (o := created true s) (rest := outputs s) by reflexivity.
  reflexivity.
Qed.

Lemma image_stream_failure_witness :
  canGenerate Sample.ready /\
  buildImageParts Sample2.broken (systemText Sample.ready) Sample.ready
  = (Sample.ready, Ok [TextPart (lit "Be brief.")]) /\
  generateContentStream Sample2.broken
    (imageRequest [TextPart (lit "Be brief.")])
  = mkStream [Sample.textChunk "He"] (Some (Some (lit "quota"))) /\
  outputs (handleGenerateImage Sample2.broken Sample.ready)
  = [mkOutput (lit "1") (Some PLACEHOLDER_IMAGE) (lit "Error: quota") false].
Proof.
  assert (canGenerate Sample.ready) as Hcan.
  { split; [discriminate | left; discriminate]. }
  assert (buildImageParts Sample2.broken (systemText Sample.ready) Sample.ready
          = (Sample.ready, Ok [TextPart (lit "Be brief.")]))
    as Hparts by reflexivity.
  assert (generateContentStream Sample2.broken
            (imageRequest [TextPart (lit "Be brief.")])
          = mkStream [Sample.textChunk "He"] (Some (Some (lit "quota"))))
    as Hstream by reflexivity.
  split; [exact Hcan | split; [exact Hparts | split; [exact Hstream|]]].
  exact (proj1 (@image_stream_failure Sample2.broken Sample.ready _ _ _
                  Hcan Hparts Hstream)).
Defined.

(** X5. When the blob of an item cannot be read, and the blobs of the
    items before it can, either generation fails with the error of that
    read before any request is submitted: the new output is finalized
    with the error text (and the placeholder, in image mode), the items
    after it are not looked at, and the render sink sees the output
    twice. *)
Theorem unreadable_blob_fails_generation (w : World) (s : State)
        (before after : list MessageItem) (item : MessageItem) (img : Image)
        (e : JsError) :
  canGenerate s ->
  messages s = before ++ item :: after ->
  allReadable w before = true ->
  msg_image item = Some img ->
  readAsDataURL w (blob img) = Throw e ->
  (outputs (handleGenerateImage w s)
   = mkOutput (newOutputId s) (Some PLACEHOLDER_IMAGE) (errorText e) false
     :: outputs s /\
   map (textOf (newOutputId s)) (rendered (since s (handleGenerateImage w s)))
   = [Some (lit "Generating..."); Some (errorText e)] /\
   filter isSubmit (since s (handleGenerateImage w s)) = []) /\
  (outputs (handleGenerateText w s)
   = mkOutput (newOutputId s) None (errorText e) false :: outputs s /\
   map (textOf (newOutputId s)) (rendered (since s (handleGenerateText w s)))
   = [Some (lit "Generating..."); Some (errorText e)] /\
   filter isSubmit (since s (handleGenerateText w s)) = []).
Proof.
  intros Hcan Hs Hbefore Himg Hread. split.
  - assert (buildImageParts w (systemText s) s = (s, Throw e)) as Hparts.
    { unfold buildImageParts, bind, get. rewrite Hs.
      rewrite (forOf_pushMessageParts_first_unreadable
                 w _ before item after _ s Hbefore Himg Hread).
      reflexivity. }
    rewrite (handleGenerateImage_unreadable w Hcan Hparts).
    exact (@unsubmitted_flow true s (Some PLACEHOLDER_IMAGE, errorText e)).
  - assert (buildTextParts w s = (s, Throw e)) as Hparts.
    { unfold buildTextParts, bind, get. rewrite Hs.
      rewrite (forOf_pushMessageParts_first_unreadable
                 w _ before item after _ s Hbefore Himg Hread).
      reflexivity. }
    rewrite (handleGenerateText_unreadable w Hcan Hparts).
    exact (@unsubmitted_flow false s (None, errorText e)).
Qed.

Lemma unreadable_blob_fails_generation_witness :
  canGenerate Sample.withPicture /\
  outputs (handleGenerateText Sample2.broken Sample.withPicture)
  = [mkOutput (lit "1") None (lit "Error: An unknown error occurred.") false] /\
  filter isSubmit (since Sample.withPicture
                         (handleGenerateText Sample2.broken Sample.withPicture))
  = [].
Proof.
  assert (canGenerate Sample.withPicture) as Hcan.
  { split; [discriminate | left; discriminate]. }
  split; [exact Hcan|].
  destruct (@unreadable_blob_fails_generation Sample2.broken Sample.withPicture
              [] [] _ Sample.picture None Hcan eq_refl eq_refl eq_refl eq_refl)
    as (_ & Hout & _ & Hsub).
  split; [exact Hout | exact Hsub].
Defined.

(* ------------------------------------------------------------------ *)
(** ** Editing the message list *)

Lemma hasId_before id (before : list MessageItem) :
  ~ In id (map msg_id before) ->
  forall msg, In msg before -> hasId id msg = false.
Proof.
  intros Hnot msg Hin. destruct (hasId id msg) eqn:E; [|reflexivity].
  exfalso. apply Hnot. apply hasId_true in E. rewrite <- E.
  apply in_map, Hin.
Qed.

Lemma find_hasId_first id before item after :
  ~ In id (map msg_id before) ->
  msg_id item = id ->
  find (hasId id) (before ++ item :: after) = Some item.
Proof.
  intros Hnot Hid. pose proof (hasId_before id before Hnot) as Hb. clear Hnot.
  induction before as [|x before IH]; cbn [app find].
  - apply hasId_true in Hid. rewrite Hid. reflexivity.
  - rewrite (Hb x) by (left; reflexivity).
    apply IH. intros msg Hin. apply Hb. right. exact Hin.
Qed.

Lemma mutateFound_hasId_first id f before item after :
  ~ In id (map msg_id before) ->
  msg_id item = id ->
  mutateFound (hasId id) f (before ++ item :: after)
  = before ++ f item :: after.
Proof.
  intros Hnot Hid. pose proof (hasId_before id before Hnot) as Hb. clear Hnot.
  induction before as [|x before IH]; cbn [app mutateFound].
  - apply hasId_true in Hid. rewrite Hid. reflexivity.
  - rewrite (Hb x) by (left; reflexivity). f_equal.
    apply IH. intros msg Hin. apply Hb. right. exact Hin.
Qed.

(** X6. Editing the text of an item that is in the list changes the
    text of that item, the first with the id, where it stands: its id,
    its image, the other items, their order and the counters stay. The
    new list is saved and not rendered again. *)
Theorem text_edit_changes_one_item (s : State) (id text : jsstring)
        (before after : list MessageItem) (item : MessageItem) :
  messages s = before ++ item :: after ->
  msg_id item = id ->
  ~ In id (map msg_id before) ->
  updateMessageText id text s
  = emit (SaveMessages
            (map stored (before ++ mkMessage id text (msg_image item) :: after)))
         (set_messages (before ++ mkMessage id text (msg_image item) :: after)
                       s) /\
  messages (updateMessageText id text s)
  = before ++ mkMessage id text (msg_image item) :: after /\
  since s (updateMessageText id text s)
  = [SaveMessages
       (map stored (before ++ mkMessage id text (msg_image item) :: after))] /\
  nextId (updateMessageText id text s) = nextId s /\
  outputs (updateMessageText id text s) = outputs s.
Proof.
  intros Hs Hid Hnot.
  assert (updateMessageText id text s
          = emit (SaveMessages
                    (map stored
                         (before ++ mkMessage id text (msg_image item) :: after)))
                 (set_messages
                    (before ++ mkMessage id text (msg_image item) :: after) s))
    as Hstep.
  { unfold updateMessageText. rewrite Hs.
    rewrite (@find_hasId_first id before item after Hnot Hid).
    rewrite (@mutateFound_hasId_first id _ before item after Hnot Hid).
    rewrite Hid. reflexivity. }
  rewrite Hstep. split; [reflexivity|]. split; [reflexivity|].
  split; [|split; reflexivity].
  apply since_app. reflexivity.
Qed.

Lemma text_edit_changes_one_item_witness :
  messages (set_messages [Sample.A; Sample.B; Sample.C] Sample.ready)
  = [Sample.A] ++ Sample.B :: [Sample.C] /\
  ~ In (lit "B") (map msg_id [Sample.A]) /\
  messages (updateMessageText (lit "B") (lit "new")
              (set_messages [Sample.A; Sample.B; Sample.C] Sample.ready))
  = [Sample.A; Sample.item "B" "new"; Sample.C].
Proof.
  assert (~ In (lit "B") (map msg_id [Sample.A])) as Hnot.
  { intros [H | []]. discriminate H. }
  split; [reflexivity | split; [exact Hnot|]].
  exact (proj1 (proj2 (@text_edit_changes_one_item
                         (set_messages [Sample.A; Sample.B; Sample.C]
                                       Sample.ready)
                         (lit "B") (lit "new") [Sample.A] [Sample.C] Sample.B
                         eq_refl eq_refl Hnot))).
Defined.

(** X7. Attaching a file to an item. A file whose type does not start
    with "image/" is ignored: nothing changes, nothing is read. For an
    image file and an item that is in the list: when the file cannot be
    read the call is rejected and the state is as before; when it can,
    the image of the item is replaced as a whole by the file, its type
    and the data URL just read, so that the three agree, the text and
    the other items stay, and the list is rendered and saved once. *)
Theorem image_attach_outcomes (w : World) (s : State) (id : jsstring)
        (file : Blob) :
  (startsWith (blob_type file) (lit "image/") = false ->
   updateMessageImage w id file s = (s, Ok tt)) /\
  (forall before item after,
      startsWith (blob_type file) (lit "image/") = true ->
      messages s = before ++ item :: after ->
      msg_id item = id ->
      ~ In id (map msg_id before) ->
      (forall e, readAsDataURL w file = Throw e ->
                 updateMessageImage w id file s = (s, Throw e)) /\
      (forall dataUrl,
          readAsDataURL w file = Ok dataUrl ->
          snd (updateMessageImage w id file s) = Ok tt /\
          messages (fst (updateMessageImage w id file s))
          = before
            ++ mkMessage id (msg_text item)
                 (Some (mkImage file (blob_type file) dataUrl))
            :: after /\
          since s (fst (updateMessageImage w id file s))
          = [RenderMessages (messages (fst (updateMessageImage w id file s)));
             SaveMessages
               (map stored (messages (fst (updateMessageImage w id file s))))] /\
          imageInSync w (mkMessage id (msg_text item)
                           (Some (mkImage file (blob_type file) dataUrl))))).
Proof.
  split.
  - intros Htype. unfold updateMessageImage. rewrite Htype. reflexivity.
  - intros before item after Htype Hs Hid Hnot.
    assert (find (hasId id) (messages s) = Some item) as Hfound
      by (rewrite Hs; apply find_hasId_first; assumption).
    split.
    + intros e Hread. unfold updateMessageImage. rewrite Htype.
      cbn [negb]. unfold bind at 1. unfold get. rewrite Hfound.
      unfold bind at 1. unfold await, blobToDataUrl. rewrite Hread.
      reflexivity.
    + intros dataUrl Hread.
      assert (updateMessageImage w id file s
              = (saveMessages
                   (renderMessages
                      (set_messages
                         (before
                          ++ mkMessage id (msg_text item)
                               (Some (mkImage file (blob_type file) dataUrl))
                          :: after) s)), Ok tt)) as Hstep.
      { unfold updateMessageImage. rewrite Htype.
        cbn [negb]. unfold bind at 1. unfold get. rewrite Hfound.
        unfold bind at 1. unfold await, blobToDataUrl. rewrite Hread.
        unfold bind, modify. rewrite Hs.
        rewrite (@mutateFound_hasId_first id _ before item after Hnot Hid).
        rewrite Hid. reflexivity. }
      rewrite Hstep. cbn [fst snd].
      split; [reflexivity|]. split; [reflexivity|]. split.
      * apply since_app. unfold saveMessages, renderMessages, emit.
        cbn. rewrite <- app_assoc. reflexivity.
      * exact Hread.
Qed.

Lemma image_attach_outcomes_witness :
  startsWith (blob_type Sample2.notes) (lit "image/") = false /\
  updateMessageImage Sample.world (lit "B") Sample2.notes
    (set_messages [Sample.A; Sample.B] Sample.ready)
  = (set_messages [Sample.A; Sample.B] Sample.ready, Ok tt) /\
  startsWith (blob_type Sample2.jpg) (lit "image/") = true /\
  ~ In (lit "B") (map msg_id [Sample.A]) /\
  updateMessageImage Sample2.broken (lit "B") Sample2.jpg
    (set_messages [Sample.A; Sample.B] Sample.ready)
  = (set_messages [Sample.A; Sample.B] Sample.ready, Throw None).
Proof.
  assert (~ In (lit "B") (map msg_id [Sample.A])) as Hnot.
  { intros [H | []]. discriminate H. }
  split; [reflexivity|]. split.
  - exact (proj1 (@image_attach_outcomes Sample.world
                    (set_messages [Sample.A; Sample.B] Sample.ready)
                    (lit "B") Sample2.notes) eq_refl).
  - split; [reflexivity | split; [exact Hnot|]].
    exact (proj1 (proj2 (@image_attach_outcomes Sample2.broken
                           (set_messages [Sample.A; Sample.B] Sample.ready)
                           (lit "B") Sample2.jpg)
                        [Sample.A] Sample.B [] eq_refl eq_refl eq_refl Hnot)
                 None eq_refl).
Defined.

Lemma filter_hasId_absent id (l : list MessageItem) :
  ~ In id (map msg_id l) ->
  filter (fun msg => negb (hasId id msg)) l = l.
Proof.
  intros Hnot. pose proof (hasId_before id l Hnot) as Hl. clear Hnot.
  induction l as [|x l IH]; [reflexivity|]. cbn [filter].
  rewrite (Hl x) by (left; reflexivity). cbn [negb]. f_equal.
  apply IH. intros msg Hin. apply Hl. right. exact Hin.
Qed.

Lemma ids_after_delete id (l : list MessageItem) :
  map msg_id (filter (fun msg => negb (hasId id msg)) l)
  = filter (fun id' => negb (eqb id' id)) (map msg_id l).
Proof.
  induction l as [|x l IH]; [reflexivity|]. cbn [filter map].
  unfold hasId at 1. destruct (eqb (msg_id x) id); cbn [negb map];
    rewrite IH; reflexivity.
Qed.

(** X8. Deleting by id. The ids left are the ids of the list without
    the deleted one, in the order they had, and every item left is an
    item of the list, unchanged; deleting the same id again changes
    nothing in the list. The counter is not given back: deleting the
    item that was just added restores the list as it was, and the next
    item added gets a new id, not the id of the deleted one. Deleting
    all items keeps the counter as well. *)
Theorem delete_removes_one_id :
  (forall s id,
      ids (deleteMessage id s)
      = filter (fun id' => negb (eqb id' id)) (ids s) /\
      ~ In id (ids (deleteMessage id s)) /\
      (forall msg, In msg (messages (deleteMessage id s)) ->
                   In msg (messages s)) /\
      messages (deleteMessage id (deleteMessage id s))
      = messages (deleteMessage id s) /\
      nextId (deleteMessage id s) = nextId s) /\
  (forall s,
      wellFormedIds s ->
      messages (deleteMessage (ofNumber (nextId s)) (addItem s)) = messages s /\
      ids (addItem (deleteMessage (ofNumber (nextId s)) (addItem s)))
      = ids s ++ [ofNumber (nextId s + 1)]) /\
  (forall s,
      messages (deleteAllMessages s) = [] /\
      ids (addItem (deleteAllMessages s)) = [ofNumber (nextId s)]).
Proof.
  split; [|split].
  - intros s id.
    assert (ids (deleteMessage id s)
            = filter (fun id' => negb (eqb id' id)) (ids s)) as Hids
      by apply ids_after_delete.
    split; [exact Hids|]. split; [|split; [|split]].
    + rewrite Hids. intros Hin. apply filter_In in Hin as [_ Hneq].
      rewrite eqb_refl in Hneq. discriminate Hneq.
    + intros msg Hin. cbn in Hin. apply filter_In in Hin as [Hin _].
      exact Hin.
    + cbn [deleteMessage messages saveMessages renderMessages emit
           set_messages].
      apply filter_hasId_absent. rewrite ids_after_delete.
      intros Hin. apply filter_In in Hin as [_ Hneq].
      rewrite eqb_refl in Hneq. discriminate Hneq.
    + reflexivity.
  - intros s [Hnodup Hissued].
    assert (~ In (ofNumber (nextId s)) (map msg_id (messages s))) as Hfresh.
    { intros Hin. destruct (Hissued _ Hin) as (n & Hlt & Heq).
      apply ofNumber_inj in Heq. lia. }
    assert (messages (deleteMessage (ofNumber (nextId s)) (addItem s))
            = messages s) as Hback.
    { cbn [deleteMessage addItem messages saveMessages renderMessages emit
           set_messages set_nextId].
      rewrite filter_app, (@filter_hasId_absent _ _ Hfresh). cbn [filter].
      unfold hasId. cbn [msg_id]. rewrite eqb_refl. cbn [negb].
      apply app_nil_r. }
    split; [exact Hback|].
    unfold ids. cbn [addItem messages saveMessages renderMessages emit
                     set_messages set_nextId nextId].
    fold (addItem s). rewrite Hback, map_app. reflexivity.
  - intros s. split; reflexivity.
Qed.

Lemma delete_removes_one_id_witness :
  wellFormedIds Sample.withPicture /\
  messages (deleteMessage (lit "2") (addItem Sample.withPicture))
  = messages Sample.withPicture /\
  ids (addItem (deleteMessage (lit "2") (addItem Sample.withPicture)))
  = [lit "1"; lit "3"].
Proof.
  assert (wellFormedIds Sample.withPicture) as Hwf.
  { split.
    - constructor; [intros [] | constructor].
    - intros id [<- | []]. exists 1%N. split; [reflexivity | reflexivity]. }
  split; [exact Hwf|].
  exact (proj1 (proj2 delete_removes_one_id) Sample.withPicture Hwf).
Defined.

(* ------------------------------------------------------------------ *)
(** ** More on reordering *)

Lemma findIndex_hasId_at id front item back :
  ~ In id (map msg_id front) ->
  msg_id item = id ->
  findIndex (hasId id) (front ++ item :: back) = Some (List.length front).
Proof.
  intros Hnot Hid. rewrite findIndex_app.
  rewrite (proj2 (findIndex_None (hasId id) front) (hasId_before id front Hnot)).
  cbn [findIndex]. apply hasId_true in Hid. rewrite Hid. cbn.
  rewrite Nat.add_0_r. reflexivity.
Qed.

Lemma findIndex_hasId_absent id (l : list MessageItem) :
  ~ In id (map msg_id l) -> findIndex (hasId id) l = None.
Proof.
  intros Hnot. apply findIndex_None. apply hasId_before, Hnot.
Qed.

Lemma handleDrop_permutes isTop target s :
  Permutation (messages s) (messages (handleDrop isTop target s)).
Proof.
  unfold handleDrop.
  destruct (isDragged (draggedId s) target); [reflexivity|].
  destruct (findIndex _ (messages s)) as [i|]; [|reflexivity].
  destruct (findIndex (hasId target) (messages s)) as [j|]; [|reflexivity].
  destruct (spliceOut i (messages s)) as [[|x taken] remaining] eqn:Hout;
    [reflexivity|].
  exact (splice_Permutation _ Hout).
Qed.

(** X9. A drop only permutes the list: the items after it are the
    items before it, each as many times, and the counter stays. It
    changes nothing at all, and neither renders nor saves, when no drag
    is in progress, when the item is dropped on itself, and when the
    dragged id or the target id is not in the list. *)
Theorem drop_only_permutes :
  (forall isTop target s,
      Permutation (messages s) (messages (handleDrop isTop target s)) /\
      nextId (handleDrop isTop target s) = nextId s) /\
  (forall isTop target s,
      draggedId s = None -> handleDrop isTop target s = s) /\
  (forall isTop target s,
      draggedId s = Some target -> handleDrop isTop target s = s) /\
  (forall isTop target s dragged,
      draggedId s = Some dragged ->
      ~ In dragged (ids s) \/ ~ In target (ids s) ->
      handleDrop isTop target s = s).
Proof.
  split; [|split; [|split]].
  - intros isTop target s. split;
      [apply handleDrop_permutes | apply handleDrop_nextId].
  - intros isTop target s Hd. unfold handleDrop. rewrite Hd. cbn [isDragged].
    rewrite (proj2 (findIndex_None _ (messages s))); reflexivity.
  - intros isTop target s Hd. unfold handleDrop. rewrite Hd. cbn [isDragged].
    rewrite eqb_refl. reflexivity.
  - intros isTop target s dragged Hd Hnot. unfold handleDrop. rewrite Hd.
    destruct (isDragged (Some dragged) target); [reflexivity|].
    rewrite findIndex_isDragged. destruct Hnot as [Hnot | Hnot].
    + rewrite (@findIndex_hasId_absent _ _ Hnot). reflexivity.
    + rewrite (@findIndex_hasId_absent _ _ Hnot).
      destruct (findIndex (hasId dragged) (messages s)); reflexivity.
Qed.

Lemma drop_only_permutes_witness :
  draggedId (handleDragStart (lit "Z")
               (set_messages [Sample.A; Sample.B] Sample.ready))
  = Some (lit "Z") /\
  ~ In (lit "Z") (ids (handleDragStart (lit "Z")
                         (set_messages [Sample.A; Sample.B] Sample.ready))) /\
  handleDrop true (lit "A")
    (handleDragStart (lit "Z") (set_messages [Sample.A; Sample.B] Sample.ready))
  = handleDragStart (lit "Z") (set_messages [Sample.A; Sample.B] Sample.ready) /\
  draggedId Sample.ready = None /\
  handleDrop false (lit "A") Sample.ready = Sample.ready.
Proof.
  assert (~ In (lit "Z")
            (ids (handleDragStart (lit "Z")
                    (set_messages [Sample.A; Sample.B] Sample.ready))))
    as Hnot.
  { intros [H | [H | []]]; discriminate H. }
  split; [reflexivity | split; [exact Hnot | split; [|split; [reflexivity|]]]].
  - exact (proj2 (proj2 (proj2 drop_only_permutes)) true (lit "A")
                 (handleDragStart (lit "Z")
                    (set_messages [Sample.A; Sample.B] Sample.ready))
                 (lit "Z") eq_refl (or_introl Hnot)).
  - exact (proj1 (proj2 drop_only_permutes) false (lit "A") Sample.ready
                 eq_refl).
Defined.

(** X10. Dropping an item where it already stands leaves the order as
    it is: in a list with distinct ids, dragging an item onto the upper
    half of the item right after it, or onto the lower half of the item
    right before it, gives the same list again; in both cases the list
    is rendered and saved all the same. *)
Theorem drop_next_to_neighbour_keeps_order (s : State)
        (front back : list MessageItem) (a b : MessageItem) :
  NoDup (ids s) ->
  messages s = front ++ a :: b :: back ->
  messages (reorder (msg_id a) (msg_id b) true s) = messages s /\
  messages (reorder (msg_id b) (msg_id a) false s) = messages s /\
  since s (reorder (msg_id a) (msg_id b) true s)
  = [RenderMessages (messages s); SaveMessages (map stored (messages s))] /\
  since s (reorder (msg_id b) (msg_id a) false s)
  = [RenderMessages (messages s); SaveMessages (map stored (messages s))].
Proof.
  intros Hnodup Hs. unfold ids in Hnodup. rewrite Hs in Hnodup.
  rewrite map_app in Hnodup. cbn [map] in Hnodup.
  assert (~ In (msg_id a) (map msg_id front)) as Ha.
  { intros Hin. apply NoDup_remove_2 in Hnodup. apply Hnodup.
    apply in_or_app. left. exact Hin. }
  assert (msg_id a <> msg_id b) as Hab.
  { apply NoDup_app_remove_l in Hnodup. inversion Hnodup as [|x l Hx _].
    intros Heq. apply Hx. left. symmetry. exact Heq. }
  assert (~ In (msg_id b) (map msg_id (front ++ [a]))) as Hb.
  { rewrite map_app. cbn [map]. intros Hin.
    apply in_app_or in Hin as [Hin | [Hin | []]]; [|exact (Hab Hin)].
    replace (map msg_id front ++ msg_id a :: msg_id b :: map msg_id back)
      with ((map msg_id front ++ [msg_id a]) ++ msg_id b :: map msg_id back)
      in Hnodup by (rewrite <- app_assoc; reflexivity).
    apply NoDup_remove_2 in Hnodup. apply Hnodup.
    apply in_or_app. left. apply in_or_app. left. exact Hin. }
  assert (findIndex (hasId (msg_id a)) (messages s)
          = Some (List.length front)) as Hia
    by (rewrite Hs; apply findIndex_hasId_at; [exact Ha | reflexivity]).
  assert (findIndex (hasId (msg_id b)) (messages s)
          = Some (S (List.length front))) as Hib.
  { rewrite Hs.
    replace (front ++ a :: b :: back) with ((front ++ [a]) ++ b :: back)
      by (rewrite <- app_assoc; reflexivity).
    rewrite (@findIndex_hasId_at (msg_id b) (front ++ [a]) b back Hb eq_refl).
    rewrite length_app. cbn. f_equal. lia. }
  assert (spliceOut (List.length front) (messages s)
          = ([a], front ++ b :: back)) as Houta
    by (rewrite Hs; apply spliceOut_at).
  assert (spliceOut (S (List.length front)) (messages s)
          = ([b], front ++ a :: back)) as Houtb.
  { rewrite Hs.
    replace (front ++ a :: b :: back) with ((front ++ [a]) ++ b :: back)
      by (rewrite <- app_assoc; reflexivity).
    replace (S (List.length front)) with (List.length (front ++ [a]))
      by (rewrite length_app; cbn; lia).
    rewrite spliceOut_at, <- app_assoc. reflexivity. }
  assert (handleDrop true (msg_id b) (handleDragStart (msg_id a) s)
          = saveMessages (renderMessages (handleDragStart (msg_id a) s)))
    as Hdrop.
  { rewrite (@handleDrop_found true (msg_id b) (handleDragStart (msg_id a) s)
               (msg_id a) (List.length front) (S (List.length front))
               a [] (front ++ b :: back) eq_refl Hab Hia Hib Houta).
    rewrite (proj2 (Nat.ltb_lt _ _) (Nat.lt_succ_diag_r (List.length front))).
    replace (S (List.length front) - 1) with (List.length front) by lia.
    rewrite spliceIn_at, <- Hs. destruct s; reflexivity. }
  assert (handleDrop false (msg_id a) (handleDragStart (msg_id b) s)
          = saveMessages (renderMessages (handleDragStart (msg_id b) s)))
    as Hdrop'.
  { rewrite (@handleDrop_found false (msg_id a) (handleDragStart (msg_id b) s)
               (msg_id b) (S (List.length front)) (List.length front)
               b [] (front ++ a :: back) eq_refl
               (fun H => Hab (eq_sym H)) Hib Hia Houtb).
    rewrite (proj2 (Nat.ltb_ge _ _) (Nat.le_succ_diag_r (List.length front))).
    replace (List.length front + 1) with (List.length (front ++ [a]))
      by (rewrite length_app; reflexivity).
    replace (front ++ a :: back) with ((front ++ [a]) ++ back)
      by (rewrite <- app_assoc; reflexivity).
    rewrite spliceIn_at, <- app_assoc. cbn [app]. rewrite <- Hs.
    destruct s; reflexivity. }
  split; [|split; [|split]].
  - unfold reorder. rewrite Hdrop. reflexivity.
  - unfold reorder. rewrite Hdrop'. reflexivity.
  - apply since_app. unfold reorder. rewrite Hdrop.
    cbn. rewrite <- app_assoc. reflexivity.
  - apply since_app. unfold reorder. rewrite Hdrop'.
    cbn. rewrite <- app_assoc. reflexivity.
Qed.

Lemma drop_next_to_neighbour_keeps_order_witness :
  NoDup (ids (set_messages [Sample.A; Sample.B; Sample.C] Sample.ready)) /\
  messages (reorder (lit "B") (lit "C") true
              (set_messages [Sample.A; Sample.B; Sample.C] Sample.ready))
  = [Sample.A; Sample.B; Sample.C] /\
  messages (reorder (lit "C") (lit "B") false
              (set_messages [Sample.A; Sample.B; Sample.C] Sample.ready))
  = [Sample.A; Sample.B; Sample.C].
Proof.
  assert (NoDup (ids (set_messages [Sample.A; Sample.B; Sample.C]
                                    Sample.ready))) as Hnodup.
  { repeat constructor; cbn; intuition discriminate. }
  split; [exact Hnodup|].
  destruct (@drop_next_to_neighbour_keeps_order
              (set_messages [Sample.A; Sample.B; Sample.C] Sample.ready)
              [Sample.A] [] Sample.B Sample.C Hnodup eq_refl)
    as (H1 & H2 & _ & _).
  split; [exact H1 | exact H2].
Defined.

(* ------------------------------------------------------------------ *)
(** ** The output list *)

Lemma find_hasOutputId_first id before o after :
  ~ In id (map out_id before) ->
  out_id o = id ->
  find (hasOutputId id) (before ++ o :: after) = Some o /\
  forall f, mutateFound (hasOutputId id) f (before ++ o :: after)
            = before ++ f o :: after.
Proof.
  intros Hnot Hid. apply hasOutputId_true in Hid.
  induction before as [|x before IH]; cbn [app find mutateFound].
  - rewrite Hid. split; [reflexivity | intros f; reflexivity].
  - assert (hasOutputId id x = false) as Hx.
    { destruct (hasOutputId id x) eqn:E; [|reflexivity].
      exfalso. apply Hnot. left. apply hasOutputId_true, E. }
    rewrite Hx. destruct IH as [IH1 IH2].
    { intros Hin. apply Hnot. right. exact Hin. }
    split; [exact IH1 | intros f; rewrite IH2; reflexivity].
Qed.

(** X11. Updating an output that is in the list changes that output,
    the first with the id, where it stands: it gets the image and the
    text and is not loading; its id, the other outputs, their order and
    the counters stay. The list is rendered, then what is not loading of
    it is saved. *)
Theorem output_update_changes_one_entry (s : State) (id : jsstring)
        (imageUrl : option jsstring) (text : jsstring)
        (before after : list OutputItem) (o : OutputItem) :
  outputs s = before ++ o :: after ->
  out_id o = id ->
  ~ In id (map out_id before) ->
  outputs (updateOutput id imageUrl text s)
  = before ++ mkOutput id imageUrl text false :: after /\
  since s (updateOutput id imageUrl text s)
  = [RenderOutputs (before ++ mkOutput id imageUrl text false :: after);
     SaveOutputs (filter (fun output => negb (out_loading output)) before
                  ++ mkOutput id imageUrl text false
                  :: filter (fun output => negb (out_loading output)) after)] /\
  messages (updateOutput id imageUrl text s) = messages s /\
  nextOutputId (updateOutput id imageUrl text s) = nextOutputId s.
Proof.
  intros Hs Hid Hnot.
  destruct (@find_hasOutputId_first id before o after Hnot Hid) as [Hfound Hmut].
  assert (updateOutput id imageUrl text s
          = saveOutputs
              (renderOutputs
                 (set_outputs (before ++ mkOutput id imageUrl text false :: after)
                              s))) as Hstep.
  { unfold updateOutput. rewrite Hs, Hfound, Hmut, Hid. reflexivity. }
  rewrite Hstep. split; [reflexivity|]. split; [|split; reflexivity].
  apply since_app. cbn. rewrite filter_app, <- app_assoc. reflexivity.
Qed.

Lemma output_update_changes_one_entry_witness :
  ~ In (lit "1") (map out_id [mkOutput (lit "2") None (lit "two") true]) /\
  outputs (updateOutput (lit "1") None (lit "done")
             (set_outputs [mkOutput (lit "2") None (lit "two") true;
                           mkOutput (lit "1") None (lit "one") true]
                          Sample.ready))
  = [mkOutput (lit "2") None (lit "two") true;
     mkOutput (lit "1") None (lit "done") false] /\
  since (set_outputs [mkOutput (lit "2") None (lit "two") true;
                      mkOutput (lit "1") None (lit "one") true]
                     Sample.ready)
        (updateOutput (lit "1") None (lit "done")
           (set_outputs [mkOutput (lit "2") None (lit "two") true;
                         mkOutput (lit "1") None (lit "one") true]
                        Sample.ready))
  = [RenderOutputs [mkOutput (lit "2") None (lit "two") true;
                    mkOutput (lit "1") None (lit "done") false];
     SaveOutputs [mkOutput (lit "1") None (lit "done") false]].
Proof.
  assert (~ In (lit "1")
            (map out_id [mkOutput (lit "2") None (lit "two") true])) as Hnot.
  { intros [H | []]. discriminate H. }
  split; [exact Hnot|].
  destruct (@output_update_changes_one_entry
              (set_outputs [mkOutput (lit "2") None (lit "two") true;
                            mkOutput (lit "1") None (lit "one") true]
                           Sample.ready)
              (lit "1") None (lit "done")
              [mkOutput (lit "2") None (lit "two") true] []
              (mkOutput (lit "1") None (lit "one") true)
              eq_refl eq_refl Hnot) as (Hout & Hlog & _).
  split; [exact Hout | exact Hlog].
Defined.

(** X12. A generation never touches anything but its own output:
    whether it is refused, fails or succeeds, either handler leaves the
    message list, its counter, the drag in progress and the two inputs
    as they were, and the output list is as it was, or has one more
    output at the front, with the id the counter held, not loading, the
    outputs that were there all unchanged behind it. *)
Theorem generation_touches_only_its_output (w : World) (s : State) :
  (messages (handleGenerateImage w s) = messages s /\
   nextId (handleGenerateImage w s) = nextId s /\
   draggedId (handleGenerateImage w s) = draggedId s /\
   apiKeyInput (handleGenerateImage w s) = apiKeyInput s /\
   systemMessage (handleGenerateImage w s) = systemMessage s /\
   ((outputs (handleGenerateImage w s) = outputs s /\
     nextOutputId (handleGenerateImage w s) = nextOutputId s) \/
    (nextOutputId (handleGenerateImage w s) = (nextOutputId s + 1)%N /\
     exists o, outputs (handleGenerateImage w s) = o :: outputs s /\
               out_id o = newOutputId s /\ out_loading o = false))) /\
  (messages (handleGenerateText w s) = messages s /\
   nextId (handleGenerateText w s) = nextId s /\
   draggedId (handleGenerateText w s) = draggedId s /\
   apiKeyInput (handleGenerateText w s) = apiKeyInput s /\
   systemMessage (handleGenerateText w s) = systemMessage s /\
   ((outputs (handleGenerateText w s) = outputs s /\
     nextOutputId (handleGenerateText w s) = nextOutputId s) \/
    (nextOutputId (handleGenerateText w s) = (nextOutputId s + 1)%N /\
     exists o, outputs (handleGenerateText w s) = o :: outputs s /\
               out_id o = newOutputId s /\ out_loading o = false))).
Proof.
  split; [apply handleGenerateImage_frame | apply handleGenerateText_frame].
Qed.

(** *** Newest first *)

Lemma decreasing_weaken ns : forall bound bound',
  (bound <= bound')%N -> decreasing bound ns -> decreasing bound' ns.
Proof.
  destruct ns as [|n ns]; intros bound bound' Hle H; [exact I|].
  destruct H as [Hlt Hrest]. split; [lia | exact Hrest].
Qed.

Lemma decreasing_filter (keep : N -> bool) ns : forall bound,
  decreasing bound ns -> decreasing bound (filter keep ns).
Proof.
  induction ns as [|n ns IH]; intros bound H; [exact I|].
  destruct H as [Hlt Hrest]. cbn [filter]. destruct (keep n).
  - split; [exact Hlt | apply IH, Hrest].
  - apply (@decreasing_weaken _ n bound); [lia | apply IH, Hrest].
Qed.

Lemma decreasing_below ns : forall bound n,
  decreasing bound ns -> In n ns -> (n < bound)%N.
Proof.
  induction ns as [|m ns IH]; intros bound n H Hin; [destruct Hin|].
  destruct H as [Hlt Hrest]. destruct Hin as [<- | Hin]; [exact Hlt|].
  specialize (IH m n Hrest Hin). lia.
Qed.

Lemma decreasing_distinct ns : forall bound,
  decreasing bound ns -> NoDup (map ofNumber ns).
Proof.
  induction ns as [|n ns IH]; intros bound H; [constructor|].
  destruct H as [Hlt Hrest]. cbn [map]. constructor; [|exact (IH n Hrest)].
  intros Hin. apply in_map_iff in Hin as (m & Hm & Hin).
  apply ofNumber_inj in Hm. subst m.
  pose proof (@decreasing_below ns n n Hrest Hin). lia.
Qed.

Lemma ofNumber_filter (keep : jsstring -> bool) ns :
  filter keep (map ofNumber ns)
  = map ofNumber (filter (fun n => keep (ofNumber n)) ns).
Proof.
  induction ns as [|n ns IH]; [reflexivity|]. cbn [map filter].
  destruct (keep (ofNumber n)); cbn [map]; rewrite IH; reflexivity.
Qed.

Lemma perform_newestFirst w a s : newestFirst s -> newestFirst (perform w a s).
Proof.
  intros (ns & Hids & Hdec).
  destruct (perform_output_ids w a s) as [[Hn (keep & Hk)] | [Hn Hk]].
  - exists (filter (fun n => keep (ofNumber n)) ns). split.
    + rewrite Hk, Hids. apply ofNumber_filter.
    + rewrite Hn. apply decreasing_filter, Hdec.
  - exists (nextOutputId s :: ns). split.
    + rewrite Hk, Hids. reflexivity.
    + rewrite Hn. split; [lia | exact Hdec].
Qed.

(** X13. In every state of a session the outputs stand newest first:
    their ids are numbers the counter issued, each smaller than the one
    before it, so no two outputs share an id. A handler keeps the ids
    of the list, or removes some of them, or puts the id the counter
    held in front and advances the counter by one; the counter never
    goes back, so the id of a deleted output is not issued again. *)
Theorem outputs_stand_newest_first (w : World) :
  (forall s, reachable w s ->
             newestFirst s /\ NoDup (map out_id (outputs s))) /\
  (forall a s,
      (nextOutputId (perform w a s) = nextOutputId s /\
       exists keep,
         map out_id (outputs (perform w a s))
         = filter keep (map out_id (outputs s))) \/
      (nextOutputId (perform w a s) = (nextOutputId s + 1)%N /\
       map out_id (outputs (perform w a s))
       = newOutputId s :: map out_id (outputs s))).
Proof.
  split; [|intros a s; apply perform_output_ids].
  intros s Hreach.
  assert (newestFirst s) as Hnewest.
  { induction Hreach as [apiKey systemMsg | a s _ IH].
    - exists []. split; [reflexivity | exact I].
    - apply perform_newestFirst, IH. }
  split; [exact Hnewest|].
  destruct Hnewest as (ns & Hids & Hdec). rewrite Hids.
  exact (@decreasing_distinct ns _ Hdec).
Qed.

Lemma outputs_stand_newest_first_witness :
  reachable Sample.world
    (perform Sample.world GenerateText
       (perform Sample.world GenerateImage Sample.ready)) /\
  map out_id
      (outputs (perform Sample.world GenerateText
                  (perform Sample.world GenerateImage Sample.ready)))
  = [lit "2"; lit "1"] /\
  NoDup (map out_id
           (outputs (perform Sample.world GenerateText
                       (perform Sample.world GenerateImage Sample.ready)))).
Proof.
  assert (reachable Sample.world
            (perform Sample.world GenerateText
               (perform Sample.world GenerateImage Sample.ready))) as Hreach
    by (do 2 apply reachable_perform; apply reachable_initial).
  split; [exact Hreach | split; [reflexivity|]].
  exact (proj2 (proj1 (outputs_stand_newest_first Sample.world) _ Hreach)).
Defined.

(* ------------------------------------------------------------------ *)
(** ** More on the template loader *)

Lemma forOf_loadEntry_all w l : forall s,
  (forall msg, In msg l -> exists image, fetchImage w msg = Ok image) ->
  forOf (loadEntry w) tt l s
  = (set_messages (messages s ++ loadedItems w (nextId s) l)
                  (set_nextId (nextId s + N.of_nat (List.length l)) s),
     Ok tt).
Proof.
  induction l as [|msg l IH]; intros s Hall.
  - cbn. rewrite app_nil_r, N.add_0_r. destruct s; reflexivity.
  - destruct (Hall msg (or_introl eq_refl)) as [image Himage].
    cbn [forOf]. unfold bind. rewrite (loadEntry_decoded _ _ _ Himage).
    rewrite IH by (intros m Hm; apply Hall; right; exact Hm).
    cbn [loadedItems]. unfold decodedImage. rewrite Himage.
    unfold set_messages, set_nextId. cbn [messages nextId outputs nextOutputId
      draggedId apiKeyInput systemMessage effects].
    rewrite <- app_assoc. cbn [app List.length].
    replace (nextId s + 1 + N.of_nat (List.length l))%N
      with (nextId s + N.of_nat (S (List.length l)))%N by lia.
    reflexivity.
Qed.

Lemma ids_loadedItems w l : forall next,
  map msg_id (loadedItems w next l)
  = map (fun k => ofNumber (next + N.of_nat k)) (seq 0 (List.length l)).
Proof.
  induction l as [|msg l IH]; intros next; [reflexivity|].
  cbn [loadedItems map List.length seq msg_id]. rewrite N.add_0_r. f_equal.
  rewrite IH, <- seq_shift, map_map. apply map_ext. intros k.
  f_equal. lia.
Qed.

(** X14. Loading a template whose entries can all be decoded replaces
    the message list: whatever the list and the counter were, the list
    is now one item per entry that is not a system entry, in the order
    of the template, with the text of the entry and its image as
    fetched, under the ids "1", "2", ... and the counter stands one
    past the last. The system text becomes the text of the first system
    entry as the text area gives it back, that is with every CR LF and
    every other CR turned into LF (later system entries are dropped),
    or stays when there is none; what is saved under "systemMessage" is
    the text of the entry as it is. The list is rendered and saved
    once, at the end; the outputs stay. *)
Theorem template_load_replaces_list (w : World) (templateName : jsstring)
        (template : Template) (s : State) :
  asyncTemplates w templateName = Some template ->
  (forall msg, In msg (tmpl_messages template) -> isSystem msg = false ->
               exists image, fetchImage w msg = Ok image) ->
  messages (loadTemplate w templateName s)
  = loadedItems w 1
      (filter (fun m => negb (isSystem m)) (tmpl_messages template)) /\
  ids (loadTemplate w templateName s)
  = map (fun k => ofNumber (1 + N.of_nat k))
        (seq 0 (List.length
                  (filter (fun m => negb (isSystem m))
                          (tmpl_messages template)))) /\
  nextId (loadTemplate w templateName s)
  = (1 + N.of_nat (List.length
                     (filter (fun m => negb (isSystem m))
                             (tmpl_messages template))))%N /\
  systemMessage (loadTemplate w templateName s)
  = match find isSystem (tmpl_messages template) with
    | Some systemMsg => normalizeNewlines (tm_text systemMsg)
    | None => systemMessage s
    end /\
  since s (loadTemplate w templateName s)
  = match find isSystem (tmpl_messages template) with
    | Some systemMsg => [SaveSystemMessage (tm_text systemMsg)]
    | None => []
    end
    ++ [RenderMessages (messages (loadTemplate w templateName s));
        SaveMessages (map stored (messages (loadTemplate w templateName s)))] /\
  outputs (loadTemplate w templateName s) = outputs s.
Proof.
  intros Htemplate Hall.
  set (entries := filter (fun m => negb (isSystem m)) (tmpl_messages template)).
  assert (forall msg, In msg entries -> exists image, fetchImage w msg = Ok image)
    as Hentries.
  { intros msg Hin. apply filter_In in Hin as [Hin Hsys].
    apply Hall; [exact Hin | apply negb_true_iff, Hsys]. }
  assert (messages (loadTemplate w templateName s) = loadedItems w 1 entries /\
          nextId (loadTemplate w templateName s)
          = (1 + N.of_nat (List.length entries))%N /\
          systemMessage (loadTemplate w templateName s)
          = match find isSystem (tmpl_messages template) with
            | Some systemMsg => normalizeNewlines (tm_text systemMsg)
            | None => systemMessage s
            end /\
          since s (loadTemplate w templateName s)
          = match find isSystem (tmpl_messages template) with
            | Some systemMsg => [SaveSystemMessage (tm_text systemMsg)]
            | None => []
            end
            ++ [RenderMessages (loadedItems w 1 entries);
                SaveMessages (map stored (loadedItems w 1 entries))])
    as (Hmsgs & Hnext & Hsys & Hlog).
  { unfold loadTemplate, tryCatch. rewrite (lookup_registered _ _ Htemplate).
    fold entries.
    unfold bind at 1 2. unfold modify at 1 2. unfold bind at 1.
    destruct (find isSystem (tmpl_messages template)) as [systemMsg|];
      unfold bind, modify, ret;
      rewrite (forOf_loadEntry_all w entries _ Hentries);
      (split; [reflexivity|]); (split; [reflexivity|]);
      (split; [reflexivity|]);
      apply since_app; cbn; rewrite <- ?app_assoc; reflexivity. }
  split; [exact Hmsgs|]. split; [|split; [exact Hnext|split; [exact Hsys|split]]].
  - unfold ids. rewrite Hmsgs. apply ids_loadedItems.
  - rewrite Hmsgs. exact Hlog.
  - apply loadTemplate_outputs.
Qed.

Lemma template_load_replaces_list_witness :
  asyncTemplates Sample2.world (lit "good") = Some Sample2.template /\
  messages (loadTemplate Sample2.world (lit "good")
              (addItem (addItem (addItem Sample.ready))))
  = [mkMessage (lit "1") (lit "first") None;
     mkMessage (lit "2") (lit "second") (Some Sample.picture)] /\
  nextId (loadTemplate Sample2.world (lit "good")
            (addItem (addItem (addItem Sample.ready))))
  = 3%N /\
  systemMessage (loadTemplate Sample2.world (lit "good")
                   (addItem (addItem (addItem Sample.ready))))
  = lit "Be brief.".
Proof.
  assert (forall msg, In msg (tmpl_messages Sample2.template) ->
                      isSystem msg = false ->
                      exists image, fetchImage Sample2.world msg = Ok image)
    as Hall.
  { intros msg [<- | [<- | [<- | [<- | []]]]] _; eexists; reflexivity. }
  split; [reflexivity|].
  destruct (@template_load_replaces_list Sample2.world (lit "good")
              Sample2.template (addItem (addItem (addItem Sample.ready)))
              eq_refl Hall) as (Hmsgs & _ & Hnext & Hsys & _).
  split; [exact Hmsgs | split; [exact Hnext | exact Hsys]].
Defined.

(** X15. A template load stops at the first entry whose image cannot
    be fetched. The entries before it are in the list, under the ids
    "1", "2", ...; the failing entry and those after it are not; the
    counter has been advanced for the failing entry too. The list is
    neither rendered nor saved, so what is stored under "messages" is
    still the list of before the load; the user is told that the load
    failed. When the very first entry fails the list is empty. *)
Theorem template_load_stops_at_first_failure
        (w : World) (templateName : jsstring) (template : Template)
        (good rest : list TemplateMessage) (bad : TemplateMessage)
        (e : JsError) (s : State) :
  asyncTemplates w templateName = Some template ->
  filter (fun m => negb (isSystem m)) (tmpl_messages template)
  = good ++ bad :: rest ->
  (forall msg, In msg good -> exists image, fetchImage w msg = Ok image) ->
  fetchImage w bad = Throw e ->
  messages (loadTemplate w templateName s) = loadedItems w 1 good /\
  nextId (loadTemplate w templateName s)
  = (N.of_nat (List.length good) + 2)%N /\
  since s (loadTemplate w templateName s)
  = match find isSystem (tmpl_messages template) with
    | Some systemMsg => [SaveSystemMessage (tm_text systemMsg)]
    | None => []
    end ++ [Alert (lit "Failed to load template.")] /\
  storeAfter emptyStore (loadTemplate w templateName s)
  = match find isSystem (tmpl_messages template) with
    | Some systemMsg =>
        write (storeAfter emptyStore s) (SaveSystemMessage (tm_text systemMsg))
    | None => storeAfter emptyStore s
    end /\
  (good = [] -> messages (loadTemplate w templateName s) = []).
Proof.
  intros Htemplate Hentries Hgood Hbad.
  assert (forall s0,
             forOf (loadEntry w) tt (good ++ bad :: rest) s0
             = (set_messages (messages s0 ++ loadedItems w (nextId s0) good)
                  (set_nextId (nextId s0 + N.of_nat (List.length good) + 1) s0),
                Throw e)) as Hloop.
  { intros s0. rewrite forOf_app. unfold bind.
    rewrite (forOf_loadEntry_all w good _ Hgood). cbn [forOf]. unfold bind.
    rewrite (loadEntry_failed _ _ _ Hbad). destruct s0; reflexivity. }
  assert (messages (loadTemplate w templateName s) = loadedItems w 1 good /\
          nextId (loadTemplate w templateName s)
          = (N.of_nat (List.length good) + 2)%N /\
          effects (loadTemplate w templateName s)
          = effects s
            ++ match find isSystem (tmpl_messages template) with
               | Some systemMsg => [SaveSystemMessage (tm_text systemMsg)]
               | None => []
               end ++ [Alert (lit "Failed to load template.")])
    as (Hmsgs & Hnext & Hlog).
  { unfold loadTemplate, tryCatch.
    rewrite (lookup_registered _ _ Htemplate), Hentries.
    unfold bind at 1 2. unfold modify at 1 2. unfold bind at 1.
    destruct (find isSystem (tmpl_messages template)) as [systemMsg|];
      unfold bind, modify, ret; rewrite Hloop;
      (split; [reflexivity|]);
      (split; [cbn [nextId set_messages set_nextId alert emit
                    set_systemMessage saveSystemMessage]; lia|]);
      cbn; rewrite <- ?app_assoc; reflexivity. }
  split; [exact Hmsgs|]. split; [exact Hnext|]. split; [|split].
  - apply since_app, Hlog.
  - unfold storeAfter. rewrite Hlog, !fold_left_app.
    destruct (find isSystem (tmpl_messages template)); reflexivity.
  - intros ->. exact Hmsgs.
Qed.

Lemma template_load_stops_at_first_failure_witness :
  asyncTemplates Sample.world (lit "sample") = Some Sample.template /\
  messages (loadTemplate Sample.world (lit "sample")
              (addItem (addItem (addItem Sample.ready))))
  = [mkMessage (lit "1") (lit "first") None] /\
  nextId (loadTemplate Sample.world (lit "sample")
            (addItem (addItem (addItem Sample.ready))))
  = 3%N /\
  get_messages (storeAfter emptyStore
                  (loadTemplate Sample.world (lit "sample")
                     (addItem (addItem (addItem Sample.ready)))))
  = Ok (Some [mkStored (lit "1") [] None; mkStored (lit "2") [] None;
              mkStored (lit "3") [] None]).
Proof.
  assert (forall msg, In msg [mkTemplateMessage user (lit "first") None] ->
                      exists image, fetchImage Sample.world msg = Ok image)
    as Hgood.
  { intros msg [<- | []]. eexists. reflexivity. }
  split; [reflexivity|].
  destruct (@template_load_stops_at_first_failure
              Sample.world (lit "sample") Sample.template
              [mkTemplateMessage user (lit "first") None] []
              (mkTemplateMessage user (lit "second") (Some Sample.brokenUrl))
              (Some (lit "Failed to fetch"))
              (addItem (addItem (addItem Sample.ready)))
              eq_refl eq_refl Hgood eq_refl) as (Hmsgs & Hnext & _ & Hstore & _).
  split; [exact Hmsgs | split; [exact Hnext|]].
  rewrite Hstore. reflexivity.
Defined.

(** X16. What the template select does at its edges. When the value
    chosen is empty (the "Select a template..." option), nothing
    happens. When nothing is registered under the name and no object
    inherits a member of that name, the user is told that the load
    failed and nothing else changes: the message list, the counter and
    the system text are as before, nothing is rendered or saved. When
    nothing is registered under the name but it is the name of a member
    every object inherits ("constructor", "toString", ...), the lookup
    finds that member: the message list is emptied and the counter set
    back to 1 before the load fails; the user is told, and the empty
    list is neither rendered nor saved; the system text and the outputs
    stay. *)
Theorem template_select_edges (w : World) (s : State) :
  handleTemplateChange w [] s = s /\
  (forall templateName,
      asyncTemplates w templateName = None ->
      ~ In templateName OBJECT_PROTOTYPE_KEYS ->
      templateName <> [] ->
      handleTemplateChange w templateName s
      = alert (lit "Failed to load template.") s /\
      messages (handleTemplateChange w templateName s) = messages s /\
      nextId (handleTemplateChange w templateName s) = nextId s /\
      systemMessage (handleTemplateChange w templateName s) = systemMessage s /\
      since s (handleTemplateChange w templateName s)
      = [Alert (lit "Failed to load template.")]) /\
  (forall templateName,
      asyncTemplates w templateName = None ->
      In templateName OBJECT_PROTOTYPE_KEYS ->
      handleTemplateChange w templateName s
      = alert (lit "Failed to load template.")
              (set_nextId 1 (set_messages [] s)) /\
      messages (handleTemplateChange w templateName s) = [] /\
      nextId (handleTemplateChange w templateName s) = 1%N /\
      systemMessage (handleTemplateChange w templateName s) = systemMessage s /\
      outputs (handleTemplateChange w templateName s) = outputs s /\
      since s (handleTemplateChange w templateName s)
      = [Alert (lit "Failed to load template.")]).
Proof.
  split; [reflexivity|]. split.
  - intros templateName Hnone Hown Hname.
    assert (lookup w templateName = Undefined) as Hlookup.
    { unfold lookup. rewrite Hnone.
      destruct (existsb (eqb templateName) OBJECT_PROTOTYPE_KEYS) eqn:E;
        [|reflexivity].
      apply existsb_exists in E as (key & Hin & Heq).
      apply eqb_eq in Heq. subst key. contradiction. }
    assert (handleTemplateChange w templateName s
            = alert (lit "Failed to load template.") s) as Hstep.
    { unfold handleTemplateChange. apply truthy_true in Hname. rewrite Hname.
      unfold loadTemplate, tryCatch. rewrite Hlookup. reflexivity. }
    rewrite Hstep. repeat split. apply since_app. reflexivity.
  - intros templateName Hnone Hinherited.
    assert (lookup w templateName = Inherited) as Hlookup.
    { unfold lookup. rewrite Hnone.
      assert (existsb (eqb templateName) OBJECT_PROTOTYPE_KEYS = true) as ->;
        [|reflexivity].
      apply existsb_exists. exists templateName.
      split; [exact Hinherited | apply eqb_refl]. }
    assert (templateName <> []) as Hname.
    { intros ->. cbn in Hinherited.
      repeat (destruct Hinherited as [Hinherited | Hinherited];
              [discriminate Hinherited|]).
      exact Hinherited. }
    assert (handleTemplateChange w templateName s
            = alert (lit "Failed to load template.")
                    (set_nextId 1 (set_messages [] s))) as Hstep.
    { unfold handleTemplateChange. apply truthy_true in Hname. rewrite Hname.
      unfold loadTemplate, tryCatch. rewrite Hlookup. reflexivity. }
    rewrite Hstep. repeat split. apply since_app. reflexivity.
Qed.

Lemma template_select_edges_witness :
  asyncTemplates Sample.world (lit "missing") = None /\
  ~ In (lit "missing") OBJECT_PROTOTYPE_KEYS /\
  messages (handleTemplateChange Sample.world (lit "missing")
              Sample.withPicture)
  = messages Sample.withPicture /\
  asyncTemplates Sample.world (lit "constructor") = None /\
  In (lit "constructor") OBJECT_PROTOTYPE_KEYS /\
  messages (handleTemplateChange Sample.world (lit "constructor")
              Sample.withPicture)
  = [] /\
  since Sample.withPicture
        (handleTemplateChange Sample.world (lit "constructor")
                              Sample.withPicture)
  = [Alert (lit "Failed to load template.")].
Proof.
  assert (~ In (lit "missing") OBJECT_PROTOTYPE_KEYS) as Hown.
  { cbn. intuition discriminate. }
  assert (In (lit "constructor") OBJECT_PROTOTYPE_KEYS) as Hinherited
    by (left; reflexivity).
  destruct (template_select_edges Sample.world Sample.withPicture)
    as (_ & Habsent & Hproto).
  destruct (Habsent (lit "missing") eq_refl Hown) as (_ & Hmsgs & _);
    [discriminate|].
  destruct (Hproto (lit "constructor") eq_refl Hinherited)
    as (_ & Hempty & _ & _ & _ & Hlog).
  split; [reflexivity | split; [exact Hown | split; [exact Hmsgs|]]].
  split; [reflexivity | split; [exact Hinherited|]].
  split; [exact Hempty | exact Hlog].
Defined.

(* ------------------------------------------------------------------ *)
(** ** Reading blobs *)

Lemma split_without_separator sep u : ~ In sep u -> split sep u = [u].
Proof.
  induction u as [|c u IH]; intros Hnot; [reflexivity|]. cbn [split].
  destruct (N.eqb_spec c sep) as [-> | _].
  - exfalso. apply Hnot. left. reflexivity.
  - rewrite IH by (intros Hin; apply Hnot; right; exact Hin). reflexivity.
Qed.

Lemma split_at_first_separator sep header rest :
  ~ In sep header ->
  split sep (header ++ sep :: rest) = header :: split sep rest.
Proof.
  induction header as [|c header IH]; intros Hnot; cbn [app split].
  - rewrite N.eqb_refl. reflexivity.
  - destruct (N.eqb_spec c sep) as [-> | _].
    + exfalso. apply Hnot. left. reflexivity.
    + rewrite IH by (intros Hin; apply Hnot; right; exact Hin). reflexivity.
Qed.

(** X17. [blobToBase64] and [blobToDataUrl] read the blob the same way,
    and the first resolves to what stands in the data URL between its
    first comma and its second, or its end: the whole payload of a data
    URL with one comma, only the start of a payload that holds a comma
    itself, and [undefined] when the data URL holds no comma. Both
    reject with the error of the read. *)
Theorem base64_is_between_the_commas (w : World) (b : Blob) :
  (forall header payload,
      blobToDataUrl w b = Ok (header ++ COMMA :: payload) ->
      ~ In COMMA header ->
      ~ In COMMA payload ->
      blobToBase64 w b = Ok (Some payload)) /\
  (forall header payload tail,
      blobToDataUrl w b = Ok (header ++ COMMA :: payload ++ COMMA :: tail) ->
      ~ In COMMA header ->
      ~ In COMMA payload ->
      blobToBase64 w b = Ok (Some payload)) /\
  (forall dataUrl,
      blobToDataUrl w b = Ok dataUrl ->
      ~ In COMMA dataUrl ->
      blobToBase64 w b = Ok None) /\
  (forall e,
      blobToDataUrl w b = Throw e <-> blobToBase64 w b = Throw e).
Proof.
  unfold blobToDataUrl. split; [|split; [|split]].
  - intros header payload Hread Hheader Hpayload.
    rewrite (blobToBase64_Ok _ _ Hread).
    rewrite (@split_at_first_separator _ _ _ Hheader).
    rewrite (@split_without_separator _ _ Hpayload). reflexivity.
  - intros header payload tail Hread Hheader Hpayload.
    rewrite (blobToBase64_Ok _ _ Hread).
    rewrite (@split_at_first_separator _ _ _ Hheader).
    rewrite (@split_at_first_separator _ _ _ Hpayload). reflexivity.
  - intros dataUrl Hread Hnone.
    rewrite (blobToBase64_Ok _ _ Hread).
    rewrite (@split_without_separator _ _ Hnone). reflexivity.
  - intros e. unfold blobToBase64.
    destruct (readAsDataURL w b); split; congruence.
Qed.

Lemma base64_is_between_the_commas_witness :
  blobToDataUrl Sample.world Sample.png
  = Ok (lit "data:image/png;base64" ++ COMMA :: lit "QUJD") /\
  ~ In COMMA (lit "data:image/png;base64") /\
  ~ In COMMA (lit "QUJD") /\
  blobToBase64 Sample.world Sample.png = Ok (Some (lit "QUJD")).
Proof.
  assert (~ In COMMA (lit "data:image/png;base64")) as Hheader.
  { cbn. intuition discriminate. }
  assert (~ In COMMA (lit "QUJD")) as Hpayload.
  { cbn. intuition discriminate. }
  split; [reflexivity | split; [exact Hheader | split; [exact Hpayload|]]].
  exact (proj1 (base64_is_between_the_commas Sample.world Sample.png)
               (lit "data:image/png;base64") (lit "QUJD")
               eq_refl Hheader Hpayload).
Defined.

(* ------------------------------------------------------------------ *)
(** ** Reading ids back *)

Lemma leadingDigits_digits d :
  leadingDigits 10 (digits d) = map (fun c => c - 48)%N (digits d).
Proof.
  induction d; cbn [digits leadingDigits map]; [reflexivity|..];
    rewrite IHd; reflexivity.
Qed.

Lemma numberOf_digits_from d : forall d',
  fold_left (fun acc digit => acc * 10 + digit)%N
            (map (fun c => c - 48)%N (digits d))
            (DecimalPos.Unsigned.of_lu d')
  = DecimalPos.Unsigned.of_lu (Decimal.revapp d d').
Proof.
  induction d; intros d'; cbn [digits map fold_left Decimal.revapp];
    [reflexivity|..];
    rewrite <- IHd; f_equal; cbn [DecimalPos.Unsigned.of_lu]; lia.
Qed.

Lemma numberOf_digits d :
  numberOf 10 (map (fun c => c - 48)%N (digits d)) = N.of_uint d.
Proof.
  unfold numberOf, N.of_uint. rewrite DecimalPos.Unsigned.of_uint_alt.
  exact (numberOf_digits_from d Decimal.Nil).
Qed.

Lemma parseInt_digits d :
  d <> Decimal.Nil ->
  parseInt (digits d) = Some (Z.of_N (N.of_uint d)).
Proof.
  intros Hd.
  assert (parseInt (digits d)
          = match leadingDigits 10 (digits d) with
            | [] => None
            | ds => Some (Z.of_N (numberOf 10 ds))
            end) as Hplain.
  { destruct d as [|d|d|d|d|d|d|d|d|d|d]; try reflexivity;
      destruct d; reflexivity. }
  rewrite Hplain, leadingDigits_digits, <- numberOf_digits.
  destruct d; [congruence|..]; reflexivity.
Qed.

Lemma parseInt_ofNumber n : parseInt (ofNumber n) = Some (Z.of_N n).
Proof.
  unfold ofNumber. rewrite parseInt_digits.
  - rewrite DecimalN.Unsigned.of_to. reflexivity.
  - destruct n as [|p]; [discriminate|].
    apply DecimalPos.Unsigned.to_uint_nonnil.
Qed.

Lemma maxWithZero_ofNumber ns :
  maxWithZero (map parseInt (map ofNumber ns)) = Some (Z.of_N (largest ns)).
Proof.
  induction ns as [|n ns IH]; [reflexivity|].
  cbn [map maxWithZero fold_right largest].
  fold (maxWithZero (map parseInt (map ofNumber ns))). rewrite IH.
  rewrite parseInt_ofNumber. fold (largest ns). f_equal. lia.
Qed.

Lemma counterAfter_ofNumber ns :
  (largest ns < TWO_53)%N ->
  counterAfter (map ofNumber ns) = Exact (largest ns + 1)%N.
Proof.
  intros Hexact. unfold counterAfter. rewrite maxWithZero_ofNumber.
  assert ((Z.of_N (largest ns) <? Z.of_N TWO_53)%Z = true) as ->
      by (apply Z.ltb_lt; lia).
  f_equal. lia.
Qed.

Lemma largest_lt ns bound :
  (0 < bound)%N -> (forall n, In n ns -> (n < bound)%N) ->
  (largest ns < bound)%N.
Proof.
  intros Hpos. induction ns as [|m ns IH]; intros Hall; [exact Hpos|].
  cbn [largest fold_right]. fold (largest ns).
  assert (m < bound)%N by (apply Hall; left; reflexivity).
  assert (largest ns < bound)%N
    by (apply IH; intros n Hn; apply Hall; right; exact Hn).
  lia.
Qed.

Lemma largest_bounds ns n : In n ns -> (n <= largest ns)%N.
Proof.
  induction ns as [|m ns IH]; intros Hin; [destruct Hin|].
  cbn [largest fold_right]. fold (largest ns).
  destruct Hin as [<- | Hin]; [lia|]. specialize (IH Hin). lia.
Qed.

Lemma largest_below ns bound :
  (forall n, In n ns -> (n < bound)%N) -> (largest ns + 1 <= N.max bound 1)%N.
Proof.
  induction ns as [|m ns IH]; intros Hall; [cbn; lia|].
  cbn [largest fold_right]. fold (largest ns).
  assert (m < bound)%N by (apply Hall; left; reflexivity).
  assert (largest ns + 1 <= N.max bound 1)%N
    by (apply IH; intros n Hn; apply Hall; right; exact Hn).
  lia.
Qed.

(** Ids that are numbers, as a list of numbers. *)
Lemma numbers_of_ids (l : list jsstring) :
  (forall id, In id l -> exists n, id = ofNumber n) ->
  exists ns, l = map ofNumber ns.
Proof.
  induction l as [|id l IH]; intros Hall; [exists []; reflexivity|].
  destruct (Hall id (or_introl eq_refl)) as [n ->].
  destruct IH as [ns ->]; [intros i Hi; apply Hall; right; exact Hi|].
  exists (n :: ns). reflexivity.
Qed.

(* ------------------------------------------------------------------ *)
(** ** What a session saves *)

Lemma saved_ids (l : list MessageItem) : map st_id (map stored l) = map msg_id l.
Proof. rewrite map_map. reflexivity. Qed.

Lemma restorable_messages s :
  wellFormedIds s -> (nextId s <= TWO_53)%N ->
  restorable (SaveMessages (map stored (messages s))).
Proof.
  intros [Hnodup Hissued] Hexact. cbn [restorable]. rewrite saved_ids.
  split; [exact Hnodup|]. intros id Hin.
  destruct (Hissued id Hin) as (n & Hlt & Hid). exists n.
  split; [exact Hid | lia].
Qed.

Lemma kept_outputs_decreasing (keep : OutputItem -> bool) l : forall ns bound,
  map out_id l = map ofNumber ns ->
  decreasing bound ns ->
  exists ns', map out_id (filter keep l) = map ofNumber ns' /\
              decreasing bound ns'.
Proof.
  induction l as [|o l IH]; intros ns bound Hids Hdec.
  - exists []. split; [reflexivity | exact I].
  - destruct ns as [|n ns]; [discriminate|]. injection Hids as Ho Hl.
    destruct Hdec as [Hlt Hrest].
    destruct (IH ns n Hl Hrest) as (ns' & Hids' & Hdec').
    cbn [filter]. destruct (keep o).
    + exists (n :: ns'). split; [cbn [map]; rewrite Ho, Hids'; reflexivity|].
      split; assumption.
    + exists ns'. split; [exact Hids'|].
      apply (@decreasing_weaken ns' n bound); [lia | exact Hdec'].
Qed.

Lemma settled_filter (l : list OutputItem) :
  settled (filter (fun output => negb (out_loading output)) l).
Proof.
  apply Forall_forall. intros o Hin. apply filter_In in Hin as [_ Hin].
  apply negb_true_iff, Hin.
Qed.

Lemma restorable_outputs s :
  newestFirst s -> (nextOutputId s <= TWO_53)%N ->
  restorable (SaveOutputs (filter (fun output => negb (out_loading output))
                                  (outputs s))).
Proof.
  intros (ns & Hids & Hdec) Hexact. split; [apply settled_filter|].
  destruct (@kept_outputs_decreasing
              (fun output => negb (out_loading output)) (outputs s) ns _
              Hids Hdec)
    as (ns' & Hids' & Hdec').
  exists ns', (nextOutputId s). split; [|split]; assumption.
Qed.

(** One step of a session, by what it adds to the log. *)
Lemma log_step s s' added :
  effects s' = effects s ++ added ->
  Forall restorable added ->
  Forall restorable (effects s) -> Forall restorable (effects s').
Proof.
  intros Hlog Hadded Hs. rewrite Hlog. apply Forall_app. split; assumption.
Qed.

Lemma log_same s s' :
  effects s' = effects s ->
  Forall restorable (effects s) -> Forall restorable (effects s').
Proof. intros ->. tauto. Qed.

Lemma log_alert message s :
  Forall restorable (effects s) ->
  Forall restorable (effects (alert message s)).
Proof.
  apply (@log_step s (alert message s) [Alert message] eq_refl).
  repeat constructor.
Qed.

Lemma newestFirst_same s s' :
  map out_id (outputs s') = map out_id (outputs s) ->
  (nextOutputId s <= nextOutputId s')%N ->
  newestFirst s -> newestFirst s'.
Proof.
  intros Hids Hn (ns & Hns & Hdec). exists ns. split; [congruence|].
  apply (@decreasing_weaken ns (nextOutputId s)); assumption.
Qed.

Lemma updateOutput_restorable id imageUrl text s :
  (nextOutputId s <= TWO_53)%N ->
  newestFirst s -> Forall restorable (effects s) ->
  newestFirst (updateOutput id imageUrl text s) /\
  Forall restorable (effects (updateOutput id imageUrl text s)).
Proof.
  intros Hexact Hnew Hlog.
  assert (newestFirst (updateOutput id imageUrl text s)) as Hnew'.
  { unfold updateOutput. destruct (find (hasOutputId id) (outputs s));
      [|exact Hnew].
    revert Hnew. apply newestFirst_same; cbn; [|lia].
    apply out_ids_mutateFound. }
  split; [exact Hnew'|].
  destruct (find (hasOutputId id) (outputs s)) as [o|] eqn:Hfound.
  - apply (@log_step s _ _ (updateOutput_effects _ _ _ _ Hfound));
      [|exact Hlog].
    constructor; [exact I|]. constructor; [|constructor].
    apply restorable_outputs; [exact Hnew'|].
    destruct (updateOutput_frame id imageUrl text s) as (_ & _ & ->).
    exact Hexact.
  - unfold updateOutput. rewrite Hfound. exact Hlog.
Qed.

Lemma applyUpdates_restorable id us : forall s,
  (nextOutputId s <= TWO_53)%N ->
  newestFirst s -> Forall restorable (effects s) ->
  Forall restorable (effects (applyUpdates id us s)).
Proof.
  induction us as [|u us IH]; intros s Hexact Hnew Hlog; [exact Hlog|].
  destruct (@updateOutput_restorable id (fst u) (snd u) s Hexact Hnew Hlog)
    as [A B].
  apply (IH (updateOutput id (fst u) (snd u) s)); [|exact A | exact B].
  destruct (updateOutput_frame id (fst u) (snd u) s) as (_ & _ & ->).
  exact Hexact.
Qed.

Lemma flow_restorable showImage s pre us :
  Forall restorable pre ->
  (nextOutputId s + 1 <= TWO_53)%N ->
  newestFirst s -> Forall restorable (effects s) ->
  Forall restorable
    (effects
       (applyUpdates (newOutputId s) us
          (mkState (messages s) (nextId s) (created showImage s :: outputs s)
             (nextOutputId s + 1) (draggedId s) (apiKeyInput s)
             (systemMessage s)
             (effects s ++ [RenderOutputs (created showImage s :: outputs s)]
              ++ pre)))).
Proof.
  intros Hpre Hexact (ns & Hids & Hdec) Hlog. apply applyUpdates_restorable.
  - exact Hexact.
  - exists (nextOutputId s :: ns). split.
    + cbn [outputs map created out_id]. rewrite Hids. reflexivity.
    + cbn [nextOutputId]. split; [lia | exact Hdec].
  - cbn [effects]. apply Forall_app. split; [exact Hlog|].
    constructor; [exact I | exact Hpre].
Qed.

Lemma handleGenerateImage_restorable w s :
  (nextOutputId (handleGenerateImage w s) <= TWO_53)%N ->
  newestFirst s -> Forall restorable (effects s) ->
  Forall restorable (effects (handleGenerateImage w s)).
Proof.
  intros Hexact Hnew Hlog. destruct (canGenerate_or_not s) as [Hcan | Hnot].
  - destruct (handleGenerateImage_shape w Hcan) as (pre & u & Hshape & Hpre).
    rewrite Hshape in Hexact |- *.
    rewrite (proj2 (proj2 (applyUpdates_frame _ _ _))) in Hexact.
    apply flow_restorable; [|exact Hexact | assumption..].
    rewrite Hpre. destruct (snd (buildImageParts w (systemText s) s));
      repeat constructor.
  - apply cannot_generate_alerts in Hnot. unfold handleGenerateImage.
    destruct Hnot as [Hk | [Hk Hs]]; rewrite Hk; [|rewrite Hs];
      apply log_alert, Hlog.
Qed.

Lemma handleGenerateText_restorable w s :
  (nextOutputId (handleGenerateText w s) <= TWO_53)%N ->
  newestFirst s -> Forall restorable (effects s) ->
  Forall restorable (effects (handleGenerateText w s)).
Proof.
  intros Hexact Hnew Hlog. destruct (canGenerate_or_not s) as [Hcan | Hnot].
  - destruct (handleGenerateText_shape w Hcan)
      as (pre & us & Hshape & Hpre & _).
    rewrite Hshape in Hexact |- *.
    rewrite (proj2 (proj2 (applyUpdates_frame _ _ _))) in Hexact.
    apply flow_restorable; [|exact Hexact | assumption..].
    rewrite Hpre. destruct (snd (buildTextParts w s)); repeat constructor.
  - apply cannot_generate_alerts in Hnot. unfold handleGenerateText.
    destruct Hnot as [Hk | [Hk Hs]]; rewrite Hk; [|rewrite Hs];
      apply log_alert, Hlog.
Qed.

(** A handler that ends by rendering and saving the message list. *)
Lemma log_saved_messages s s' pre :
  effects s'
  = effects s ++ pre ++ [SaveMessages (map stored (messages s'))] ->
  Forall restorable pre ->
  wellFormedIds s' -> (nextId s' <= TWO_53)%N ->
  Forall restorable (effects s) -> Forall restorable (effects s').
Proof.
  intros Hlog Hpre Hwf Hexact. apply (@log_step s s' _ Hlog).
  apply Forall_app. split; [exact Hpre|].
  constructor; [|constructor]. apply restorable_messages; assumption.
Qed.

Lemma forOf_loadEntry_effects w l : forall s,
  effects (fst (forOf (loadEntry w) tt l s)) = effects s.
Proof.
  induction l as [|msg l IH]; intros s; [reflexivity|].
  cbn [forOf]. unfold bind.
  destruct (fetchImage w msg) as [image|e] eqn:Hfetch.
  - rewrite (loadEntry_decoded _ _ _ Hfetch), IH. reflexivity.
  - rewrite (loadEntry_failed _ _ _ Hfetch). reflexivity.
Qed.

Lemma loadTemplate_restorable w templateName s :
  wellFormedIds s ->
  (nextId (loadTemplate w templateName s) <= TWO_53)%N ->
  Forall restorable (effects s) ->
  Forall restorable (effects (loadTemplate w templateName s)).
Proof.
  intros Hwf Hexact Hlog.
  pose proof (@loadTemplate_wellFormed w templateName s Hwf) as Hwf'.
  revert Hwf' Hexact. unfold loadTemplate, tryCatch.
  destruct (lookup w templateName) as [template| |].
  - unfold bind at 1 2. unfold modify at 1 2. unfold bind at 1.
    set (entries := filter (fun m => negb (isSystem m)) (tmpl_messages template)).
    destruct (find isSystem (tmpl_messages template)) as [systemMsg|];
      unfold bind, modify, ret.
    + pose proof (forOf_loadEntry_effects w entries
                    (saveSystemMessage (tm_text systemMsg)
                       (set_systemMessage (normalizeNewlines (tm_text systemMsg))
                          (set_nextId 1 (set_messages [] s))))) as Heff.
      destruct (forOf (loadEntry w) tt entries _) as [st' [[]|e]];
        cbn [fst] in Heff; intros Hwf' Hexact.
      * apply (@log_saved_messages s _
                 [SaveSystemMessage (tm_text systemMsg);
                  RenderMessages (messages st')]);
          [|repeat constructor | exact Hwf' | exact Hexact | exact Hlog].
        cbn. rewrite Heff. cbn. rewrite <- !app_assoc. reflexivity.
      * apply (@log_step s _ [SaveSystemMessage (tm_text systemMsg);
                               Alert (lit "Failed to load template.")]);
          [|repeat constructor | exact Hlog].
        cbn. rewrite Heff. cbn. rewrite <- !app_assoc. reflexivity.
    + pose proof (forOf_loadEntry_effects w entries
                    (set_nextId 1 (set_messages [] s))) as Heff.
      destruct (forOf (loadEntry w) tt entries _) as [st' [[]|e]];
        cbn [fst] in Heff; intros Hwf' Hexact.
      * apply (@log_saved_messages s _ [RenderMessages (messages st')]);
          [|repeat constructor | exact Hwf' | exact Hexact | exact Hlog].
        cbn. rewrite Heff. cbn. rewrite <- !app_assoc. reflexivity.
      * apply (@log_step s _ [Alert (lit "Failed to load template.")]);
          [|repeat constructor | exact Hlog].
        cbn. rewrite Heff. reflexivity.
  - intros _ _. apply (@log_step s _ [Alert (lit "Failed to load template.")]);
      [reflexivity | repeat constructor | exact Hlog].
  - intros _ _. apply (@log_step s _ [Alert (lit "Failed to load template.")]);
      [reflexivity | repeat constructor | exact Hlog].
Qed.

Lemma updateMessageText_restorable id text s :
  wellFormedIds s -> (nextId s <= TWO_53)%N ->
  Forall restorable (effects s) ->
  Forall restorable (effects (updateMessageText id text s)).
Proof.
  intros Hwf Hexact Hlog.
  pose proof (@updateMessageText_wellFormed id text s Hwf) as Hwf'.
  revert Hwf'. unfold updateMessageText.
  destruct (find (hasId id) (messages s)); [|intros _; exact Hlog].
  intros Hwf'. apply (@log_saved_messages s _ []);
    [reflexivity | constructor | exact Hwf' | exact Hexact | exact Hlog].
Qed.

Lemma updateMessageImage_restorable w id file s :
  wellFormedIds s -> (nextId s <= TWO_53)%N ->
  Forall restorable (effects s) ->
  Forall restorable (effects (fst (updateMessageImage w id file s))).
Proof.
  intros Hwf Hexact Hlog.
  pose proof (@updateMessageImage_wellFormed w id file s Hwf) as Hwf'.
  revert Hwf'. unfold updateMessageImage.
  destruct (negb (startsWith (blob_type file) (lit "image/")));
    [intros _; exact Hlog|].
  unfold bind, get. destruct (find (hasId id) (messages s));
    [|intros _; exact Hlog].
  unfold await, blobToDataUrl. destruct (readAsDataURL w file) as [dataUrl|e];
    [|intros _; exact Hlog].
  unfold modify. cbn [fst]. intros Hwf'.
  apply (@log_saved_messages s _
           [RenderMessages
              (mutateFound (hasId id)
                 (fun msg => mkMessage (msg_id msg) (msg_text msg)
                               (Some (mkImage file (blob_type file) dataUrl)))
                 (messages s))]);
    [|repeat constructor | exact Hwf' | exact Hexact | exact Hlog].
  cbn. rewrite <- app_assoc. reflexivity.
Qed.

Lemma handleDrop_restorable isTop targetId s :
  wellFormedIds s -> (nextId s <= TWO_53)%N ->
  Forall restorable (effects s) ->
  Forall restorable (effects (handleDrop isTop targetId s)).
Proof.
  intros Hwf Hexact Hlog.
  pose proof (@handleDrop_wellFormed isTop targetId s Hwf) as Hwf'.
  revert Hwf'. unfold handleDrop.
  destruct (isDragged (draggedId s) targetId); [intros _; exact Hlog|].
  destruct (findIndex _ (messages s)) as [i|]; [|intros _; exact Hlog].
  destruct (findIndex (hasId targetId) (messages s)) as [j|];
    [|intros _; exact Hlog].
  destruct (spliceOut i (messages s)) as [[|x taken] remaining];
    [intros _; exact Hlog|].
  intros Hwf'.
  apply (@log_saved_messages s _
           [RenderMessages
              (spliceIn (if i <? j
                         then (if isTop then j - 1 else j)
                         else (if isTop then j else j + 1)) x remaining)]);
    [|repeat constructor | exact Hwf' | exact Hexact | exact Hlog].
  cbn. rewrite <- app_assoc. reflexivity.
Qed.

(** Every handler keeps what it saves restorable. *)
Lemma perform_restorable w a s :
  exactCounters s -> exactCounters (perform w a s) ->
  wellFormedIds s -> newestFirst s -> Forall restorable (effects s) ->
  Forall restorable (effects (perform w a s)).
Proof.
  intros [Hid Hout] [Hid' Hout'] Hwf Hnew Hlog.
  pose proof (@perform_wellFormed w a s Hwf) as Hwf'.
  pose proof (@perform_newestFirst w a s Hnew) as Hnew'.
  destruct a; cbn [perform] in *.
  - apply (@log_saved_messages s _ [RenderMessages (messages (addItem s))]);
      [|repeat constructor | exact Hwf' | exact Hid' | exact Hlog].
    cbn. rewrite <- app_assoc. reflexivity.
  - apply (@log_saved_messages s _
             [RenderMessages (messages (deleteMessage id s))]);
      [|repeat constructor | exact Hwf' | exact Hid' | exact Hlog].
    cbn. rewrite <- app_assoc. reflexivity.
  - apply (@log_saved_messages s _ [RenderMessages []]);
      [|repeat constructor | exact Hwf' | exact Hid' | exact Hlog].
    cbn. rewrite <- app_assoc. reflexivity.
  - apply updateMessageText_restorable; assumption.
  - apply updateMessageImage_restorable; assumption.
  - exact Hlog.
  - apply handleDrop_restorable; assumption.
  - exact Hlog.
  - apply handleGenerateImage_restorable; assumption.
  - apply handleGenerateText_restorable; assumption.
  - apply (@log_step s _
             [RenderOutputs (outputs (deleteOutput id s));
              SaveOutputs (filter (fun output => negb (out_loading output))
                                  (outputs (deleteOutput id s)))]);
      [|repeat constructor; apply restorable_outputs; assumption
       | exact Hlog].
    cbn. rewrite <- app_assoc. reflexivity.
  - apply (@log_step s _ [RenderOutputs []; SaveOutputs []]);
      [| |exact Hlog].
    + cbn. rewrite <- app_assoc. reflexivity.
    + repeat constructor. exists [], 0%N.
      split; [reflexivity | split; [exact I | apply N.le_0_l]].
  - apply (@log_step s (inputApiKey value s) [SaveApiKey (trim value)] eq_refl);
      [repeat constructor | exact Hlog].
  - apply (@log_step s (inputSystemMessage value s)
             [SaveSystemMessage (trim value)] eq_refl);
      [repeat constructor | exact Hlog].
  - apply loadTemplate_restorable; assumption.
Qed.

Lemma staysExact_head w actions s : staysExact w actions s -> exactCounters s.
Proof. destruct actions; intros [H _]; exact H. Qed.

Lemma session_restorable w actions : forall s,
  staysExact w actions s ->
  wellFormedIds s -> newestFirst s -> Forall restorable (effects s) ->
  wellFormedIds (session w actions s) /\
  newestFirst (session w actions s) /\
  Forall restorable (effects (session w actions s)).
Proof.
  induction actions as [|a actions IH]; intros s Hexact Hwf Hnew Hlog; [auto|].
  destruct Hexact as [Hs Hrest]. cbn [session fold_left]. apply IH.
  - exact Hrest.
  - apply perform_wellFormed, Hwf.
  - apply perform_newestFirst, Hnew.
  - apply perform_restorable; try assumption.
    exact (staysExact_head _ _ _ Hrest).
Qed.

(** *** What a restart finds *)

Lemma write_restorable st e :
  restorable e -> restorableStore st -> restorableStore (write st e).
Proof.
  intros He (Hkey & Hsys & Hmsgs & Houts).
  destruct e; cbn [write]; try (repeat split; assumption).
  - split; [exact Hkey|]. split; [exact Hsys|]. split; [|exact Houts].
    right. eexists. split; [reflexivity | exact He].
  - split; [exact Hkey|]. split; [exact Hsys|]. split; [exact Hmsgs|].
    right. eexists. split; [reflexivity | exact He].
  - split; [exact Hkey|]. split; [eexists; reflexivity|].
    split; [exact Hmsgs | exact Houts].
  - split; [eexists; reflexivity|]. split; [exact Hsys|].
    split; [exact Hmsgs | exact Houts].
Qed.

Lemma storeAfter_restorable s : forall st,
  Forall restorable (effects s) ->
  restorableStore st -> restorableStore (storeAfter st s).
Proof.
  unfold storeAfter. induction (effects s) as [|e log IH]; intros st Hlog Hst;
    [exact Hst|].
  inversion Hlog as [|x xs He Hrest]; subst. cbn [fold_left].
  apply IH; [exact Hrest | apply write_restorable; assumption].
Qed.

Lemma restoreAll_stored w stored0 : forall restored,
  restoreAll w stored0 = Ok restored ->
  map stored restored = stored0 /\ Forall (imageInSync w) restored.
Proof.
  induction stored0 as [|msg l IH]; intros restored H; cbn [restoreAll] in H.
  - injection H as <-. split; [reflexivity | constructor].
  - destruct (restoreMessage w msg) as [m|e] eqn:Hm; [|discriminate].
    destruct (restoreAll w l) as [ms|e]; [|discriminate].
    injection H as <-. destruct (IH ms eq_refl) as [Hl Hsync].
    unfold restoreMessage in Hm. destruct msg as [id text image].
    cbn [st_image st_id st_text] in Hm.
    destruct image as [[b mime]|].
    + unfold blobToDataUrl in Hm.
      destruct (readAsDataURL w b) as [u|e] eqn:Hread; [|discriminate].
      injection Hm as <-. split.
      * cbn [map]. rewrite Hl. reflexivity.
      * constructor; [exact Hread | exact Hsync].
    + injection Hm as <-. split.
      * cbn [map]. rewrite Hl. reflexivity.
      * constructor; [exact I | exact Hsync].
Qed.

Lemma restoreAll_readable w (l : list MessageItem) :
  allReadable w l = true -> exists restored, restoreAll w (map stored l) = Ok restored.
Proof.
  induction l as [|msg l IH]; intros H; [exists []; reflexivity|].
  unfold allReadable in H. cbn [forallb] in H.
  apply andb_true_iff in H as [Hmsg Hl]. destruct (IH Hl) as [ms Hms].
  cbn [map restoreAll]. rewrite Hms. unfold restoreMessage, stored.
  cbn [st_image st_id st_text]. destruct (msg_image msg) as [img|].
  - unfold blobToDataUrl. destruct (readAsDataURL w (blob img));
      [|discriminate]. eexists. reflexivity.
  - eexists. reflexivity.
Qed.

Lemma restoreAll_unreadable w l : forall msg b mime e,
  In msg l ->
  st_image msg = Some (b, mime) ->
  readAsDataURL w b = Throw e ->
  exists e', restoreAll w l = Throw e'.
Proof.
  induction l as [|x l IH]; intros msg b mime e Hin Himage Hread;
    [destruct Hin|].
  cbn [restoreAll]. destruct Hin as [-> | Hin].
  - unfold restoreMessage, blobToDataUrl. rewrite Himage, Hread.
    eexists. reflexivity.
  - destruct (restoreMessage w x); [|eexists; reflexivity].
    destruct (IH msg b mime e Hin Himage Hread) as [e' ->].
    eexists. reflexivity.
Qed.

Lemma decreasing_from_largest ns : forall bound,
  decreasing bound ns -> decreasing (largest ns + 1) ns.
Proof.
  destruct ns as [|n ns]; intros bound H; [exact I|].
  destruct H as [_ Hrest]. split; [|exact Hrest].
  cbn [largest fold_right]. lia.
Qed.

(** The two inputs after [loadState] has read the key and the system
    text. *)
Lemma load_inputs st apiKey systemMsg :
  (exists v, get_apiKey st = Ok v) ->
  (exists v, get_systemMessage st = Ok v) ->
  andThen (loadApiKey st (initial apiKey systemMsg)) (loadSystemMessage st)
  = Going (initial
             (match get_apiKey st with
              | Ok (Some v) => if truthy v then v else apiKey
              | _ => apiKey
              end)
             (match get_systemMessage st with
              | Ok (Some v) => if truthy v then normalizeNewlines v
                               else systemMsg
              | _ => systemMsg
              end)).
Proof.
  intros [k Hk] [m Hm]. unfold loadApiKey, loadSystemMessage.
  rewrite Hk. destruct k as [k|]; cbn [andThen]; rewrite Hm;
    destruct m as [m|]; try destruct (truthy k); try destruct (truthy m);
    reflexivity.
Qed.

(** Ids that are numbers below a bound, as a list of numbers. *)
Lemma bounded_numbers_of_ids (l : list jsstring) (bound : N) :
  (forall id, In id l -> exists n, id = ofNumber n /\ (n < bound)%N) ->
  exists ns, l = map ofNumber ns /\ forall n, In n ns -> (n < bound)%N.
Proof.
  induction l as [|id l IH]; intros Hall.
  - exists []. split; [reflexivity | intros n []].
  - destruct (Hall id (or_introl eq_refl)) as (n & -> & Hn).
    destruct IH as (ns & -> & Hns); [intros i Hi; apply Hall; right; exact Hi|].
    exists (n :: ns). split; [reflexivity|].
    intros m [<- | Hm]; [exact Hn | apply Hns, Hm].
Qed.

Lemma ofNumber_map_inj ns : forall ns',
  map ofNumber ns = map ofNumber ns' -> ns = ns'.
Proof.
  induction ns as [|n ns IH]; intros [|n' ns'] H; try discriminate;
    [reflexivity|].
  injection H as Hn Hns. apply ofNumber_inj in Hn. subst n'.
  f_equal. apply IH, Hns.
Qed.

Lemma TWO_53_positive : (0 < TWO_53)%N.
Proof. reflexivity. Qed.

Lemma loadMessages_restorable w st s :
  messages s = [] -> nextId s = 1%N ->
  get_messages st = Ok None \/
  (exists stored0, get_messages st = Ok (Some stored0) /\
                   restorable (SaveMessages stored0)) ->
  (exists s', loadMessages w st s = Going s' /\ wellFormedIds s' /\
              (nextId s' <= TWO_53)%N /\
              outputs s' = outputs s /\ nextOutputId s' = nextOutputId s /\
              effects s' = effects s /\ apiKeyInput s' = apiKeyInput s /\
              systemMessage s' = systemMessage s) \/
  loadMessages w st s = Caught s.
Proof.
  intros Hempty Hnext [Hnone | (stored0 & Hsome & Hnodup & Hnum)].
  - left. exists s. unfold loadMessages. rewrite Hnone.
    split; [reflexivity|]. split; [|split; [rewrite Hnext; discriminate|auto]].
    split; [unfold ids; rewrite Hempty; constructor|].
    unfold ids. rewrite Hempty. intros id [].
  - unfold loadMessages. rewrite Hsome.
    destruct (restoreAll w stored0) as [restored|e] eqn:Hall; [|right; reflexivity].
    left. destruct (@restoreAll_stored w stored0 restored Hall) as [Hstored _].
    assert (map msg_id restored = map st_id stored0) as Hids
      by (rewrite <- Hstored; symmetry; apply saved_ids).
    destruct (@bounded_numbers_of_ids _ _ Hnum) as (ns & Hns & Hbound).
    pose proof (@largest_lt ns TWO_53 TWO_53_positive Hbound) as Hlargest.
    rewrite Hids, Hns, (counterAfter_ofNumber ns Hlargest).
    eexists. split; [reflexivity|]. split; [|split; [|auto]].
    + unfold wellFormedIds, ids. cbn [messages set_messages set_nextId nextId].
      rewrite Hids. split; [exact Hnodup|].
      intros id Hin. rewrite Hns in Hin.
      apply in_map_iff in Hin as (n & <- & Hin).
      exists n. split; [|reflexivity].
      pose proof (@largest_bounds ns n Hin). lia.
    + cbn [nextId set_nextId]. lia.
Qed.

Lemma loadOutputs_restorable st s :
  get_outputs st = Ok None \/
  (exists stored0, get_outputs st = Ok (Some stored0) /\
                   restorable (SaveOutputs stored0)) ->
  outputs s = [] -> (nextOutputId s <= TWO_53)%N ->
  exists s', (loadOutputs st s = Going s' \/ loadOutputs st s = Caught s') /\
             messages s' = messages s /\ nextId s' = nextId s /\
             effects s' = effects s /\ apiKeyInput s' = apiKeyInput s /\
             systemMessage s' = systemMessage s /\
             newestFirst s' /\ settled (outputs s') /\
             (nextOutputId s' <= TWO_53)%N.
Proof.
  intros [Hnone | (stored0 & Hsome & _ & ns & bound & Hids & Hdec & Hbound)]
         Hempty Hexact.
  - exists s. unfold loadOutputs. rewrite Hnone. split; [left; reflexivity|].
    repeat (split; [reflexivity|]). rewrite Hempty.
    split; [|split; [constructor | exact Hexact]]. exists []. rewrite Hempty.
    split; [reflexivity | exact I].
  - unfold loadOutputs. rewrite Hsome.
    destruct (@kept_outputs_decreasing
                (fun output => negb (out_loading output)) stored0 ns _
                Hids Hdec)
      as (ns' & Hids' & Hdec').
    assert (largest ns' < TWO_53)%N as Hlargest.
    { apply largest_lt; [exact TWO_53_positive|]. intros n Hin.
      pose proof (@decreasing_below ns' bound n Hdec' Hin). lia. }
    rewrite Hids', (counterAfter_ofNumber ns' Hlargest).
    eexists. split; [left; reflexivity|].
    repeat (split; [reflexivity|]).
    split; [|split; [apply settled_filter | cbn [nextOutputId set_nextOutputId]; lia]].
    exists ns'. split; [exact Hids'|].
    exact (@decreasing_from_largest ns' bound Hdec').
Qed.

(** From a restorable store the constructor gets a state that is as
    good as the states of a session. *)
Lemma start_restorable w st apiKey systemMsg :
  restorableStore st ->
  exists s', start w st apiKey systemMsg = Some s' /\
             wellFormedIds s' /\ newestFirst s' /\ settled (outputs s') /\
             exactCounters s' /\
             effects s' = [RenderMessages (messages s');
                           RenderOutputs (outputs s')] /\
             apiKeyInput s'
             = match get_apiKey st with
               | Ok (Some v) => if truthy v then v else apiKey
               | _ => apiKey
               end /\
             systemMessage s'
             = match get_systemMessage st with
               | Ok (Some v) => if truthy v then normalizeNewlines v
                                else systemMsg
               | _ => systemMsg
               end.
Proof.
  intros (Hkey & Hsys & Hmsgs & Houts). unfold start, loadState.
  rewrite (@load_inputs st apiKey systemMsg Hkey Hsys).
  set (s0 := initial _ _). cbn [andThen].
  destruct (@loadMessages_restorable w st s0 eq_refl eq_refl Hmsgs)
    as [(s1 & -> & Hwf & Hid & Hout & Hnext & Heff & Hk1 & Hm1) | ->];
    cbn [andThen].
  - destruct (@loadOutputs_restorable st s1 Houts Hout)
      as (s2 & Hs2 & Hm & Hn & He & Hk2 & Hm2 & Hnew & Hsettled & Hoid).
    { rewrite Hnext. discriminate. }
    assert (wellFormedIds s2) as Hwf2.
    { revert Hwf. apply wellFormedIds_same; [exact Hm | rewrite Hn; lia]. }
    exists (renderOutputs (renderMessages s2)).
    split; [destruct Hs2 as [-> | ->]; reflexivity|].
    split; [|split; [|split; [|split; [|split; [|split]]]]].
    + revert Hwf2. apply wellFormedIds_same; cbn; [reflexivity | lia].
    + revert Hnew. apply newestFirst_same; cbn; [reflexivity | lia].
    + exact Hsettled.
    + split; cbn; [rewrite Hn; exact Hid | exact Hoid].
    + cbn. rewrite He, Heff. reflexivity.
    + cbn. rewrite Hk2, Hk1. reflexivity.
    + cbn. rewrite Hm2, Hm1. reflexivity.
  - exists (renderOutputs (renderMessages s0)). split; [reflexivity|].
    split; [|split; [|split; [|split; [|split; [|split]]]]].
    + split; [constructor | intros id []].
    + exists []. split; [reflexivity | exact I].
    + constructor.
    + split; discriminate.
    + reflexivity.
    + reflexivity.
    + reflexivity.
Qed.

(** X18. Restarting is safe, any number of times. A store is
    restorable when the ids saved under "messages" are distinct numbers
    below 2^53 and what is saved under "outputs" is done loading and
    newest first, with ids below 2^53; the empty store is. (From 2^53
    on the counters, which are doubles, are no longer exact: one past
    an id of 2^53 is 2^53 again.) On a restorable store the constructor
    always succeeds (no counter is NaN), whatever blobs can be read,
    and starts in a state with no output loading and with both
    counters within 2^53; and in every state of the session that goes
    on from there the ids of the message list are distinct and below
    the counter and the outputs stand newest first, with distinct ids,
    and whatever that session saves leaves the store restorable again,
    as long as the counters have stayed within 2^53 all along that
    session. *)
Theorem restart_is_safe (w : World) :
  restorableStore emptyStore /\
  (forall st apiKey systemMsg,
      restorableStore st ->
      exists s0,
        start w st apiKey systemMsg = Some s0 /\
        settled (outputs s0) /\
        exactCounters s0 /\
        forall actions,
          staysExact w actions s0 ->
          wellFormedIds (session w actions s0) /\
          newestFirst (session w actions s0) /\
          NoDup (map out_id (outputs (session w actions s0))) /\
          restorableStore (storeAfter st (session w actions s0))).
Proof.
  split.
  - split; [eexists; reflexivity|]. split; [eexists; reflexivity|].
    split; left; reflexivity.
  - intros st apiKey systemMsg Hst.
    destruct (@start_restorable w st apiKey systemMsg Hst)
      as (s0 & Hstart & Hwf & Hnew & Hsettled & Hexact & Heff & _).
    exists s0. split; [exact Hstart|]. split; [exact Hsettled|].
    split; [exact Hexact|]. intros actions Hstays.
    assert (Forall restorable (effects s0)) as Hlog
      by (rewrite Heff; repeat constructor).
    destruct (@session_restorable w actions s0 Hstays Hwf Hnew Hlog)
      as (A & B & C).
    split; [exact A|]. split; [exact B|]. split.
    + destruct B as (ns & Hids & Hdec). rewrite Hids.
      exact (@decreasing_distinct ns _ Hdec).
    + apply storeAfter_restorable; assumption.
Qed.

Lemma sample_store_restorable : restorableStore Sample2.store.
Proof.
  split; [eexists; reflexivity|]. split; [eexists; reflexivity|]. split.
  - right. eexists. split; [reflexivity|]. split.
    + repeat constructor; cbn; intuition discriminate.
    + intros id [<- | [<- | []]]; [exists 1%N | exists 3%N];
        split; reflexivity.
  - right. eexists. split; [reflexivity|]. split.
    + repeat constructor.
    + exists [2%N], 3%N. split; [reflexivity|].
      split; [split; [reflexivity | exact I] | discriminate].
Qed.

Lemma restart_is_safe_witness :
  restorableStore Sample2.store /\
  exists s0,
    start Sample.world Sample2.store [] [] = Some s0 /\
    settled (outputs s0) /\
    staysExact Sample.world [AddItem; GenerateText] s0 /\
    wellFormedIds (session Sample.world [AddItem; GenerateText] s0) /\
    restorableStore
      (storeAfter Sample2.store
                  (session Sample.world [AddItem; GenerateText] s0)).
Proof.
  split; [exact sample_store_restorable|].
  destruct (proj2 (restart_is_safe Sample.world) Sample2.store [] []
                  sample_store_restorable)
    as (s0 & Hstart & Hsettled & Hexact & Hsession).
  assert (staysExact Sample.world [AddItem; GenerateText] s0) as Hstays.
  { pose proof Hstart as Hs. vm_compute in Hs. injection Hs as <-.
    repeat split; vm_compute; discriminate. }
  exists s0. split; [exact Hstart|]. split; [exact Hsettled|].
  split; [exact Hstays|].
  destruct (Hsession [AddItem; GenerateText] Hstays) as (Hwf & _ & _ & Hstore).
  split; [exact Hwf | exact Hstore].
Defined.

(** X19. What was saved comes back. When the store is restorable (so
    that the ids saved are numbers below 2^53, where the counter that
    is computed from them is exact), the list saved under "messages" is
    the list of [s] and the blobs of its images can be read, the
    constructor restores the items of [s] with their ids, texts, blobs
    and types, in order, and the data URL of every image is read again
    from its blob. The counter is not restored but computed: it stands
    one past the largest id of the list, which is never more than the
    counter of [s] was, and less when the items with the largest ids
    had been deleted; it is within 2^53. *)
Theorem saved_list_comes_back (w : World) (st : Store) (s : State)
        (apiKey systemMsg : jsstring) :
  restorableStore st ->
  get_messages st = Ok (Some (map stored (messages s))) ->
  allReadable w (messages s) = true ->
  exists s0,
    start w st apiKey systemMsg = Some s0 /\
    map stored (messages s0) = map stored (messages s) /\
    Forall (imageInSync w) (messages s0) /\
    (forall ns, ids s = map ofNumber ns ->
                nextId s0 = (largest ns + 1)%N) /\
    (nextId s0 <= TWO_53)%N /\
    (wellFormedIds s -> (nextId s0 <= N.max (nextId s) 1)%N).
Proof.
  intros (Hkey & Hsys & Hmsgs & Houts) Hsaved Hreadable.
  destruct Hmsgs as [Hnone | (stored0 & Hsome & _ & Hnum)]; [congruence|].
  assert (stored0 = map stored (messages s)) as -> by congruence.
  rewrite saved_ids in Hnum.
  destruct (@bounded_numbers_of_ids _ _ Hnum) as (ns0 & Hns0 & Hbound).
  pose proof (@largest_lt ns0 TWO_53 TWO_53_positive Hbound) as Hlargest.
  destruct (restoreAll_readable w (messages s) Hreadable) as [restored Hall].
  destruct (@restoreAll_stored w _ restored Hall) as [Hstored Hsync].
  assert (map msg_id restored = map msg_id (messages s)) as Hids.
  { rewrite <- (saved_ids restored), Hstored. apply saved_ids. }
  unfold start, loadState.
  rewrite (@load_inputs st apiKey systemMsg Hkey Hsys).
  set (s0 := initial _ _). cbn [andThen].
  unfold loadMessages.
  rewrite Hsome, Hall, Hids, Hns0, (counterAfter_ofNumber ns0 Hlargest).
  cbn [andThen].
  destruct (@loadOutputs_restorable st
              (set_nextId (largest ns0 + 1) (set_messages restored s0))
              Houts eq_refl) as (s2 & Hs2 & Hm & Hn & _);
    [cbn; discriminate|].
  exists (renderOutputs (renderMessages s2)).
  split; [destruct Hs2 as [-> | ->]; reflexivity|].
  cbn [messages nextId renderOutputs renderMessages emit]. rewrite Hm, Hn.
  cbn [messages nextId set_nextId set_messages].
  split; [exact Hstored|]. split; [exact Hsync|]. split; [|split].
  - intros ns Hns. unfold ids in Hns. rewrite Hns0 in Hns.
    apply ofNumber_map_inj in Hns. subst ns. reflexivity.
  - lia.
  - intros [_ Hissued]. apply largest_below. intros n Hin.
    destruct (Hissued (ofNumber n)) as (m & Hlt & Heq).
    + unfold ids. rewrite Hns0. apply in_map, Hin.
    + apply ofNumber_inj in Heq. subst m. exact Hlt.
Qed.

Lemma saved_list_comes_back_witness :
  restorableStore Sample2.store /\
  get_messages Sample2.store
  = Ok (Some (map stored
                  (messages (set_messages
                               [mkMessage (lit "1") (lit "hi")
                                          (Some Sample.picture);
                                mkMessage (lit "3") [] None]
                               (set_nextId 7 Sample.ready))))) /\
  exists s0,
    start Sample.world Sample2.store [] [] = Some s0 /\
    map stored (messages s0)
    = [mkStored (lit "1") (lit "hi") (Some (Sample.png, lit "image/png"));
       mkStored (lit "3") [] None] /\
    nextId s0 = 4%N.
Proof.
  split; [exact sample_store_restorable | split; [reflexivity|]].
  destruct (@saved_list_comes_back Sample.world Sample2.store
              (set_messages [mkMessage (lit "1") (lit "hi")
                                       (Some Sample.picture);
                             mkMessage (lit "3") [] None]
                            (set_nextId 7 Sample.ready))
              [] [] sample_store_restorable eq_refl eq_refl)
    as (s0 & Hstart & Hstored & _ & Hnext & _).
  exists s0. split; [exact Hstart|]. split; [exact Hstored|].
  exact (Hnext [1%N; 3%N] eq_refl).
Defined.

(** X20. One blob that cannot be read loses the session. When the
    image of one saved item cannot be read back, the constructor
    restores neither the saved messages nor the saved outputs, whatever
    they are: it starts with both lists empty and both counters at 1.
    The key and the system text are restored: each is the saved one
    when one is saved that is not empty (the system text as the text
    area gives it back, with its line breaks normalized), and what the
    page gave otherwise. The store still holds the lists at that
    point, but the first item added overwrites the saved list with the
    new item alone. *)
Theorem unreadable_blob_loses_the_session (w : World) (st : Store)
        (stored0 : list StoredMessage) (msg : StoredMessage) (b : Blob)
        (mime : jsstring) (e : JsError) (apiKey systemMsg : jsstring) :
  (exists v, get_apiKey st = Ok v) ->
  (exists v, get_systemMessage st = Ok v) ->
  get_messages st = Ok (Some stored0) ->
  In msg stored0 ->
  st_image msg = Some (b, mime) ->
  readAsDataURL w b = Throw e ->
  exists s0,
    start w st apiKey systemMsg = Some s0 /\
    messages s0 = [] /\ nextId s0 = 1%N /\
    outputs s0 = [] /\ nextOutputId s0 = 1%N /\
    apiKeyInput s0 = match get_apiKey st with
                     | Ok (Some v) => if truthy v then v else apiKey
                     | _ => apiKey
                     end /\
    systemMessage s0 = match get_systemMessage st with
                       | Ok (Some v) => if truthy v then normalizeNewlines v
                                        else systemMsg
                       | _ => systemMsg
                       end /\
    get_messages (storeAfter st s0) = Ok (Some stored0) /\
    get_messages (storeAfter st (addItem s0))
    = Ok (Some [mkStored (lit "1") [] None]).
Proof.
  intros Hkey Hsys Hsome Hin Himage Hread.
  destruct (@restoreAll_unreadable w stored0 msg b mime e Hin Himage Hread)
    as [e' Hall].
  unfold start, loadState.
  rewrite (@load_inputs st apiKey systemMsg Hkey Hsys).
  set (s0 := initial _ _). cbn [andThen].
  unfold loadMessages. rewrite Hsome, Hall. cbn [andThen].
  eexists. split; [reflexivity|]. repeat (split; [reflexivity|]).
  split; [exact Hsome | reflexivity].
Qed.

Lemma unreadable_blob_loses_the_session_witness :
  exists s0,
    start Sample2.broken Sample2.store [] (lit "Be brief.") = Some s0 /\
    messages s0 = [] /\ outputs s0 = [] /\
    apiKeyInput s0 = lit "key" /\
    systemMessage s0 = lit "Be brief." /\
    get_messages (storeAfter Sample2.store (addItem s0))
    = Ok (Some [mkStored (lit "1") [] None]).
Proof.
  destruct (@unreadable_blob_loses_the_session Sample2.broken Sample2.store
              [mkStored (lit "1") (lit "hi") (Some (Sample.png, lit "image/png"));
               mkStored (lit "3") [] None]
              (mkStored (lit "1") (lit "hi") (Some (Sample.png, lit "image/png")))
              Sample.png (lit "image/png") None [] (lit "Be brief.")
              (ex_intro _ _ eq_refl) (ex_intro _ _ eq_refl) eq_refl
              (or_introl eq_refl) eq_refl eq_refl)
    as (s0 & Hstart & Hmsgs & _ & Houts & _ & Hkey & Hsys & _ & Hlost).
  exists s0. split; [exact Hstart|]. split; [exact Hmsgs|].
  split; [exact Houts|]. split; [exact Hkey|].
  split; [exact Hsys | exact Hlost].
Defined.

(** X21. The two inputs survive a restart as the generation handlers
    read them. The input listeners save the trimmed value; when that is
    not empty the constructor puts it back into the input, so that the
    credential (and the system text) the handlers see after the restart
    is the one they saw before it. When the trimmed value is empty it
    is saved but not put back: the input keeps what the page gave it.
    The text area gives a text back with its line breaks normalized
    (CR LF and CR as LF): the system text after the restart is the
    saved one read that way, which is the saved one itself when the
    value held no CR, as every value read from a text area does. *)
Theorem inputs_survive_restart (w : World) (st : Store)
        (value apiKey systemMsg : jsstring) :
  restorableStore st ->
  (forall s,
      since s (inputApiKey value s) = [SaveApiKey (trim value)] /\
      credential (inputApiKey value s) = trim value /\
      since s (inputSystemMessage value s) = [SaveSystemMessage (trim value)] /\
      systemText (inputSystemMessage value s) = trim value) /\
  (exists s0,
      start w (write st (SaveApiKey (trim value))) apiKey systemMsg = Some s0 /\
      credential s0
      = if truthy (trim value) then trim value else trim apiKey) /\
  (exists s0,
      start w (write st (SaveSystemMessage (trim value))) apiKey systemMsg
      = Some s0 /\
      systemText s0
      = (if truthy (trim value) then trim (normalizeNewlines (trim value))
         else trim systemMsg) /\
      (~ In 13%N value ->
       systemText s0
       = if truthy (trim value) then trim value else trim systemMsg)).
Proof.
  intros Hst. split; [|split].
  - intros s. split; [apply since_app; reflexivity|]. split; [reflexivity|].
    split; [apply since_app; reflexivity | reflexivity].
  - destruct (@start_restorable w (write st (SaveApiKey (trim value)))
                apiKey systemMsg)
      as (s0 & Hstart & _ & _ & _ & _ & _ & Hkey & _).
    { apply write_restorable; [exact I | exact Hst]. }
    exists s0. split; [exact Hstart|]. unfold credential. rewrite Hkey.
    cbn [write get_apiKey].
    destruct (truthy (trim value)); [apply trim_idem | reflexivity].
  - destruct (@start_restorable w (write st (SaveSystemMessage (trim value)))
                apiKey systemMsg)
      as (s0 & Hstart & _ & _ & _ & _ & _ & _ & Hsys).
    { apply write_restorable; [exact I | exact Hst]. }
    exists s0. split; [exact Hstart|]. unfold systemText. rewrite Hsys.
    cbn [write get_systemMessage]. split.
    + destruct (truthy (trim value)); reflexivity.
    + intros Hcr. destruct (truthy (trim value)); [|reflexivity].
      rewrite normalizeNewlines_without_CR; [apply trim_idem|].
      intros Hin. apply Hcr, (trim_In _ _ Hin).
Qed.

Lemma inputs_survive_restart_witness :
  restorableStore emptyStore /\
  (exists s0,
      start Sample.world (write emptyStore (SaveApiKey (trim (lit " k1 "))))
            [] []
      = Some s0 /\
      credential s0 = lit "k1") /\
  ~ In 13%N (lit " Be brief. ") /\
  exists s0,
    start Sample.world
          (write emptyStore (SaveSystemMessage (trim (lit " Be brief. "))))
          [] []
    = Some s0 /\
    systemText s0 = lit "Be brief.".
Proof.
  assert (restorableStore emptyStore) as Hst.
  { split; [eexists; reflexivity|]. split; [eexists; reflexivity|].
    split; left; reflexivity. }
  assert (~ In 13%N (lit " Be brief. ")) as Hcr
      by (cbn; intuition discriminate).
  split; [exact Hst|].
  destruct (@inputs_survive_restart Sample.world emptyStore
              (lit " k1 ") [] [] Hst) as (_ & (s0 & Hstart & Hkey) & _).
  split; [exists s0; split; [exact Hstart | exact Hkey]|].
  split; [exact Hcr|].
  destruct (@inputs_survive_restart Sample.world emptyStore
              (lit " Be brief. ") [] [] Hst)
    as (_ & _ & (s1 & Hstart1 & _ & Hsys)).
  exists s1. split; [exact Hstart1 | exact (Hsys Hcr)].
Defined.

(* ------------------------------------------------------------------ *)
(** ** Pasting and uploading *)

Lemma handlePaste_skips w id before : forall rest,
  (forall item, In item before ->
                includes (item_type item) (lit "image") = false) ->
  handlePaste w id (before ++ rest) = handlePaste w id rest /\
  pastePrevented (before ++ rest) = pastePrevented rest.
Proof.
  induction before as [|x before IH]; intros rest Hnone; [auto|].
  cbn [app handlePaste pastePrevented].
  rewrite (Hnone x (or_introl eq_refl)).
  apply IH. intros item Hin. apply Hnone. right. exact Hin.
Qed.

(** X22. The paste listener of an item handles one clipboard item: the
    first whose type contains "image". It prevents the default paste and
    attaches the file of that clipboard item to the message item, as
    [updateMessageImage] does; the clipboard items after it are not
    looked at, and nothing is attached when that one gives no file.
    When no clipboard item has such a type, nothing is prevented and
    nothing changes. The upload input attaches its first file and
    ignores the others. *)
Theorem paste_handles_first_image (w : World) (id : jsstring) (s : State) :
  (forall before item after,
      (forall other, In other before ->
                     includes (item_type other) (lit "image") = false) ->
      includes (item_type item) (lit "image") = true ->
      pastePrevented (before ++ item :: after) = true /\
      handlePaste w id (before ++ item :: after) s
      = match getAsFile item with
        | Some file => updateMessageImage w id file s
        | None => (s, Ok tt)
        end) /\
  (forall items,
      (forall other, In other items ->
                     includes (item_type other) (lit "image") = false) ->
      pastePrevented items = false /\
      handlePaste w id items s = (s, Ok tt)) /\
  (forall file others,
      handleUpload w id (file :: others) s = updateMessageImage w id file s) /\
  handleUpload w id [] s = (s, Ok tt).
Proof.
  split; [|split; [|split; reflexivity]].
  - intros before item after Hnone Himage.
    destruct (handlePaste_skips w id before (item :: after) Hnone) as [-> ->].
    cbn [handlePaste pastePrevented]. rewrite Himage.
    split; [reflexivity|]. destruct (getAsFile item); reflexivity.
  - intros items Hnone.
    destruct (handlePaste_skips w id items [] Hnone) as [Hpaste Hprevented].
    rewrite app_nil_r in Hpaste, Hprevented. rewrite Hpaste, Hprevented.
    split; reflexivity.
Qed.

Lemma paste_handles_first_image_witness :
  (forall other,
      In other [mkClipboardItem (lit "text/plain") None] ->
      includes (item_type other) (lit "image") = false) /\
  includes (item_type (mkClipboardItem (lit "image/jpeg") (Some Sample2.jpg)))
           (lit "image") = true /\
  messages
    (fst (handlePaste Sample.world (lit "B")
            [mkClipboardItem (lit "text/plain") None;
             mkClipboardItem (lit "image/jpeg") (Some Sample2.jpg);
             mkClipboardItem (lit "image/png") (Some Sample.png)]
            (set_messages [Sample.A; Sample.B] Sample.ready)))
  = [Sample.A;
     mkMessage (lit "B") (lit "b")
       (Some (mkImage Sample2.jpg (lit "image/jpeg") Sample.pngUrl))].
Proof.
  assert (forall other,
             In other [mkClipboardItem (lit "text/plain") None] ->
             includes (item_type other) (lit "image") = false) as Hnone.
  { intros other [<- | []]. reflexivity. }
  split; [exact Hnone | split; [reflexivity|]].
  pose proof (proj2 (proj1 (paste_handles_first_image Sample.world (lit "B")
                              (set_messages [Sample.A; Sample.B] Sample.ready))
                           [mkClipboardItem (lit "text/plain") None]
                           (mkClipboardItem (lit "image/jpeg")
                                            (Some Sample2.jpg))
                           [mkClipboardItem (lit "image/png") (Some Sample.png)]
                           Hnone eq_refl)) as Hpaste.
  cbn [app] in Hpaste. rewrite Hpaste. reflexivity.
Defined.
